(** * smart-code-review: diff segmentation, generated-file filtering,
      backend fan-out and synthesis.

    A shallow embedding of the functions of [pr_reviewer] that carry the
    ordering and failure-isolation properties of the tool:

    - [diff_utils.py]: [chunk_text], [FILE_HEADER_RE], [extract_changed_files];
    - [github_api.py]: [_is_generated_path], [_has_generated_markers],
      [filter_out_generated_diffs], [fetch_pr_diff_filtered],
      [fetch_all_prs], [_page_json], [_extract_added_class_like_symbols];
    - [ui.py]: the backend loop of [App.on_review];
    - [file_history_tab.py]: the backend loop of [FileHistoryTab],
      [synthesize_file_history_with_base], [parse_file_blob_url],
      [fetch_file_commit_history], [fetch_commit_patch_for_file] and
      [_unwrap_code_fences].

    Python strings are sequences of Unicode code points, Python dicts are
    insertion-ordered, and a call either returns or raises: the three are
    modelled as such. *)

From Stdlib Require Import List ZArith NArith Lia Bool Arith.
From Stdlib Require Import Strings.String Strings.Ascii Numbers.DecimalString.
From Stdlib Require Import Sorting.Permutation Sorting.Sorted.
Import ListNotations.

Local Open Scope list_scope.

(* ================================================================== *)
(** ** Python strings *)
(* ================================================================== *)

Module Py.

(** A [str] is a sequence of Unicode code points. *)
Definition char := N.
Definition str := list char.

(** Literals are written with Rocq strings (one code point per byte). *)
Definition of_string (s : string) : str :=
  List.map N_of_ascii (list_ascii_of_string s).

Definition LF : char := 10%N.
Definition CR : char := 13%N.

Fixpoint str_eqb (a b : str) : bool :=
  match a, b with
  | [], [] => true
  | x :: a', y :: b' => N.eqb x y && str_eqb a' b'
  | _, _ => false
  end.

(** Truthiness of a sequence: [if cur], [x or y]. *)
Definition truthy {A} (l : list A) : bool :=
  match l with [] => false | _ :: _ => true end.

(** [s.startswith(p)], returning what follows the prefix. *)
Fixpoint strip_prefix (p s : str) : option str :=
  match p, s with
  | [], _ => Some s
  | x :: p', y :: s' => if N.eqb x y then strip_prefix p' s' else None
  | _ :: _, [] => None
  end.

Definition startswith (s p : str) : bool :=
  match strip_prefix p s with Some _ => true | None => false end.

(** [needle in hay] on strings. *)
Fixpoint contains (hay needle : str) : bool :=
  startswith hay needle
  || match hay with [] => false | _ :: hay' => contains hay' needle end.

(** The line boundaries of [str.splitlines]: LF, VT, FF, CR, FS, GS, RS,
    NEL, LINE SEPARATOR and PARAGRAPH SEPARATOR. *)
Definition is_linebreak (c : char) : bool :=
  existsb (N.eqb c) [10; 11; 12; 13; 28; 29; 30; 133; 8232; 8233]%N.

(** The characters [str.strip()] removes ([str.isspace]). *)
Definition is_space (c : char) : bool :=
  existsb (N.eqb c)
    [9; 10; 11; 12; 13; 28; 29; 30; 31; 32; 133; 160; 5760;
     8192; 8193; 8194; 8195; 8196; 8197; 8198; 8199; 8200; 8201; 8202;
     8232; 8233; 8239; 8287; 12288]%N.

(** [s.splitlines(keepends)]: scan to the next line boundary; CR LF is
    one boundary; the boundary stays on the line when [keepends]; a
    last line without boundary is a line when it is not empty. [cur]
    is the line being scanned. *)
Fixpoint splitlines_from (keepends : bool) (cur s : str) : list str :=
  match s with
  | [] => if truthy cur then [cur] else []
  | c :: s' =>
      if is_linebreak c then
        match s' with
        | d :: s'' =>
            if N.eqb c CR && N.eqb d LF
            then (cur ++ (if keepends then [c; d] else []))
                   :: splitlines_from keepends [] s''
            else (cur ++ (if keepends then [c] else []))
                   :: splitlines_from keepends [] s'
        | [] => [cur ++ (if keepends then [c] else [])]
        end
      else splitlines_from keepends (cur ++ [c]) s'
  end.

Definition splitlines (keepends : bool) (s : str) : list str :=
  splitlines_from keepends [] s.

(** ["".join(parts)] *)
Definition join_empty (parts : list str) : str := List.concat parts.

(** [sep.join(parts)] *)
Fixpoint join (sep : str) (parts : list str) : str :=
  match parts with
  | [] => []
  | [p] => p
  | p :: ps => p ++ sep ++ join sep ps
  end.

Fixpoint lstrip (s : str) : str :=
  match s with
  | c :: s' => if is_space c then lstrip s' else s
  | [] => []
  end.

Definition rstrip (s : str) : str := rev (lstrip (rev s)).

(** [s.strip()] *)
Definition strip (s : str) : str := rstrip (lstrip s).

Definition len (s : str) : Z := Z.of_nat (List.length s).

End Py.

Definition py : string -> Py.str := Py.of_string.

(* ================================================================== *)
(** ** diff_utils.py *)
(* ================================================================== *)

Module DiffUtils.
Import Py.

(** The loop state of [chunk_text]: [parts, cur, size]. *)
Definition chunk_state : Type := list str * list str * Z.

(** One iteration of [for ln in s.splitlines(keepends=True)]. *)
Definition chunk_step (max_chars : Z) (st : chunk_state) (ln : str)
  : chunk_state :=
  let '(parts, cur, size) := st in
  let ln_len := len ln in
  if (size + ln_len >? max_chars)%Z && truthy cur
  then (parts ++ [join_empty cur], [ln], ln_len)
  else (parts, cur ++ [ln], (size + ln_len)%Z).

(** The loop and the final flush, over the lines. *)
Definition chunk_lines (lines : list str) (max_chars : Z) : list str :=
  let '(parts, cur, _) :=
    fold_left (chunk_step max_chars) lines ([], [], 0%Z) in
  if truthy cur then parts ++ [join_empty cur] else parts.

Definition chunk_text (s : str) (max_chars : Z) : list str :=
  chunk_lines (splitlines true s) max_chars.

Definition default_max_chars : Z := 12000.

(** *** [FILE_HEADER_RE]

    [re.compile(r"^diff --git a/(?P<a>.+) b/(?P<b>.+)$", re.MULTILINE)].
    The matcher below is the backtracking search of [re] specialised
    to this pattern: [.] is any character but LF, [^] holds at offset 0
    and after an LF, [$] holds at the end of the text and before an
    LF, and [.+] is greedy. *)

Record header_match : Type := mk_header_match
  { m_start : nat;   (* m.start() *)
    m_a : str;       (* m.group("a") *)
    m_b : str }.     (* m.group("b") *)

Definition header_prefix : str := py "diff --git a/".
Definition header_sep : str := py " b/".

(** The run of non-LF characters at the head of [r]. *)
Fixpoint dot_run (r : str) : str :=
  match r with
  | c :: r' => if N.eqb c LF then [] else c :: dot_run r'
  | [] => []
  end.

(** [(?P<b>.+)$]: shorter candidates for [b] all fail on [$], which
    leaves the whole run, and [+] asks for one character at least. *)
Definition match_b (r : str) : option str :=
  let b := dot_run r in if truthy b then Some b else None.

(** [ b/(?P<b>.+)$] at the head of [r]. *)
Definition match_sep_b (r : str) : option str :=
  match strip_prefix header_sep r with
  | Some r2 => match_b r2
  | None => None
  end.

(** [(?P<a>.+) b/(?P<b>.+)$] with [a] the characters consumed so far:
    the longer [a] is tried first, the split at this place second. *)
Fixpoint match_a_sep_b (a r : str) : option (str * str) :=
  match r with
  | [] => None
  | c :: r' =>
      if N.eqb c LF then None
      else
        match match_a_sep_b (a ++ [c]) r' with
        | Some ab => Some ab
        | None =>
            if truthy a then
              match match_sep_b r with
              | Some b => Some (a, b)
              | None => None
              end
            else None
        end
  end.

(** The pattern after [^], at the head of [s]. *)
Definition match_header (s : str) : option (str * str) :=
  match strip_prefix header_prefix s with
  | Some r => match_a_sep_b [] r
  | None => None
  end.

(** Number of characters of a match with groups [a] and [b]. *)
Definition match_length (a b : str) : nat :=
  List.length header_prefix + List.length a
  + List.length header_sep + List.length b.

(** [FILE_HEADER_RE.finditer]: every offset is tried from left to
    right, and the search resumes where a match ended. [skip] counts
    the characters of the last match still to be passed, [pos] is the
    offset of the head of [s], [bol] says whether [^] holds there. *)
Fixpoint finditer_from (skip pos : nat) (bol : bool) (s : str)
  : list header_match :=
  match s with
  | [] => []
  | c :: s' =>
      let next k := finditer_from k (S pos) (N.eqb c LF) s' in
      match skip with
      | S k => next k
      | O =>
          if bol then
            match match_header s with
            | Some (a, b) =>
                mk_header_match pos a b :: next (pred (match_length a b))
            | None => next O
            end
          else next O
      end
  end.

Definition FILE_HEADER_RE_finditer (s : str) : list header_match :=
  finditer_from 0 0 true s.

(** [FILE_HEADER_RE.search]: the first match, if any. *)
Definition FILE_HEADER_RE_search (s : str) : option header_match :=
  hd_error (FILE_HEADER_RE_finditer s).

(** [f not in seen] *)
Definition mem (f : str) (seen : list str) : bool :=
  existsb (str_eqb f) seen.

(** One iteration of [for f in files]; the state is [uniq, seen]. *)
Definition uniq_step (st : list str * list str) (f : str)
  : list str * list str :=
  let '(uniq, seen) := st in
  if negb (mem f seen) then (uniq ++ [f], f :: seen) else (uniq, seen).

Definition extract_changed_files (diff_text : str) : list str :=
  let files := List.map m_b (FILE_HEADER_RE_finditer diff_text) in
  let '(uniq, seen) := fold_left uniq_step files ([], []) in
  uniq.

(** A line longer than the budget is alone in its group. *)
Definition long_lines_alone (max_chars : Z) (g : list str) : Prop :=
  forall ln, In ln g -> (max_chars < len ln)%Z -> g = [ln].

Definition total_len (g : list str) : Z := len (List.concat g).

(** What the loop of [chunk_text] keeps true: the chunks flushed so
    far and the open buffer are the lines read so far, grouped. *)
Inductive chunk_inv (max_chars : Z) (read : list str) (st : chunk_state)
  : Prop :=
| mk_chunk_inv (groups : list (list str)) :
    fst (fst st) = List.map (@List.concat char) groups ->
    List.concat groups ++ snd (fst st) = read ->
    snd st = total_len (snd (fst st)) ->
    Forall (fun g => g <> []) groups ->
    Forall (long_lines_alone max_chars) groups ->
    long_lines_alone max_chars (snd (fst st)) ->
    chunk_inv max_chars read st.

(** What follows a line: nothing, or an LF. *)
Definition ends_line (rest : str) : Prop :=
  rest = [] \/ exists r, rest = LF :: r.

(** What precedes a line: nothing, or text that ends with an LF. *)
Definition starts_line (before : str) : Prop :=
  before = [] \/ exists p, before = p ++ [LF].

(** [D] has a header line at offset [start], with groups [a] and [b]:
    the line starts the text or follows an LF, it reads
    [diff --git a/<a> b/<b>] with [<a>] and [<b>] not empty, and it
    ends with the text or before an LF. *)
Definition is_header_at (D : str) (start : nat) (a b : str) : Prop :=
  exists before rest,
    D = before ++ header_prefix ++ a ++ header_sep ++ b ++ rest
    /\ List.length before = start
    /\ starts_line before
    /\ a <> [] /\ b <> []
    /\ ~ In LF a /\ ~ In LF b
    /\ ends_line rest.

(** The offset of the first occurrence of [x] in [l]. *)
Fixpoint first_index (x : str) (l : list str) : option nat :=
  match l with
  | [] => None
  | y :: l' =>
      if str_eqb x y then Some 0 else option_map S (first_index x l')
  end.

(** The [<B>] of every header of a diff, in the order of the headers. *)
Definition header_targets (diff_text : str) : list str :=
  List.map m_b (FILE_HEADER_RE_finditer diff_text).

(** What the loop [for f in files] keeps true, [read] being the files
    gone through: [seen] and [uniq] hold the same paths, those of
    [read], once each, in the order of their first occurrences. *)
Definition in_first_occurrence_order (uniq read : list str) : Prop :=
  forall i j p q,
    nth_error uniq i = Some p -> nth_error uniq j = Some q -> i < j ->
    exists i' j',
      first_index p read = Some i' /\ first_index q read = Some j' /\ i' < j'.

Definition uniq_inv (read : list str) (st : list str * list str) : Prop :=
  (forall x, In x (snd st) <-> In x (fst st))
  /\ NoDup (fst st)
  /\ (forall x, In x (fst st) <-> In x read)
  /\ in_first_occurrence_order (fst st) read.

End DiffUtils.

(* ================================================================== *)
(** ** Calls that may raise *)
(* ================================================================== *)

Module Exc.
Import Py.

(** The exception classes the code tells apart: [re.error], and every
    other subclass of [Exception]. [except Exception] catches both,
    [except re.error] the first only. *)
Inductive exn_class : Type := ReError | OtherException.

(** An exception: its class and [str(e)]. *)
Record exn : Type := Exn { exn_cls : exn_class; exn_msg : str }.

Inductive outcome (A : Type) : Type :=
| Return (a : A)
| Raise (e : exn).
Arguments Return {A} a.
Arguments Raise {A} e.

Definition bind {A B} (c : outcome A) (k : A -> outcome B) : outcome B :=
  match c with
  | Return a => k a
  | Raise e => Raise e
  end.

Definition is_re_error (e : exn) : bool :=
  match exn_cls e with ReError => true | OtherException => false end.

Definition returns {A} (c : outcome A) : bool :=
  match c with Return _ => true | Raise _ => false end.

End Exc.

Notation "x <- c ;; k" := (Exc.bind c (fun x => k))
  (at level 61, c at next level, right associativity).

(* ================================================================== *)
(** ** github_api.py: generated-code filtering *)
(* ================================================================== *)

Module GithubApi.
Import Py Exc DiffUtils.

(** The library calls of the classifier. Their results are not fixed
    by this repository, so the classifier is stated over any of them:
    - [fnmatch name pat] is [fnmatch.fnmatch(name, pat)];
    - [re_search pattern string] is the truth value of
      [re.search(pattern, string, flags=re.IGNORECASE)];
    - [lower s] is [s.lower()]. *)
Class Library : Type :=
  { fnmatch : str -> str -> outcome bool;
    re_search : str -> str -> outcome bool;
    lower : str -> str }.

(** The keys of [cfg] the filter reads; [None] is a missing key.
    [skip_generated] is read with [cfg.get("skip_generated", True)] and
    tested for its truth: [Some b] is a stored value whose truth value
    is [b] (a stored [None], [0] or [""] is [Some false]). The three
    other keys are read with [cfg.get(key) or default], which takes a
    stored value that is not true (a stored [None], an empty list or
    text) for a missing key: [Some v] is the stored list, or text,
    [v]. *)
Record config : Type := mk_config
  { skip_generated : option bool;
    generated_path_globs : option (list str);
    generated_file_regex : option str;
    generated_header_markers : option (list str) }.

(** [cfg.get(key, default)] and [cfg.get(key) or default]. *)
Definition get_or {A} (o : option A) (default : A) : A :=
  match o with Some a => a | None => default end.

Section Classifier.
Context {L : Library}.

(** The glob loop of [_is_generated_path]: the first glob that
    matches answers [True]; a glob that raises is passed over. *)
Fixpoint any_glob_matches (p : str) (globs : list str) : bool :=
  match globs with
  | [] => false
  | g :: gs =>
      match fnmatch p g with
      | Return true => true
      | Return false => any_glob_matches p gs
      | Raise _ => any_glob_matches p gs
      end
  end.

(** The regex step: [re.error] is caught, nothing else is. *)
Definition regex_matches (file_regex p : str) : outcome bool :=
  if truthy file_regex then
    match re_search file_regex p with
    | Return true => Return true
    | Return false => Return false
    | Raise e => if is_re_error e then Return false else Raise e
    end
  else Return false.

Definition _is_generated_path (path : str) (globs : list str)
    (file_regex : str) : outcome bool :=
  let p := strip path in
  if any_glob_matches p globs then Return true
  else regex_matches file_regex p.

Definition default_head_lines : nat := 120.

Definition _has_generated_markers (block_text : str)
    (markers : list str) (head_lines : nat) : bool :=
  if negb (truthy markers) then false
  else
    let head :=
      lower (join [LF] (firstn head_lines (splitlines false block_text))) in
    existsb (fun m => let mm := lower m in truthy mm && contains head mm)
            markers.

(** [s[i:j]] for [0 <= i]. *)
Definition slice (s : str) (i j : nat) : str := firstn (j - i) (skipn i s).

(** [[diff_text[starts[i]:starts[i + 1]] for i in range(len(starts) - 1)]] *)
Fixpoint slices (s : str) (starts : list nat) : list str :=
  match starts with
  | i :: ((j :: _) as rest) => slice s i j :: slices s rest
  | _ => []
  end.

(** The offsets of the headers. *)
Definition header_starts (diff_text : str) : list nat :=
  List.map m_start (FILE_HEADER_RE_finditer diff_text).

(** The file blocks: from each header to the next one, or to the
    end of the text. *)
Definition file_blocks (diff_text : str) : list str :=
  slices diff_text (header_starts diff_text ++ [List.length diff_text]).

(** What precedes the first header. *)
Definition preamble (diff_text : str) : str :=
  match header_starts diff_text with
  | [] => diff_text
  | i :: _ => firstn i diff_text
  end.

(** [b_path] of a block, after the [startswith("b/")] test. *)
Definition block_path (blk : str) : str :=
  let b_path :=
    match FILE_HEADER_RE_search blk with
    | Some m => m_b m
    | None => []
    end in
  match strip_prefix (py "b/") b_path with
  | Some rest => rest
  | None => b_path
  end.

(** [is_gen] of a block; [or] does not look at the markers when the
    path already answers [True]. *)
Definition block_is_generated (globs : list str) (file_rx : str)
    (markers : list str) (blk : str) : outcome bool :=
  by_path <- _is_generated_path (block_path blk) globs file_rx ;;
  if by_path then Return true
  else Return (_has_generated_markers blk markers default_head_lines).

(** [b_path or "(unknown)"] *)
Definition skipped_entry (blk : str) : str :=
  let b_path := block_path blk in
  if truthy b_path then b_path else py "(unknown)".

(** The loop [for blk in blocks], on the state [kept, skipped]. *)
Fixpoint filter_loop (globs : list str) (file_rx : str)
    (markers : list str) (blocks kept skipped : list str)
  : outcome (list str * list str) :=
  match blocks with
  | [] => Return (kept, skipped)
  | blk :: rest =>
      is_gen <- block_is_generated globs file_rx markers blk ;;
      if is_gen
      then filter_loop globs file_rx markers rest
             kept (skipped ++ [skipped_entry blk])
      else filter_loop globs file_rx markers rest
             (kept ++ [blk]) skipped
  end.

Definition filter_out_generated_diffs (diff_text : str) (cfg : config)
  : outcome (str * list str) :=
  if negb (truthy diff_text) then Return (diff_text, [])
  else if negb (get_or (skip_generated cfg) true) then Return (diff_text, [])
  else
    let globs := get_or (generated_path_globs cfg) [] in
    let file_rx := get_or (generated_file_regex cfg) [] in
    let markers := get_or (generated_header_markers cfg) [] in
    let starts := header_starts diff_text in
    if negb (truthy starts) then Return (diff_text, [])
    else
      let blocks := slices diff_text (starts ++ [List.length diff_text]) in
      r <- filter_loop globs file_rx markers blocks [] [] ;;
      Return (join_empty (fst r), snd r).

(** *** The rules, one by one

    What each rule says of a path when it is looked at alone: a rule
    whose call raises says nothing. *)

Definition glob_hit (p g : str) : bool :=
  match fnmatch p g with Return true => true | _ => false end.

Definition regex_hit (file_regex p : str) : bool :=
  truthy file_regex
  && match re_search file_regex p with Return true => true | _ => false end.

(** The search with [file_regex] returns, or raises [re.error] (the
    pattern is malformed): the two cases [_is_generated_path] expects. *)
Definition regex_returns_or_re_error (file_regex : str) : Prop :=
  forall p e, re_search file_regex p = Raise e -> is_re_error e = true.

(** The decision on a block when its classification returns. *)
Definition generated_flag (globs : list str) (file_rx : str)
    (markers : list str) (blk : str) : bool :=
  match block_is_generated globs file_rx markers blk with
  | Return b => b
  | Raise _ => false
  end.

(** A configuration without rules: no glob, no regex, no marker. *)
Definition no_rules (cfg : config) : Prop :=
  get_or (generated_path_globs cfg) [] = []
  /\ get_or (generated_file_regex cfg) [] = []
  /\ get_or (generated_header_markers cfg) [] = [].

End Classifier.

(** *** A library to run examples

    [example_fnmatch] is [fnmatch.fnmatch] as Python 3.11 computes it
    on a POSIX system (no change of case), where it raises on no
    pattern: [*], [?], [[seq]] and [[!seq]] with their ranges, a range
    whose bounds are in the wrong order being empty, and an opening
    bracket that nothing closes being a plain character.

    [example_re_search] stands for [re.search] with [re.IGNORECASE] on
    the patterns of the examples only, over ASCII texts: a pattern
    without special character is looked for as plain text, whatever
    the case of its letters; a pattern with an opening parenthesis
    that nothing closes is malformed ([re.error]); a repetition number
    of [MAXREPEAT] or more raises [OverflowError], which is not a
    [re.error]. *)

Inductive glob_item : Type :=
| Star
| AnyChar
| Never
| Lit (c : char)
| OneOf (negated : bool) (chunks : list str).

(** The text up to the next closing bracket, and what follows it. *)
Fixpoint until_close (s : str) : option (str * str) :=
  match s with
  | [] => None
  | c :: s' =>
      if N.eqb c 93%N (* ] *) then Some ([], s')
      else match until_close s' with
           | Some (a, r) => Some (c :: a, r)
           | None => None
           end
  end.

(** What stands between an opening bracket and the bracket that
    closes it: a [!] and then a []] at the head are part of it. *)
Definition close_bracket (s : str) : option (str * str) :=
  let '(bang, s1) :=
    match s with
    | c :: s' => if N.eqb c 33%N (* ! *) then ([c], s') else ([], s)
    | [] => ([], [])
    end in
  let '(brk, s2) :=
    match s1 with
    | c :: s' => if N.eqb c 93%N (* ] *) then ([c], s') else ([], s1)
    | [] => ([], [])
    end in
  match until_close s2 with
  | Some (a, r) => Some (bang ++ brk ++ a, r)
  | None => None
  end.

(** The chunks between the hyphens that make ranges: the first
    character (two after [!]) and the two characters after such a
    hyphen are not looked at. *)
Fixpoint split_chunks (skip : nat) (cur rest : str) : list str :=
  match rest with
  | [] => [cur]
  | c :: rest' =>
      match skip with
      | S k => split_chunks k (cur ++ [c]) rest'
      | O =>
          if N.eqb c 45%N (* - *) then cur :: split_chunks 2 [] rest'
          else split_chunks 0 (cur ++ [c]) rest'
      end
  end.

(** A last chunk that is empty gives its hyphen to the one before. *)
Definition fix_last (chunks : list str) : list str :=
  match rev chunks with
  | [] :: prev :: before => rev before ++ [prev ++ [45%N]]
  | _ => chunks
  end.

(** A range whose upper bound is below its lower bound is taken out,
    from the last one to the first one. *)
Fixpoint drop_empty_ranges (chunks : list str) : list str :=
  match chunks with
  | [] => []
  | a :: rest =>
      match drop_empty_ranges rest with
      | [] => [a]
      | b :: more =>
          match rev a, b with
          | la :: _, hb :: b' =>
              if (hb <? la)%N then (removelast a ++ b') :: more
              else a :: b :: more
          | _, _ => a :: b :: more
          end
      end
  end.

(** [c] is in the set: the last character of a chunk and the first
    one of the next chunk bound a range, the others stand for
    themselves. *)
Fixpoint chunks_mem (c : char) (cur : str) (rest : list str) : bool :=
  match rest with
  | [] => existsb (N.eqb c) cur
  | b :: more =>
      existsb (N.eqb c) (removelast cur)
      || match rev cur, b with
         | la :: _, hb :: _ => (la <=? c)%N && (c <=? hb)%N
         | _, _ => false
         end
      || chunks_mem c (tl b) more
  end.

Definition class_of (stuff : str) : glob_item :=
  let skip :=
    match stuff with
    | c :: _ => if N.eqb c 33%N (* ! *) then 2 else 1
    | [] => 1
    end in
  match drop_empty_ranges (fix_last (split_chunks skip [] stuff)) with
  | [[]] => Never
  | [[c]] => if N.eqb c 33%N then AnyChar else OneOf false [[c]]
  | (c :: a) :: more =>
      if N.eqb c 33%N then OneOf true (a :: more)
      else OneOf false ((c :: a) :: more)
  | chunks => OneOf false chunks
  end.

(** [fnmatch.translate], one item per step; [fuel] bounds the number
    of items, and the length of the pattern is enough. *)
Fixpoint translate (fuel : nat) (pat : str) : list glob_item :=
  match fuel, pat with
  | S fuel', c :: rest =>
      if N.eqb c 42%N (* * *) then Star :: translate fuel' rest
      else if N.eqb c 63%N (* ? *) then AnyChar :: translate fuel' rest
      else if N.eqb c 91%N (* [ *) then
        match close_bracket rest with
        | Some (stuff, rest') => class_of stuff :: translate fuel' rest'
        | None => Lit c :: translate fuel' rest
        end
      else Lit c :: translate fuel' rest
  | _, _ => []
  end.

Definition item_matches (it : glob_item) (d : char) : bool :=
  match it with
  | Star => false
  | AnyChar => true
  | Never => false
  | Lit c => N.eqb c d
  | OneOf negated chunks =>
      xorb negated
           match chunks with
           | [] => false
           | a :: rest => chunks_mem d a rest
           end
  end.

Fixpoint glob_match (items : list glob_item) : str -> bool :=
  match items with
  | [] => fun name => negb (truthy name)
  | Star :: items' =>
      fix star (name : str) : bool :=
        glob_match items' name
        || match name with [] => false | _ :: name' => star name' end
  | it :: items' =>
      fun name =>
        match name with
        | [] => false
        | d :: name' => item_matches it d && glob_match items' name'
        end
  end.

Definition example_fnmatch (name pat : str) : outcome bool :=
  Return (glob_match (translate (List.length pat) pat) name).

Definition ascii_lower_char (c : char) : char :=
  if (N.leb 65 c && N.leb c 90)%N then (c + 32)%N else c.

Definition ascii_lower (s : str) : str := List.map ascii_lower_char s.

Definition count_char (c : char) (s : str) : nat :=
  List.length (List.filter (N.eqb c) s).

Definition is_digit (c : char) : bool := (48 <=? c)%N && (c <=? 57)%N.

(** The number that the digits at the head of [s] write, after
    [acc], and what follows them. *)
Fixpoint read_number (acc : N) (s : str) : N * str :=
  match s with
  | c :: s' =>
      if is_digit c then read_number (10 * acc + (c - 48))%N s' else (acc, s)
  | [] => (acc, [])
  end.

Definition MAXREPEAT : N := 4294967295%N.

(** [{m}], [{m,}] or [{m,n}] at the head of [s], the brace read, with
    [m] or [n] too large. *)
Definition repeat_too_large (s : str) : bool :=
  let '(lo, r) := read_number 0 s in
  match r with
  | c :: r' =>
      if N.eqb c 125%N (* } *) then
        negb (List.length r =? List.length s) && (MAXREPEAT <=? lo)%N
      else if N.eqb c 44%N (* , *) then
        let '(hi, r2) := read_number 0 r' in
        match r2 with
        | d :: _ =>
            N.eqb d 125%N
            && ((MAXREPEAT <=? lo)%N || (MAXREPEAT <=? hi)%N)
        | [] => false
        end
      else false
  | [] => false
  end.

Fixpoint has_large_repeat (pattern : str) : bool :=
  match pattern with
  | c :: rest =>
      (N.eqb c 123%N (* { *) && repeat_too_large rest)
      || has_large_repeat rest
  | [] => false
  end.

Definition example_re_search (pattern string : str) : outcome bool :=
  if count_char 41%N (* ) *) pattern <? count_char 40%N (* ( *) pattern
  then Raise (Exn ReError (py "missing ), unterminated subpattern"))
  else if has_large_repeat pattern
  then Raise (Exn OtherException (py "the repetition number is too large"))
  else Return (contains (ascii_lower string) (ascii_lower pattern)).

(** A regex whose repetition number is too large. *)
Definition too_large_repeat : str := py "a{99999999999999}".

(** A block for the file [b/gen.js]. *)
Definition example_block : str :=
  py "diff --git a/b/gen.js b/b/gen.js" ++ [LF] ++ py "+x" ++ [LF].

Definition example_diff : str :=
  example_block
  ++ py "diff --git a/foo/bar.go b/foo/bar.go" ++ [LF] ++ py "+y" ++ [LF].

Definition example_config : config :=
  mk_config None (Some [py "[x"; py "gen.js"]) (Some (py "(")) None.

Definition example_library : Library :=
  {| fnmatch := example_fnmatch;
     re_search := example_re_search;
     lower := ascii_lower |}.

End GithubApi.

(* ================================================================== *)
(** ** Python dicts *)
(* ================================================================== *)

Module Dict.
Import Py.

(** A [dict] keeps its keys in insertion order: one entry per key, a
    new key goes last, an assignment to a key already there keeps its
    place. *)
Definition dict (V : Type) : Type := list (str * V).

Definition empty {V} : dict V := [].

(** [d[k] = v] *)
Fixpoint set {V} (d : dict V) (k : str) (v : V) : dict V :=
  match d with
  | [] => [(k, v)]
  | (k', v') :: d' =>
      if str_eqb k k' then (k', v) :: d' else (k', v') :: set d' k v
  end.

(** [d.get(k)] *)
Fixpoint get {V} (d : dict V) (k : str) : option V :=
  match d with
  | [] => None
  | (k', v') :: d' => if str_eqb k k' then Some v' else get d' k
  end.

(** [list(d)], [d.items()], [len(d)] *)
Definition keys {V} (d : dict V) : list str := List.map fst d.
Definition items {V} (d : dict V) : list (str * V) := d.
Definition size {V} (d : dict V) : nat := List.length d.

End Dict.

(* ================================================================== *)
(** ** ui.py and file_history_tab.py: one task per selected model *)
(* ================================================================== *)

Module Orchestrator.
Import Py Exc Dict.

(** What [run_one] pairs with the model name: the output of the call,
    or the exception it raised. *)
Inductive run_result : Type :=
| Output (out : option str)
| Failure (e : exn).

(** [x or ""] on an optional string. *)
Definition or_empty (o : option str) : str :=
  match o with Some s => s | None => [] end.

Section Runs.
(** The call of one model ([single_model_review(self.cfg, mname,
    diff, meta)], resp. [_single_model_file_history_summary(...)]):
    the network client behind it is not part of this model. *)
Variable invoke : str -> outcome (option str).

(** [concurrent.futures.as_completed]: the submitted tasks, in the
    order in which they finish. *)
Variable as_completed : list (str * run_result) -> list (str * run_result).

Definition run_one (mname : str) : str * run_result :=
  match invoke mname with
  | Return out => (mname, Output out)
  | Raise e => (mname, Failure e)
  end.

(** The body shared by both branches of [App.on_review], on the
    state [results, errors]. *)
Definition record_review (st : dict str * dict str)
    (r : str * run_result) : dict str * dict str :=
  let '(results, errors) := st in
  let '(mname, res2) := r in
  match res2 with
  | Failure e => (set results mname [], set errors mname (exn_msg e))
  | Output out => (set results mname (or_empty out), errors)
  end.

(** Step 3 of [App.on_review]. The step is reached with one model
    at least: [on_review] returns before it when nothing is selected. *)
Definition on_review_run_models (parallel : bool)
    (selected_models : list str) : dict str * dict str :=
  if parallel then
    let futs := List.map run_one selected_models in
    fold_left record_review (as_completed futs) (empty, empty)
  else
    fold_left (fun st m => record_review st (run_one m))
              selected_models (empty, empty).

(** Step 4 of [App.on_review]: the report sections,
    [results.get(m, "")] for [m] in [selected_models]. *)
Definition report_sections (selected_models : list str)
    (results : dict str) : list (str * str) :=
  List.map (fun m => (m, match get results m with
                         | Some v => v
                         | None => []
                         end)) selected_models.

(** The same loop in [FileHistoryTab]: the output is stored as it
    is (no [or ""]). *)
Definition record_history (st : dict (option str) * dict str)
    (r : str * run_result) : dict (option str) * dict str :=
  let '(results, errors) := st in
  let '(mname, res) := r in
  match res with
  | Failure e => (set results mname (Some []), set errors mname (exn_msg e))
  | Output out => (set results mname out, errors)
  end.

Definition file_history_run_models (parallel : bool)
    (selected_models : list str) : dict (option str) * dict str :=
  if parallel then
    let futs := List.map run_one selected_models in
    fold_left record_history (as_completed futs) (empty, empty)
  else
    fold_left (fun st m => record_history st (run_one m))
              selected_models (empty, empty).

(** The tasks in the order in which the loops record them. *)
Definition recorded (parallel : bool) (models : list str)
  : list (str * run_result) :=
  if parallel then as_completed (List.map run_one models)
  else List.map run_one models.

End Runs.

(** *** What the loops leave in the two dicts *)

(** The entry of [results] for one task of [App.on_review]. *)
Definition review_entry (r : str * run_result) : str * str :=
  (fst r, match snd r with Output out => or_empty out | Failure _ => [] end).

(** The entry of [results] for one task of [FileHistoryTab]. *)
Definition history_entry (r : str * run_result) : str * option str :=
  (fst r, match snd r with Output out => out | Failure _ => Some [] end).

(** The entries of [errors]: one per task that raised. *)
Definition error_entries (rs : list (str * run_result)) : list (str * str) :=
  flat_map (fun r => match snd r with
                     | Failure e => [(fst r, exn_msg e)]
                     | Output _ => []
                     end) rs.

(** [App._collect_selected_models]: the keys of [self.model_vars] whose
    box is ticked. *)
Definition _collect_selected_models (model_vars : dict bool) : list str :=
  List.map fst (List.filter (fun kv => snd kv) (items model_vars)).

(** *** Backends to run examples *)

(** Three models; the second one times out. *)
Definition second_fails (mname : str) : outcome (option str) :=
  if str_eqb mname (py "m2")
  then Raise (Exn OtherException (py "timeout"))
  else Return (Some (py "review by " ++ mname)).

(** A model that returns an empty completion. *)
Definition answers_nothing (mname : str) : outcome (option str) :=
  Return (Some []).

(** Tasks that finish in the reverse of the order of submission. *)
Definition last_first (futs : list (str * run_result))
  : list (str * run_result) := rev futs.

End Orchestrator.

(* ================================================================== *)
(** ** file_history_tab.py: synthesis with the base model *)
(* ================================================================== *)

Module Synthesis.
Import Py Exc Dict.

Record message : Type := mk_message { role : str; text : str }.

(** One [client.chat.completions.create(model=..., messages=...)]. *)
Record chat_call : Type := mk_chat_call
  { call_model : str; call_messages : list message }.

(** The gateway: building the client ([_make_client(cfg)]) and one
    completion ([completion.choices[0].message.content]). Both are
    outside this repository's control and may raise. *)
Class Gateway : Type :=
  { make_client : outcome unit;
    chat_completion : chat_call -> outcome (option str) }.

(** The three strings of [build_file_history_prompts(cfg)]. *)
Record prompts : Type := mk_prompts
  { p_system : str; p_template : str; p_hint : str }.

Record header_meta : Type := mk_header_meta
  { owner : str; repo : str; path : str;
    selected_shas : list str;
    selected_count : Z; filtered_count : Z }.

(** [str(n)] *)
Definition str_of_int (n : Z) : str :=
  py (DecimalString.NilZero.string_of_int (Z.to_int n)).

(** The six header lines. *)
Definition header_lines (hm : header_meta) (hint : str) : list str :=
  [ py "Repository: " ++ owner hm ++ py "/" ++ repo hm;
    py "File: " ++ path hm;
    py "Selected commits: "
      ++ join (py ", ") (List.map (firstn 7) (selected_shas hm));
    py "Selected count: " ++ str_of_int (selected_count hm);
    py "Filtered list size: " ++ str_of_int (filtered_count hm);
    hint ].

Definition synth_user : str :=
  py ("You are given multiple per-commit summaries for the SAME file. "
      ++ "Produce a SINGLE best summary that follows the requested template, preserving distinct TABLE blocks per commit. "
      ++ "Merge overlapping points, keep concrete descriptions, include 'Other Files Modified' sections only when present, "
      ++ "and ensure 'Likely Reasons' are concise bullet points. "
      ++ "Conclude with a single 'Overall Narrative' expressed as bullet points.")%string.

(** [if content:] *)
Definition content_truthy (content : option str) : bool :=
  match content with Some s => truthy s | None => false end.

(** The loop over [summaries_by_model.items()]. *)
Fixpoint collect_srcs (items : list (str * option str)) : list str :=
  match items with
  | [] => []
  | (m, content) :: rest =>
      if content_truthy content
      then (py "### Model: " ++ m ++ [LF] ++ Orchestrator.or_empty content)
             :: collect_srcs rest
      else collect_srcs rest
  end.

Definition no_sources : str := py "No sources.".

(** The text of the last message. *)
Definition sources_text (srcs : list str) : str :=
  if truthy srcs then join [LF; LF] srcs else no_sources.

Definition user_message (t : str) : message := mk_message (py "user") t.

Definition synthesis_messages (pr : prompts) (hm : header_meta)
    (summaries_by_model : dict (option str)) : list message :=
  [ mk_message (py "system") (p_system pr);
    user_message (p_template pr);
    user_message (join [LF] (header_lines hm (p_hint pr)));
    user_message synth_user;
    user_message (sources_text (collect_srcs (items summaries_by_model))) ].

(** A computation that calls the gateway: the calls made so far go in,
    the result or the exception and the calls made come out. *)
Definition M (A : Type) : Type :=
  list chat_call -> outcome A * list chat_call.

Definition ret {A} (a : A) : M A := fun log => (Return a, log).

Definition mbind {A B} (c : M A) (k : A -> M B) : M B :=
  fun log =>
    match c log with
    | (Return a, log') => k a log'
    | (Raise e, log') => (Raise e, log')
    end.

Definition lift {A} (c : outcome A) : M A := fun log => (c, log).

Section Reducer.
Context {G : Gateway}.

Definition create (model : str) (messages : list message)
  : M (option str) :=
  fun log =>
    let c := mk_chat_call model messages in
    (chat_completion c, log ++ [c]).

Definition synthesize_file_history_with_base (pr : prompts)
    (base_model : str) (summaries_by_model : dict (option str))
    (hm : header_meta) : M (option str) :=
  mbind (lift make_client) (fun _ =>
  mbind (create base_model (synthesis_messages pr hm summaries_by_model))
        (fun completion => ret completion)).

Definition base_model_name : str := py "llama-3-3-70b-instruct".

(** [FileHistoryTab]: the models are run (one at least is selected),
    then the base model synthesises from [results]. *)
Definition file_history_synthesis
    (invoke : str -> outcome (option str))
    (as_completed : list (str * Orchestrator.run_result)
                    -> list (str * Orchestrator.run_result))
    (parallel : bool) (selected_models : list str)
    (pr : prompts) (hm : header_meta) : M (option str) :=
  let '(results, errors) :=
    Orchestrator.file_history_run_models invoke as_completed
      parallel selected_models in
  synthesize_file_history_with_base pr base_model_name results hm.

End Reducer.

(** *** A gateway to run examples: the client is built, and the base
    model answers with the sources it was given. *)

Definition echo_sources (c : chat_call) : outcome (option str) :=
  Return (Some (text (last (call_messages c) (user_message [])))).

Definition example_gateway : Gateway :=
  {| make_client := Return tt; chat_completion := echo_sources |}.

Definition example_prompts : prompts :=
  mk_prompts (py "system") (py "template") (py "hint").

Definition example_header_meta : header_meta :=
  mk_header_meta (py "o") (py "r") (py "f.py") [py "0123456789abcdef"] 1 1.

(** Two models that answer [A] and [B]. *)
Definition two_answers (mname : str) : outcome (option str) :=
  if str_eqb mname (py "m1") then Return (Some (py "A"))
  else Return (Some (py "B")).

(** The sources in the order of the caller's list: what the models
    returned, the empty answers left out. *)
Definition caller_order_srcs (invoke : str -> outcome (option str))
    (selected_models : list str) : list str :=
  collect_srcs
    (List.map (fun m => Orchestrator.history_entry
                          (Orchestrator.run_one invoke m))
              selected_models).

(** Every value of the dict is empty ([None] or [""]). *)
Definition all_empty (summaries_by_model : dict (option str)) : Prop :=
  forall k v, In (k, v) (items summaries_by_model) -> content_truthy v = false.

End Synthesis.

(* ================================================================== *)
(** ** diff_utils.py: the budget of [chunk_text] *)
(* ================================================================== *)

Module ChunkBudget.
Import Py DiffUtils.

(** A group of lines fits the budget, or is one line. *)
Definition fits (max_chars : Z) (g : list str) : Prop :=
  (total_len g <= max_chars)%Z \/ exists ln, g = [ln].

(** The first line of a group. *)
Definition first_line (g : list str) : str := hd [] g.

(** Each group was closed because the next line did not fit. *)
Fixpoint greedy (max_chars : Z) (groups : list (list str)) : Prop :=
  match groups with
  | g :: ((g' :: _) as rest) =>
      (max_chars < total_len g + len (first_line g'))%Z
      /\ greedy max_chars rest
  | _ => True
  end.

(** The groups flushed and the open buffer, as one list of groups. *)
Definition with_open (groups : list (list str)) (cur : list str)
  : list (list str) :=
  if truthy cur then groups ++ [cur] else groups.

(** What the loop of [chunk_text] keeps true about sizes. *)
Inductive budget_inv (max_chars : Z) (read : list str) (st : chunk_state)
  : Prop :=
| mk_budget_inv (groups : list (list str)) :
    fst (fst st) = List.map (@List.concat char) groups ->
    List.concat groups ++ snd (fst st) = read ->
    snd st = total_len (snd (fst st)) ->
    Forall (fun g => g <> []) groups ->
    (snd (fst st) = [] -> groups = []) ->
    Forall (fits max_chars) (with_open groups (snd (fst st))) ->
    greedy max_chars (with_open groups (snd (fst st))) ->
    budget_inv max_chars read st.

End ChunkBudget.

(* ================================================================== *)
(** ** ui.py and file_history_tab.py: what the loops leave, model by model *)
(* ================================================================== *)

Module Outcomes.
Import Py Exc Dict Orchestrator Synthesis.

(** The entry of a model in the result map of [App.on_review]. *)
Definition result_of (invoke : str -> outcome (option str)) (m : str) : str :=
  match invoke m with
  | Return out => or_empty out
  | Raise _ => []
  end.

(** The entry of a model in the error map, if it has one. *)
Definition error_of (invoke : str -> outcome (option str)) (m : str)
  : option str :=
  match invoke m with
  | Return _ => None
  | Raise e => Some (exn_msg e)
  end.

(** The source that one entry of the result map gives the reducer. *)
Definition src_of (kv : str * option str) : list str :=
  if content_truthy (snd kv)
  then [py "### Model: " ++ fst kv ++ [LF] ++ or_empty (snd kv)]
  else [].

End Outcomes.

(* ================================================================== *)
(** ** github_api.py: [fetch_pr_diff_filtered], and the filter applied twice *)
(* ================================================================== *)

Module Pipeline.
Import Py Exc DiffUtils GithubApi.

Section WithLibrary.
Context {L : Library}.

(** [fetch_pr_diff_filtered(cfg, pr_url)]; [fetch_pr_diff] is the
    request for the raw diff, which returns the text or raises. The
    filter answers with a pair of a string and a list, so the tests on
    the shape of [res] keep it as it is; an exception of the filter
    gives the raw diff and an empty list. *)
Definition fetch_pr_diff_filtered (fetch_pr_diff : outcome str)
    (cfg : config) : outcome (str * list str) :=
  raw <- fetch_pr_diff ;;
  match filter_out_generated_diffs raw cfg with
  | Return (filtered, skipped) => Return (filtered, skipped)
  | Raise _ => Return (raw, [])
  end.

End WithLibrary.

(** A block ends with an LF. *)
Definition ends_LF (b : str) : Prop := exists p, b = p ++ [LF].

(** Every block but the last one ends with an LF. *)
Fixpoint chain_closed (blocks : list str) : Prop :=
  match blocks with
  | b :: ((_ :: _) as rest) => ends_LF b /\ chain_closed rest
  | _ => True
  end.

(** The search in each block of a list, the offsets counted from
    [pos] on. *)
Fixpoint finditer_blocks (pos : nat) (blocks : list str)
  : list header_match :=
  match blocks with
  | [] => []
  | b :: rest =>
      finditer_from 0 pos true b
      ++ finditer_blocks (pos + List.length b) rest
  end.

(** The offsets of the blocks of a list in their concatenation. *)
Fixpoint offsets (pos : nat) (blocks : list str) : list nat :=
  match blocks with
  | [] => []
  | b :: rest => pos :: offsets (pos + List.length b) rest
  end.

(** The number of headers the search finds in a block. *)
Definition n_matches (b : str) : nat :=
  List.length (finditer_from 0 0 true b).

(** The search finds one header in the block, at its start. *)
Definition one_match (b : str) : Prop :=
  exists a t, finditer_from 0 0 true b = [mk_header_match 0 a t].

(** The matches of a text, moved [k] characters to the right. *)
Definition shift (k : nat) (ms : list header_match) : list header_match :=
  List.map (fun m => mk_header_match (k + m_start m) (m_a m) (m_b m)) ms.

End Pipeline.

(* ================================================================== *)
(** ** file_history_tab.py and github_api.py: requests to GitHub *)
(* ================================================================== *)

Module Http.
Import Py Exc.

(** What [requests.get] hands back, as far as the callers read it:
    [r.ok], [r.status_code], [r.text] and the body parsed by
    [r.json()]. *)
Record response (J : Type) : Type := mk_response
  { ok : bool; status_code : Z; text : str; json : J }.

Arguments mk_response {J} _ _ _ _.
Arguments ok {J} _.
Arguments status_code {J} _.
Arguments text {J} _.
Arguments json {J} _.

(** The server behind the paged requests of one loop. The URL of a
    request differs from the others of the loop in its page only; the
    answer may depend on the pages requested before, and the request
    itself may raise. *)
Definition server (item : Type) : Type :=
  list nat -> nat -> outcome (response (list item)).

(** What a run of a loop leaves: its outcome and the pages requested,
    in the order of the requests; [None] when the loop is still
    running after the given number of iterations. *)
Definition run (A : Type) : Type := option (outcome A * list nat).

Definition RuntimeError (msg : str) : exn := Exn OtherException msg.
Definition ValueError (msg : str) : exn := Exn OtherException msg.

(** [f"<what>: {r.status_code} {r.text}"] *)
Definition failed {J} (what : str) (r : response J) : exn :=
  RuntimeError
    (what ++ Synthesis.str_of_int (status_code r) ++ py " " ++ text r).

(** [(cfg.get("github_token") or "").strip()] *)
Definition token_of (github_token : option str) : str :=
  strip (Orchestrator.or_empty github_token).

Definition per_page : nat := 100.

(** [l[:n]] *)
Definition slice_to {A} (n : Z) (l : list A) : list A :=
  if (n <? 0)%Z then firstn (List.length l - Z.to_nat (- n)) l
  else firstn (Z.to_nat n) l.

(** The answer to the request of page [i] of a loop that has requested
    the pages from 1 on, and the items in it. *)
Definition answer_at {item} (get : server item) (i : nat)
  : outcome (response (list item)) :=
  get (seq 1 (i - 1)) i.

Definition batch_at {item} (get : server item) (i : nat) : list item :=
  match answer_at get i with
  | Return r => json r
  | Raise _ => []
  end.

(** Page [i] is answered, and is full. *)
Definition full_page {item} (get : server item) (i : nat) : Prop :=
  exists r, answer_at get i = Return r /\ ok r = true
            /\ per_page <= List.length (json r).

(** Page [i] is full, and its status is not 404. *)
Definition full_page_found {item} (get : server item) (i : nat) : Prop :=
  exists r, answer_at get i = Return r /\ ok r = true
            /\ per_page <= List.length (json r)
            /\ status_code r <> 404%Z.

(** Page [i] is answered, and is short of a full page. *)
Definition short_page {item} (get : server item) (i : nat) : Prop :=
  exists r, answer_at get i = Return r /\ ok r = true
            /\ List.length (json r) < per_page.

End Http.

(* ================================================================== *)
(** ** github_api.py: [fetch_all_prs] *)
(* ================================================================== *)

Module Pulls.
Import Py Exc Http.

Section Pages.
Context {item : Type}.
Variable get : server item.

(** [paged_url], by the page. *)
Variable paged_url : nat -> str.

(** The loop [while True] of [fetch_all_prs], on the state
    [prs, page]. *)
Fixpoint fetch_all_prs_loop (fuel : nat) (prs : list item) (page : nat)
    (sent : list nat) : run (list item) :=
  match fuel with
  | O => None
  | S fuel' =>
      match get sent page with
      | Raise e => Some (Raise e, sent ++ [page])
      | Return r =>
          if negb (ok r) then
            Some (Raise (failed (py "Failed to fetch PRs: ") r),
                  sent ++ [page])
          else
            let batch := json r in
            if negb (truthy batch) then Some (Return prs, sent ++ [page])
            else
              let prs := prs ++ batch in
              if List.length batch <? per_page then
                Some (Return prs, sent ++ [page])
              else fetch_all_prs_loop fuel' prs (S page) (sent ++ [page])
      end
  end.

Definition fetch_all_prs (fuel : nat) (github_token : option str)
  : run (list item) :=
  let token := token_of github_token in
  if negb (truthy token) then
    Some (Raise (RuntimeError (py "Missing GitHub PAT in Configuration.")),
          [])
  else fetch_all_prs_loop fuel [] 1 [].

(** The loop of [_page_json]: a 404 gives [None], whatever was
    gathered. *)
Fixpoint _page_json (fuel : nat) (items : list item) (page : nat)
    (sent : list nat) : run (option (list item)) :=
  match fuel with
  | O => None
  | S fuel' =>
      match get sent page with
      | Raise e => Some (Raise e, sent ++ [page])
      | Return r =>
          if (status_code r =? 404)%Z then
            Some (Return None, sent ++ [page])
          else if negb (ok r) then
            Some (Raise (failed (py "Failed to fetch " ++ paged_url page
                                 ++ py ": ") r),
                  sent ++ [page])
          else
            let batch := json r in
            if negb (truthy batch) then
              Some (Return (Some items), sent ++ [page])
            else
              let items := items ++ batch in
              if List.length batch <? per_page then
                Some (Return (Some items), sent ++ [page])
              else _page_json fuel' items (S page) (sent ++ [page])
      end
  end.

End Pages.

(** Servers to run examples: two full pages and a short one; full
    pages for ever. *)
Definition three_pages : server nat :=
  fun _ page =>
    Return (mk_response true 200 []
              (if page <? 3 then repeat page per_page else [page; page])).

Definition endless : server nat :=
  fun _ page => Return (mk_response true 200 [] (repeat page per_page)).

(** Two full pages, and no third one. *)
Definition third_missing : server nat :=
  fun _ page =>
    if page <? 3 then Return (mk_response true 200 [] (repeat page per_page))
    else Return (mk_response false 404 (py "Not Found") []).

End Pulls.

(* ================================================================== *)
(** ** file_history_tab.py: the commits of a file *)
(* ================================================================== *)

Module FileHistory.
Import Py Exc DiffUtils Http.

(** *** [FILE_BLOB_URL_RE]

    [^https?://(?P<host>[^/]+)/(?P<owner>[^/]+)/(?P<repo>[^/]+)/blob/(?P<ref>[^/]+)/(?P<path>.+)$],
    applied with [match]. A group [[^/]+] is followed by a slash, so it
    is the whole run up to the next slash; [.+] stops at a line feed,
    and [$] holds at the end of the text or before a line feed that
    ends it. *)

Record blob_url : Type := mk_blob_url
  { host : str; owner : str; repo : str; ref : str; path : str }.

Definition SLASH : char := 47%N.

(** The longest run without a slash, and what follows it. *)
Fixpoint no_slash_run (s : str) : str * str :=
  match s with
  | [] => ([], [])
  | c :: s' =>
      if N.eqb c SLASH then ([], s)
      else let '(seg, rest) := no_slash_run s' in (c :: seg, rest)
  end.

(** [([^/]+)/] *)
Definition match_segment (s : str) : option (str * str) :=
  match no_slash_run s with
  | (c :: seg, _ :: rest) => Some (c :: seg, rest)
  | _ => None
  end.

(** [https?://] *)
Definition match_scheme (s : str) : option str :=
  match strip_prefix (py "https://") s with
  | Some r => Some r
  | None => strip_prefix (py "http://") s
  end.

(** [(.+)$] *)
Definition match_path (s : str) : option str :=
  let p := dot_run s in
  match p with
  | [] => None
  | _ :: _ =>
      match skipn (List.length p) s with
      | [] => Some p
      | [_] => Some p
      | _ => None
      end
  end.

Definition FILE_BLOB_URL_RE_match (s : str) : option blob_url :=
  match match_scheme s with
  | None => None
  | Some r0 =>
  match match_segment r0 with
  | None => None
  | Some (h, r1) =>
  match match_segment r1 with
  | None => None
  | Some (o, r2) =>
  match match_segment r2 with
  | None => None
  | Some (rp, r3) =>
  match strip_prefix (py "blob/") r3 with
  | None => None
  | Some r4 =>
  match match_segment r4 with
  | None => None
  | Some (rf, r5) =>
  match match_path r5 with
  | None => None
  | Some p => Some (mk_blob_url h o rp rf p)
  end end end end end end end.

Definition parse_file_blob_url (file_url : option str) : outcome blob_url :=
  match FILE_BLOB_URL_RE_match (strip (Orchestrator.or_empty file_url)) with
  | None =>
      Raise (ValueError
               (py "Invalid file URL. Expected https://<host>/<owner>/<repo>/blob/<ref>/<path>"))
  | Some u => Return u
  end.

(** The text of a blob URL. *)
Definition blob_url_text (secure : bool) (u : blob_url) : str :=
  (if secure then py "https://" else py "http://")
  ++ host u ++ [SLASH] ++ owner u ++ [SLASH] ++ repo u ++ [SLASH]
  ++ py "blob/" ++ ref u ++ [SLASH] ++ path u.

(** A group [[^/]+] can hold [seg]. *)
Definition segment (seg : str) : Prop := seg <> [] /\ ~ In SLASH seg.

(** *** [fetch_file_commit_history] *)

Section Commits.
Context {item : Type}.

(** The server of the commits of the file of a URL. *)
Variable get_commits : blob_url -> server item.

(** The loop [while len(items) < max_commits], on the state
    [items, page]. *)
Fixpoint history_loop (fuel : nat) (get : server item) (max_commits : Z)
    (items : list item) (page : nat) (sent : list nat)
  : run (list item) :=
  match fuel with
  | O => None
  | S fuel' =>
      if (Z.of_nat (List.length items) <? max_commits)%Z then
        match get sent page with
        | Raise e => Some (Raise e, sent ++ [page])
        | Return r =>
            if negb (ok r) then
              Some (Raise (failed
                             (py "Failed to fetch commit history for file: ")
                             r),
                    sent ++ [page])
            else
              let batch := json r in
              if negb (truthy batch) then Some (Return items, sent ++ [page])
              else
                let items := items ++ batch in
                if List.length batch <? per_page then
                  Some (Return items, sent ++ [page])
                else
                  history_loop fuel' get max_commits items (S page)
                               (sent ++ [page])
        end
      else Some (Return items, sent)
  end.

Definition fetch_file_commit_history (fuel : nat)
    (github_token : option str) (file_url : option str) (max_commits : Z)
  : run (list item * blob_url) :=
  let token := token_of github_token in
  if negb (truthy token) then
    Some (Raise (RuntimeError
                   (py "Missing GitHub token in settings (Configuration tab).")),
          [])
  else
    match parse_file_blob_url file_url with
    | Raise e => Some (Raise e, [])
    | Return u =>
        match history_loop fuel (get_commits u) max_commits [] 1 [] with
        | None => None
        | Some (Raise e, sent) => Some (Raise e, sent)
        | Some (Return items, sent) =>
            Some (Return (slice_to max_commits items, u), sent)
        end
    end.

End Commits.

Definition default_max_commits : Z := 300.

(** *** [fetch_commit_patch_for_file] *)

(** An entry of [data["files"]], as far as the loop reads it; a key
    that is missing or null is [None]. *)
Record file_entry : Type := mk_file_entry
  { filename : option str;
    previous_filename : option str;
    patch : option str }.

(** [fname == file_path or prev == file_path] *)
Definition is_target (file_path : str) (f : file_entry) : bool :=
  str_eqb (Orchestrator.or_empty (filename f)) file_path
  || str_eqb (Orchestrator.or_empty (previous_filename f)) file_path.

(** One iteration of [for f in files]; the state is
    [patch_for_target, others]. *)
Definition patch_step (file_path : str) (st : str * list str)
    (f : file_entry) : str * list str :=
  let '(patch_for_target, others) := st in
  let fname := Orchestrator.or_empty (filename f) in
  if is_target file_path f then
    (Orchestrator.or_empty (patch f), others)
  else if truthy fname then (patch_for_target, others ++ [fname])
  else (patch_for_target, others).

(** [get] is the request of the commit; its body holds
    [data.get("files")]. *)
Definition fetch_commit_patch_for_file (github_token : option str)
    (get : outcome (response (option (list file_entry))))
    (file_path : str) : outcome (str * list str) :=
  let token := token_of github_token in
  if negb (truthy token) then
    Raise (RuntimeError
             (py "Missing GitHub token in settings (Configuration tab)."))
  else
    r <- get ;;
    if negb (ok r) then
      Raise (failed (py "Failed to fetch commit detail: ") r)
    else
      Return (fold_left (patch_step file_path)
                        (GithubApi.get_or (json r) []) ([], [])).

(** The names of the entries of [files] that are not the target. *)
Definition other_names (file_path : str) (files : list file_entry)
  : list str :=
  List.filter truthy
    (List.map (fun f => Orchestrator.or_empty (filename f))
       (List.filter (fun f => negb (is_target file_path f)) files)).

(** The last entry of [files] that is the target. *)
Definition last_target (file_path : str) (files : list file_entry)
  : option file_entry :=
  last (List.map Some (List.filter (is_target file_path) files)) None.

(** Examples. *)
Definition example_blob_url : blob_url :=
  mk_blob_url (py "github.com") (py "acme") (py "shop") (py "main")
              (py "src/cart/total.py").

Definition example_files : list file_entry :=
  [ mk_file_entry (Some (py "a.py")) None (Some (py "@@ a"));
    mk_file_entry (Some (py "new.py")) (Some (py "old.py")) (Some (py "@@ 1"));
    mk_file_entry None None None;
    mk_file_entry (Some (py "old.py")) None None ].

End FileHistory.

(* ================================================================== *)
(** ** github_api.py: [_extract_added_class_like_symbols] *)
(* ================================================================== *)

Module Symbols.
Import Py DiffUtils.

Section Patterns.
(** [_CLASS_PATTERNS]: each pattern, by what [rx.search(line)] finds:
    [m.group(1)], or nothing. *)
Variable _CLASS_PATTERNS : list (str -> option str).

(** The loop [for rx in _CLASS_PATTERNS], left at the first match. *)
Fixpoint first_match (patterns : list (str -> option str)) (line : str)
  : option str :=
  match patterns with
  | [] => None
  | rx :: rest =>
      match rx line with
      | Some name => Some name
      | None => first_match rest line
      end
  end.

(** One iteration of [for line in block_text.splitlines()]. *)
Definition names_step (names : list str) (line : str) : list str :=
  if negb (startswith line (py "+")) then names
  else
    match first_match _CLASS_PATTERNS line with
    | Some name => names ++ [name]
    | None => names
    end.

Definition added_names (block_text : str) : list str :=
  fold_left names_step (splitlines false block_text) [].

Definition _extract_added_class_like_symbols (block_text : str)
  : list str :=
  let names := added_names block_text in
  let '(uniq, seen) := fold_left uniq_step names ([], []) in
  uniq.

(** The name that an added line declares. *)
Definition declares (line name : str) : Prop :=
  startswith line (py "+") = true
  /\ first_match _CLASS_PATTERNS line = Some name.

(** What a line adds to the names: the name it declares, if it is an
    added line that declares one. *)
Definition declared (line : str) : list str :=
  if startswith line (py "+") then
    match first_match _CLASS_PATTERNS line with
    | Some name => [name]
    | None => []
    end
  else [].

(** The names that the lines of the block declare, from the first
    line to the last one. *)
Definition declared_names (block_text : str) : list str :=
  flat_map declared (splitlines false block_text).

End Patterns.

(** *** A pattern to run examples

    The last pattern of [_CLASS_PATTERNS] (Python: [class Name]), on
    ASCII lines: a [+] at the head of the line, blanks if any, the
    word [class], one blank at least, and the name, which is a letter
    or an underscore followed by word characters, up to a word
    boundary. The blanks cannot be given back, since neither [class]
    nor a name starts with one, and the name is the whole run of word
    characters, at whose end the boundary holds. *)

Definition is_name_start (c : char) : bool :=
  ((65 <=? c) && (c <=? 90) || (97 <=? c) && (c <=? 122) || (c =? 95))%N.

Definition is_word (c : char) : bool :=
  is_name_start c || ((48 <=? c) && (c <=? 57))%N.

(** The longest run of characters of one kind, and what follows it. *)
Fixpoint span (f : char -> bool) (s : str) : str * str :=
  match s with
  | c :: s' =>
      if f c then let '(run, rest) := span f s' in (c :: run, rest)
      else ([], s)
  | [] => ([], [])
  end.

Definition class_pattern (line : str) : option str :=
  match strip_prefix (py "+") line with
  | None => None
  | Some r0 =>
      match strip_prefix (py "class") (snd (span is_space r0)) with
      | None => None
      | Some r1 =>
          match span is_space r1 with
          | (_ :: _, c :: r2) =>
              if is_name_start c then Some (c :: fst (span is_word r2))
              else None
          | _ => None
          end
      end
  end.

(** A block with two added classes, one of them twice. *)
Definition example_added_block : str :=
  py "+class B:" ++ [LF] ++ py "-class C:" ++ [LF]
  ++ py "+  class A(Base):" ++ [LF] ++ py " +class D" ++ [LF]
  ++ py "+x = 1" ++ [LF] ++ py "+class B:" ++ [LF].

End Symbols.

(* ================================================================== *)
(** ** file_history_tab.py: [_unwrap_code_fences] *)
(* ================================================================== *)

Module Fences.
Import Py.

Definition BACKTICK : char := 96%N.

Definition fence : str := py "```".

(** [s.endswith(p)] *)
Definition endswith (s p : str) : bool := startswith (rev s) (rev p).

(** [s.lstrip(chars)] and [s.strip(chars)] *)
Fixpoint lstrip_chars (chars s : str) : str :=
  match s with
  | c :: s' => if existsb (N.eqb c) chars then lstrip_chars chars s' else s
  | [] => []
  end.

Definition strip_chars (chars s : str) : str :=
  rev (lstrip_chars chars (rev (lstrip_chars chars s))).

(** [lines[1:-1]] *)
Definition inner {A} (lines : list A) : list A := removelast (tl lines).

Definition _unwrap_code_fences (s : str) : str :=
  if negb (truthy s) then s
  else
    let text := strip s in
    if startswith text fence && endswith text fence then
      let lines := splitlines false text in
      if 2 <=? List.length lines then join [LF] (inner lines)
      else strip_chars [BACKTICK] text
    else text.

(** A fenced block: the opening fence with its language hint, the
    lines of the body and the closing fence, a line each. *)
Definition fenced (lang : str) (body : list str) : str :=
  join [LF] ((fence ++ lang) :: body ++ [fence]).

(** A text that [splitlines] leaves in one piece. *)
Definition one_line (ln : str) : Prop :=
  forall c, In c ln -> is_linebreak c = false.

End Fences.

(* ================================================================== *)
(** * Properties *)
(* ================================================================== *)

(** ** Strings *)

Module PyFacts.
Import Py.

Lemma str_eqb_eq (a b : str) : str_eqb a b = true <-> a = b.
Proof.
  revert b; induction a as [|x a IH]; intros [|y b]; simpl;
    try (split; congruence).
  rewrite andb_true_iff, N.eqb_eq, IH. split.
  - intros [-> ->]; reflexivity.
  - intros H; inversion H; auto.
Qed.

Lemma str_eqb_refl (a : str) : str_eqb a a = true.
Proof. apply str_eqb_eq; reflexivity. Qed.

Lemma str_eqb_neq (a b : str) : str_eqb a b = false <-> a <> b.
Proof.
  rewrite <- str_eqb_eq. destruct (str_eqb a b); split; congruence.
Qed.

Lemma truthy_false {A} (l : list A) : truthy l = false <-> l = [].
Proof. destruct l; simpl; split; congruence. Qed.

Lemma truthy_true {A} (l : list A) : truthy l = true <-> l <> [].
Proof. destruct l; simpl; split; congruence. Qed.

Lemma strip_prefix_app (p s r : str) :
  strip_prefix p s = Some r <-> s = p ++ r.
Proof.
  revert s; induction p as [|x p IH]; intros s; simpl.
  - split; congruence.
  - destruct s as [|y s]; [split; discriminate|].
    destruct (N.eqb_spec x y) as [->|Hne].
    + rewrite IH. split; [intros ->; reflexivity|congruence].
    + split; [discriminate|]. intros H; inversion H; congruence.
Qed.

Lemma strip_prefix_here (p rest : str) : strip_prefix p (p ++ rest) = Some rest.
Proof. apply strip_prefix_app. reflexivity. Qed.

Lemma splitlines_from_cons (k : bool) (cur : str) (c : char) (s' : str) :
  splitlines_from k cur (c :: s') =
  if is_linebreak c then
    match s' with
    | d :: s'' =>
        if N.eqb c CR && N.eqb d LF
        then (cur ++ (if k then [c; d] else [])) :: splitlines_from k [] s''
        else (cur ++ (if k then [c] else [])) :: splitlines_from k [] s'
    | [] => [cur ++ (if k then [c] else [])]
    end
  else splitlines_from k (cur ++ [c]) s'.
Proof. reflexivity. Qed.

Lemma splitlines_from_nil (k : bool) (cur : str) :
  splitlines_from k cur [] = if truthy cur then [cur] else [].
Proof. reflexivity. Qed.

(** Both facts about [splitlines] go by induction on a bound of the
    length, as CR LF takes two characters at once. *)
Lemma splitlines_from_ind (k : bool) (P : str -> str -> list str -> Prop) :
  (forall cur, P cur [] (if truthy cur then [cur] else [])) ->
  (forall cur c, is_linebreak c = true ->
                 P cur [c] [cur ++ (if k then [c] else [])]) ->
  (forall cur c d s'' r,
      is_linebreak c = true -> N.eqb c CR && N.eqb d LF = true ->
      P [] s'' r ->
      P cur (c :: d :: s'') ((cur ++ (if k then [c; d] else [])) :: r)) ->
  (forall cur c d s'' r,
      is_linebreak c = true -> N.eqb c CR && N.eqb d LF = false ->
      P [] (d :: s'') r ->
      P cur (c :: d :: s'') ((cur ++ (if k then [c] else [])) :: r)) ->
  (forall cur c s' r,
      is_linebreak c = false -> P (cur ++ [c]) s' r -> P cur (c :: s') r) ->
  forall s cur, P cur s (splitlines_from k cur s).
Proof.
  intros Hnil Hlast Hcrlf Hone Hchar s.
  remember (List.length s) as n eqn:Hn.
  assert (Hle : List.length s <= n) by lia. clear Hn.
  revert s Hle.
  induction n as [|n IH]; intros s Hle cur.
  - destruct s; [|simpl in Hle; lia]. apply Hnil.
  - destruct s as [|c s']; [apply Hnil|].
    simpl in Hle. rewrite splitlines_from_cons.
    destruct (is_linebreak c) eqn:Hc.
    + destruct s' as [|d s'']; [apply Hlast, Hc|].
      simpl in Hle.
      destruct (N.eqb c CR && N.eqb d LF) eqn:Hcd.
      * apply Hcrlf; auto. apply IH. lia.
      * apply Hone; auto. apply IH. simpl; lia.
    + apply Hchar; auto. apply IH. lia.
Qed.

(** Lines with their boundaries, put back together, are the text. *)
Lemma splitlines_from_keepends (s cur : str) :
  List.concat (splitlines_from true cur s) = cur ++ s.
Proof.
  revert s cur.
  apply (splitlines_from_ind true
           (fun cur s r => List.concat r = cur ++ s)).
  - intros cur. destruct cur; simpl; rewrite ?app_nil_r; reflexivity.
  - intros cur c _. simpl. rewrite app_nil_r. reflexivity.
  - intros cur c d s'' r _ _ IH. simpl. rewrite IH.
    rewrite <- app_assoc. reflexivity.
  - intros cur c d s'' r _ _ IH. simpl. rewrite IH.
    rewrite <- app_assoc. reflexivity.
  - intros cur c s' r _ IH. rewrite IH, <- app_assoc. reflexivity.
Qed.

Lemma splitlines_keepends_concat (s : str) :
  List.concat (splitlines true s) = s.
Proof. apply (splitlines_from_keepends s []). Qed.

(** No line of [splitlines] with [keepends] is empty. *)
Lemma splitlines_from_nonempty (s cur : str) :
  Forall (fun ln => ln <> []) (splitlines_from true cur s).
Proof.
  revert s cur.
  apply (splitlines_from_ind true
           (fun cur s r => Forall (fun ln : str => ln <> []) r)).
  - intros cur. destruct cur; simpl; constructor; [discriminate|constructor].
  - intros cur c _. constructor; [destruct cur; discriminate|constructor].
  - intros cur c d s'' r _ _ IH. constructor; [destruct cur; discriminate|exact IH].
  - intros cur c d s'' r _ _ IH. constructor; [destruct cur; discriminate|exact IH].
  - intros cur c s' r _ IH. exact IH.
Qed.

End PyFacts.

(** ** diff_utils.py: [chunk_text] *)

Module ChunkFacts.
Import Py DiffUtils PyFacts.

Lemma total_len_app (g h : list str) :
  total_len (g ++ h) = (total_len g + total_len h)%Z.
Proof.
  unfold total_len, len. rewrite concat_app, length_app. lia.
Qed.

Lemma total_len_single (ln : str) : total_len [ln] = len ln.
Proof. unfold total_len; simpl. rewrite app_nil_r. reflexivity. Qed.

Lemma total_len_nonneg (g : list str) : (0 <= total_len g)%Z.
Proof. unfold total_len, len. lia. Qed.

Lemma total_len_member (g : list str) (ln : str) :
  In ln g -> (len ln <= total_len g)%Z.
Proof.
  induction g as [|x g IH]; simpl; [tauto|].
  change (x :: g) with ([x] ++ g). rewrite total_len_app, total_len_single.
  pose proof (total_len_nonneg g). unfold len in *.
  intros [->|Hin]; [lia|]. specialize (IH Hin). lia.
Qed.

Lemma chunk_inv_init (max_chars : Z) : chunk_inv max_chars [] ([], [], 0%Z).
Proof.
  apply (mk_chunk_inv _ _ _ []); simpl; auto.
  intros ln [].
Qed.

Lemma chunk_inv_step (max_chars : Z) (read : list str) (st : chunk_state)
    (ln : str) :
  chunk_inv max_chars read st ->
  chunk_inv max_chars (read ++ [ln]) (chunk_step max_chars st ln).
Proof.
  destruct st as [[parts cur] size].
  intros [gs Hparts Hread Hsize Hne Hal Hcur]; simpl in *.
  destruct ((size + len ln >? max_chars)%Z && truthy cur) eqn:Hflush.
  - apply andb_true_iff in Hflush. destruct Hflush as [_ Hcur_ne].
    apply truthy_true in Hcur_ne.
    apply (mk_chunk_inv _ _ _ (gs ++ [cur])); simpl.
    + rewrite map_app, Hparts. reflexivity.
    + rewrite concat_app; simpl. rewrite app_nil_r, Hread. reflexivity.
    + rewrite total_len_single. reflexivity.
    + apply Forall_app; split; auto.
    + apply Forall_app; split; auto.
    + intros l [<-|[]] _. reflexivity.
  - apply (mk_chunk_inv _ _ _ gs); simpl; auto.
    + rewrite app_assoc, Hread. reflexivity.
    + rewrite total_len_app, total_len_single, Hsize. reflexivity.
    + apply andb_false_iff in Hflush.
      destruct Hflush as [Hfit|Hempty].
      * (* the line fits after a buffer that may hold lines *)
        rewrite Z.gtb_ltb in Hfit. apply Z.ltb_ge in Hfit.
        pose proof (total_len_nonneg cur) as Hc.
        assert (0 <= len ln)%Z as Hl by (unfold len; lia).
        intros l Hin Hlong. apply in_app_or in Hin.
        destruct Hin as [Hin|[<-|[]]].
        -- pose proof (total_len_member _ _ Hin). lia.
        -- lia.
      * apply truthy_false in Hempty. subst cur. simpl.
        intros l [<-|[]] _. reflexivity.
Qed.

Lemma chunk_inv_fold (max_chars : Z) (lines read : list str)
    (st : chunk_state) :
  chunk_inv max_chars read st ->
  chunk_inv max_chars (read ++ lines)
    (fold_left (chunk_step max_chars) lines st).
Proof.
  revert read st; induction lines as [|ln lines IH]; intros read st Hinv.
  - simpl. rewrite app_nil_r. exact Hinv.
  - simpl. change (ln :: lines) with ([ln] ++ lines). rewrite app_assoc.
    apply IH, chunk_inv_step, Hinv.
Qed.

(** The chunks are the lines, cut into consecutive groups. *)
Lemma chunk_lines_groups (lines : list str) (max_chars : Z) :
  exists groups : list (list str),
    List.concat groups = lines
    /\ chunk_lines lines max_chars = List.map (@List.concat char) groups
    /\ Forall (fun g => g <> []) groups
    /\ Forall (long_lines_alone max_chars) groups.
Proof.
  pose proof (chunk_inv_fold max_chars lines [] _ (chunk_inv_init max_chars))
    as Hinv.
  unfold chunk_lines.
  destruct (fold_left (chunk_step max_chars) lines ([], [], 0%Z))
    as [[parts cur] size].
  destruct Hinv as [gs Hparts Hread Hsize Hne Hal Hcur]; simpl in *.
  destruct cur as [|l cur]; simpl.
  - exists gs. rewrite app_nil_r in Hread. auto.
  - exists (gs ++ [l :: cur]). repeat split.
    + rewrite concat_app; simpl. rewrite app_nil_r. exact Hread.
    + rewrite map_app, Hparts. reflexivity.
    + apply Forall_app; split; auto. constructor; [discriminate|constructor].
    + apply Forall_app; split; auto.
Qed.

(** The same for any budget, negative ones included. *)
Lemma chunk_text_any_budget (s : str) (max_chars : Z) :
  exists groups : list (list str),
    List.concat groups = splitlines true s
    /\ chunk_text s max_chars = List.map (@List.concat char) groups
    /\ Forall (fun g => g <> []) groups
    /\ Forall (long_lines_alone max_chars) groups
    /\ List.concat (chunk_text s max_chars) = s.
Proof.
  destruct (chunk_lines_groups (splitlines true s) max_chars)
    as (gs & Hcat & Hchunks & Hne & Hal).
  exists gs. repeat split; auto.
  unfold chunk_text in *. rewrite Hchunks.
  transitivity (List.concat (splitlines true s));
    [|apply splitlines_keepends_concat].
  rewrite <- Hcat.
  clear. induction gs as [|g gs IH]; simpl; [reflexivity|].
  rewrite concat_app, IH. reflexivity.
Qed.

(** C1. For every text [s] and every [max_chars >= 1], the chunks of
    [chunk_text s max_chars] are the lines of [s] (each with its line
    boundary) cut into consecutive groups and joined group by group,
    so that no line is split between two chunks; a line longer than
    [max_chars] is the only line of its chunk; and the chunks put
    together are [s]. *)
Theorem chunk_text_whole_lines (s : str) (max_chars : Z) :
  (1 <= max_chars)%Z ->
  exists groups : list (list str),
    List.concat groups = splitlines true s
    /\ chunk_text s max_chars = List.map (@List.concat char) groups
    /\ Forall (fun g => g <> []) groups
    /\ (forall g ln, In g groups -> In ln g ->
                     (max_chars < len ln)%Z -> g = [ln])
    /\ List.concat (chunk_text s max_chars) = s.
Proof.
  intros _.
  destruct (chunk_text_any_budget s max_chars)
    as (gs & Hcat & Hchunks & Hne & Hal & Hs).
  exists gs. repeat split; auto.
  intros g ln Hg. rewrite Forall_forall in Hal. exact (Hal g Hg ln).
Qed.

Lemma chunk_text_whole_lines_witness :
  (1 <= 4)%Z
  /\ chunk_text (py "ab" ++ [LF] ++ py "cdefgh" ++ [LF] ++ py "i" ++ [LF] ++ py "j") 4
     = [py "ab" ++ [LF]; py "cdefgh" ++ [LF]; py "i" ++ [LF] ++ py "j"]
  /\ exists groups : list (list str),
       List.concat groups
       = splitlines true (py "ab" ++ [LF] ++ py "cdefgh" ++ [LF] ++ py "i" ++ [LF] ++ py "j")
       /\ chunk_text (py "ab" ++ [LF] ++ py "cdefgh" ++ [LF] ++ py "i" ++ [LF] ++ py "j") 4
          = List.map (@List.concat char) groups
       /\ Forall (fun g => g <> []) groups
       /\ (forall g ln, In g groups -> In ln g -> (4 < len ln)%Z -> g = [ln])
       /\ List.concat (chunk_text (py "ab" ++ [LF] ++ py "cdefgh" ++ [LF] ++ py "i" ++ [LF] ++ py "j") 4)
          = py "ab" ++ [LF] ++ py "cdefgh" ++ [LF] ++ py "i" ++ [LF] ++ py "j".
Proof.
  split; [lia|]. split; [reflexivity|].
  apply (chunk_text_whole_lines _ 4). lia.
Defined.

(** No chunk is empty. *)
Lemma chunk_text_nonempty_chunks (s : str) (max_chars : Z) :
  Forall (fun c => c <> []) (chunk_text s max_chars).
Proof.
  destruct (chunk_lines_groups (splitlines true s) max_chars)
    as (gs & Hcat & Hchunks & Hne & _).
  unfold chunk_text. rewrite Hchunks.
  pose proof (splitlines_from_nonempty s []) as Hlines.
  fold (splitlines true s) in Hlines. rewrite <- Hcat in Hlines.
  clear Hcat Hchunks.
  induction gs as [|g gs IH]; simpl; constructor.
  - inversion Hne as [|? ? Hg _]; subst.
    simpl in Hlines. apply Forall_app in Hlines. destruct Hlines as [Hl _].
    destruct g as [|l g]; [congruence|].
    inversion Hl as [|? ? Hll _]; subst. simpl.
    destruct l; [congruence|discriminate].
  - apply IH.
    + inversion Hne; auto.
    + simpl in Hlines. apply Forall_app in Hlines. tauto.
Qed.

(** The scenario of 300 lines of 100 characters with a budget of
    12000: three chunks, of 120, 120 and 60 lines. *)
Example chunk_text_three_chunks :
  List.map len
    (chunk_text (List.concat (repeat (repeat 97%N 99 ++ [LF]) 300))
                default_max_chars)
  = [12000; 12000; 6000]%Z.
Proof. vm_compute. reflexivity. Qed.

End ChunkFacts.

(** ** diff_utils.py: [FILE_HEADER_RE] *)

Module HeaderFacts.
Import Py DiffUtils PyFacts.

Lemma dot_run_split (r : str) :
  exists rest, r = dot_run r ++ rest /\ ends_line rest /\ ~ In LF (dot_run r).
Proof.
  induction r as [|c r IH]; simpl.
  - exists []. split; [reflexivity|]. split; [left; reflexivity|tauto].
  - destruct (N.eqb_spec c LF) as [->|Hne].
    + exists (LF :: r). split; [reflexivity|].
      split; [right; eexists; reflexivity|simpl; tauto].
    + destruct IH as (rest & Hr & Hend & Hnl).
      exists rest. split; [simpl; congruence|]. split; [exact Hend|].
      simpl. intros [H|H]; [congruence|tauto].
Qed.

Lemma match_b_sound (r b : str) :
  match_b r = Some b ->
  exists rest, r = b ++ rest /\ b <> [] /\ ~ In LF b /\ ends_line rest.
Proof.
  unfold match_b. destruct (truthy (dot_run r)) eqn:E; [|discriminate].
  intros [= <-]. destruct (dot_run_split r) as (rest & Hr & Hend & Hnl).
  exists rest. apply truthy_true in E. auto.
Qed.

Lemma match_sep_b_sound (r b : str) :
  match_sep_b r = Some b ->
  exists rest,
    r = header_sep ++ b ++ rest /\ b <> [] /\ ~ In LF b /\ ends_line rest.
Proof.
  unfold match_sep_b.
  destruct (strip_prefix header_sep r) as [r2|] eqn:E; [|discriminate].
  apply strip_prefix_app in E. intros Hb.
  destruct (match_b_sound _ _ Hb) as (rest & -> & H).
  exists rest. split; [exact E|exact H].
Qed.

Lemma match_a_sep_b_sound (r : str) :
  forall a0 a b,
    match_a_sep_b a0 r = Some (a, b) ->
    exists a1 rest,
      a = a0 ++ a1 /\ r = a1 ++ header_sep ++ b ++ rest
      /\ a <> [] /\ b <> [] /\ ~ In LF a1 /\ ~ In LF b /\ ends_line rest.
Proof.
  induction r as [|c r IH]; intros a0 a b; simpl; [discriminate|].
  destruct (N.eqb_spec c LF) as [->|Hne]; [discriminate|].
  destruct (match_a_sep_b (a0 ++ [c]) r) as [[a' b']|] eqn:Hrec.
  - intros [= -> ->].
    destruct (IH _ _ _ Hrec) as (a1 & rest & Ha & Hr & Hane & Hbne & Hnl & H).
    exists (c :: a1), rest.
    split; [rewrite Ha, <- app_assoc; reflexivity|].
    split; [simpl; f_equal; exact Hr|].
    split; [exact Hane|]. split; [exact Hbne|].
    split; [|exact H]. simpl. intros [E|E]; [congruence|tauto].
  - destruct (truthy a0) eqn:Ha0; [|discriminate].
    destruct (match_sep_b (c :: r)) as [b'|] eqn:Hsep; [|discriminate].
    intros [= <- <-].
    destruct (match_sep_b_sound _ _ Hsep) as (rest & Hr & Hbne & Hnl & Hend).
    exists [], rest. rewrite app_nil_r. simpl.
    apply truthy_true in Ha0. auto 10.
Qed.

Lemma match_header_sound (s a b : str) :
  match_header s = Some (a, b) ->
  exists rest,
    s = header_prefix ++ a ++ header_sep ++ b ++ rest
    /\ a <> [] /\ b <> [] /\ ~ In LF a /\ ~ In LF b /\ ends_line rest.
Proof.
  unfold match_header.
  destruct (strip_prefix header_prefix s) as [r|] eqn:E; [|discriminate].
  apply strip_prefix_app in E. intros Hm.
  destruct (match_a_sep_b_sound _ _ _ _ Hm)
    as (a1 & rest & Ha & Hr & Hane & Hbne & Hnl & Hnlb & Hend).
  simpl in Ha. subst a1. exists rest. rewrite E, Hr. auto 10.
Qed.

(** Every match of [finditer] is a header line of the text. *)
Lemma finditer_from_sound (s : str) :
  forall pre skip bol m,
    (bol = true -> starts_line pre) ->
    In m (finditer_from skip (List.length pre) bol s) ->
    is_header_at (pre ++ s) (m_start m) (m_a m) (m_b m).
Proof.
  induction s as [|c s IH]; intros pre skip bol m Hbol; simpl; [tauto|].
  assert (Hnext : forall k,
             In m (finditer_from k (S (List.length pre)) (N.eqb c LF) s) ->
             is_header_at (pre ++ c :: s) (m_start m) (m_a m) (m_b m)).
  { intros k Hin.
    replace (pre ++ c :: s) with ((pre ++ [c]) ++ s)
      by (rewrite <- app_assoc; reflexivity).
    apply (IH (pre ++ [c]) k (N.eqb c LF)).
    - intros Hc. apply N.eqb_eq in Hc. subst c. right. exists pre. reflexivity.
    - rewrite length_app. simpl. rewrite Nat.add_1_r. exact Hin. }
  destruct skip as [|k]; [|apply Hnext].
  destruct bol; [|apply Hnext].
  destruct (match_header (c :: s)) as [[a b]|] eqn:Hm; [|apply Hnext].
  intros [<-|Hin]; [|exact (Hnext _ Hin)].
  simpl. destruct (match_header_sound _ _ _ Hm) as (rest & Hs & H).
  exists pre, rest. rewrite Hs. auto 10.
Qed.

Lemma finditer_sound (D : str) (m : header_match) :
  In m (FILE_HEADER_RE_finditer D) ->
  is_header_at D (m_start m) (m_a m) (m_b m).
Proof.
  intros Hin.
  apply (finditer_from_sound D [] 0 true m); [left; reflexivity|exact Hin].
Qed.

(** *** The search misses no header line *)

Lemma dot_run_app (b rest : str) :
  ~ In LF b -> ends_line rest -> dot_run (b ++ rest) = b.
Proof.
  intros Hnl Hend. induction b as [|c b IH]; simpl.
  - destruct Hend as [->|(r & ->)]; reflexivity.
  - destruct (N.eqb_spec c LF) as [->|Hne]; [simpl in Hnl; tauto|].
    rewrite IH; [reflexivity|]. simpl in Hnl. tauto.
Qed.

(** A text has one first line. *)
Lemma line_unique (x : str) :
  forall y rest rest',
    x ++ rest = y ++ rest' ->
    ~ In LF x -> ~ In LF y -> ends_line rest -> ends_line rest' ->
    x = y /\ rest = rest'.
Proof.
  induction x as [|c x IH]; intros y rest rest' E Hx Hy Hr Hr'.
  - destruct y as [|d y]; [split; [reflexivity|exact E]|].
    simpl in E. exfalso.
    destruct Hr as [->|(r & ->)]; [discriminate|].
    injection E as <- _. simpl in Hy. tauto.
  - destruct y as [|d y].
    + simpl in E. exfalso.
      destruct Hr' as [->|(r & ->)]; [discriminate|].
      injection E as -> _. simpl in Hx. tauto.
    + simpl in E. injection E as -> E.
      destruct (IH y rest rest' E) as [-> ->]; simpl in *; tauto.
Qed.

Lemma header_sep_no_LF : ~ In LF header_sep.
Proof. vm_compute. intros H. repeat (destruct H as [H|H]; [discriminate H|]). exact H. Qed.

Lemma header_prefix_no_LF : ~ In LF header_prefix.
Proof. vm_compute. intros H. repeat (destruct H as [H|H]; [discriminate H|]). exact H. Qed.

Lemma not_in_app {A} (x : A) (l l' : list A) :
  ~ In x l -> ~ In x l' -> ~ In x (l ++ l').
Proof. rewrite in_app_iff. tauto. Qed.

Lemma match_sep_b_here (b rest : str) :
  b <> [] -> ~ In LF b -> ends_line rest ->
  match_sep_b (header_sep ++ b ++ rest) = Some b.
Proof.
  intros Hb Hnl Hend. unfold match_sep_b.
  rewrite strip_prefix_here. unfold match_b.
  rewrite (dot_run_app b rest Hnl Hend).
  apply truthy_true in Hb. rewrite Hb. reflexivity.
Qed.

Lemma match_a_sep_b_cons (a : str) (c : char) (r : str) :
  c <> LF ->
  match_a_sep_b a (c :: r)
  = match match_a_sep_b (a ++ [c]) r with
    | Some ab => Some ab
    | None =>
        if truthy a then
          match match_sep_b (c :: r) with
          | Some b => Some (a, b)
          | None => None
          end
        else None
    end.
Proof.
  intros Hne. simpl. destruct (N.eqb_spec c LF); [contradiction|reflexivity].
Qed.

(** If the line can be read as [<a1> b/<b>], the search finds a
    reading of the same line, with an [<a>] at least as long. *)
Lemma match_a_sep_b_complete (a1 : str) :
  forall a0 b rest,
    a0 ++ a1 <> [] -> b <> [] -> ~ In LF a1 -> ~ In LF b -> ends_line rest ->
    exists a' b',
      match_a_sep_b a0 (a1 ++ header_sep ++ b ++ rest) = Some (a', b')
      /\ a' ++ header_sep ++ b' = (a0 ++ a1) ++ header_sep ++ b
      /\ List.length (a0 ++ a1) <= List.length a'.
Proof.
  induction a1 as [|c a1 IH]; intros a0 b rest Ha Hb Hnla Hnlb Hend.
  - rewrite app_nil_r in *. rewrite app_nil_l.
    assert (Hsep : header_sep ++ b ++ rest = 32%N :: (py "b/" ++ b ++ rest))
      by reflexivity.
    remember (py "b/" ++ b ++ rest) as r' eqn:Er'.
    rewrite Hsep, match_a_sep_b_cons by discriminate.
    destruct (match_a_sep_b _ r') as [[a' b']|] eqn:Hrec.
    + destruct (match_a_sep_b_sound _ _ _ _ Hrec)
        as (a2 & rest2 & Ha' & Hr & _ & _ & Hnl2 & Hnlb' & Hend2).
      exists a', b'. split; [reflexivity|].
      assert (Hline : [32%N] ++ a2 ++ header_sep ++ b' = header_sep ++ b).
      { apply (line_unique _ _ rest2 rest).
        - rewrite <- !app_assoc. rewrite Hsep, Hr. reflexivity.
        - repeat apply not_in_app; auto using header_sep_no_LF.
          simpl. intros [H|[]]; discriminate.
        - apply not_in_app; auto using header_sep_no_LF.
        - exact Hend2.
        - exact Hend. }
      split.
      * rewrite Ha', <- !app_assoc. f_equal. exact Hline.
      * rewrite Ha', !length_app. lia.
    + apply truthy_true in Ha. rewrite Ha. subst r'.
      change (match_sep_b _) with (match_sep_b (header_sep ++ b ++ rest)).
      rewrite (match_sep_b_here b rest Hb Hnlb Hend).
      exists a0, b. split; [reflexivity|]. split; [reflexivity|lia].
  - assert (Hc : c <> LF) by (simpl in Hnla; intros ->; tauto).
    assert (Hne : (a0 ++ [c]) ++ a1 <> []) by (destruct a0; discriminate).
    assert (Hnla' : ~ In LF a1) by (simpl in Hnla; tauto).
    destruct (IH (a0 ++ [c]) b rest Hne Hb Hnla' Hnlb Hend)
      as (a' & b' & Hm & Hline & Hlen).
    exists a', b'.
    change ((c :: a1) ++ header_sep ++ b ++ rest)
      with (c :: (a1 ++ header_sep ++ b ++ rest)).
    rewrite match_a_sep_b_cons by exact Hc. rewrite Hm.
    replace (a0 ++ c :: a1) with ((a0 ++ [c]) ++ a1)
      by (rewrite <- app_assoc; reflexivity).
    split; [reflexivity|]. split; [exact Hline|exact Hlen].
Qed.

Lemma match_header_complete (a b rest : str) :
  a <> [] -> b <> [] -> ~ In LF a -> ~ In LF b -> ends_line rest ->
  exists a' b',
    match_header (header_prefix ++ a ++ header_sep ++ b ++ rest)
    = Some (a', b')
    /\ a' ++ header_sep ++ b' = a ++ header_sep ++ b
    /\ List.length a <= List.length a'.
Proof.
  intros Ha Hb Hnla Hnlb Hend. unfold match_header.
  rewrite strip_prefix_here.
  apply (match_a_sep_b_complete a [] b rest); auto.
Qed.

Lemma dot_run_cons_length (c : char) (s : str) (n : nat) :
  S n <= List.length (dot_run (c :: s)) ->
  c <> LF /\ n <= List.length (dot_run s).
Proof.
  simpl. destruct (N.eqb_spec c LF) as [->|Hne]; simpl; [lia|].
  split; [exact Hne|lia].
Qed.

(** The characters of a match hold no LF. *)
Lemma match_header_run (c : char) (s a b : str) :
  match_header (c :: s) = Some (a, b) ->
  c <> LF /\ pred (match_length a b) <= List.length (dot_run s).
Proof.
  intros Hm. destruct (match_header_sound _ _ _ Hm)
    as (rest & Hs & _ & _ & Hnla & Hnlb & Hend).
  assert (Hrun : dot_run (c :: s)
                 = header_prefix ++ a ++ header_sep ++ b).
  { rewrite Hs.
    replace (header_prefix ++ a ++ header_sep ++ b ++ rest)
      with ((header_prefix ++ a ++ header_sep ++ b) ++ rest)
      by (rewrite <- !app_assoc; reflexivity).
    apply dot_run_app; [|exact Hend].
    repeat apply not_in_app;
      auto using header_sep_no_LF, header_prefix_no_LF. }
  assert (Hlen : List.length (dot_run (c :: s)) = match_length a b).
  { rewrite Hrun. unfold match_length. rewrite !length_app. lia. }
  simpl in Hlen. destruct (N.eqb_spec c LF) as [->|Hne].
  - exfalso. unfold match_length in Hlen. simpl in Hlen. lia.
  - split; [exact Hne|]. simpl in Hlen. lia.
Qed.

Lemma starts_line_snoc (pre : str) (c : char) :
  starts_line (pre ++ [c]) <-> c = LF.
Proof.
  unfold starts_line. split.
  - intros [H|(p & H)]; [destruct pre; discriminate|].
    apply app_inj_tail in H. tauto.
  - intros ->. right. exists pre. reflexivity.
Qed.

Lemma finditer_from_complete (mid : str) :
  forall pre skip bol s a b rest,
    (bol = true <-> starts_line pre) ->
    (0 < skip -> bol = false) ->
    skip <= List.length (dot_run s) ->
    s = mid ++ header_prefix ++ a ++ header_sep ++ b ++ rest ->
    starts_line (pre ++ mid) ->
    a <> [] -> b <> [] -> ~ In LF a -> ~ In LF b -> ends_line rest ->
    exists m,
      In m (finditer_from skip (List.length pre) bol s)
      /\ m_start m = List.length (pre ++ mid)
      /\ m_a m ++ header_sep ++ m_b m = a ++ header_sep ++ b
      /\ List.length a <= List.length (m_a m).
Proof.
  induction mid as [|c mid IH];
    intros pre skip bol s a b rest Hbol Hskip Hrun Hs Hstart Ha Hb Hnla Hnlb Hend.
  - rewrite app_nil_r in *. rewrite app_nil_l in Hs.
    apply Hbol in Hstart. subst bol.
    destruct skip as [|k]; [|specialize (Hskip (Nat.lt_0_succ k)); discriminate].
    destruct (match_header_complete a b rest Ha Hb Hnla Hnlb Hend)
      as (a' & b' & Hm & Hline & Hlen).
    rewrite <- Hs in Hm.
    destruct s as [|c s']; [discriminate Hs|].
    simpl finditer_from. rewrite Hm.
    exists (mk_header_match (List.length pre) a' b').
    split; [left; reflexivity|]. simpl. auto.
  - rewrite <- app_comm_cons in Hs. subst s.
    set (s' := mid ++ header_prefix ++ a ++ header_sep ++ b ++ rest) in *.
    assert (Hnext : forall k,
               (0 < k -> c <> LF) ->
               k <= List.length (dot_run s') ->
               exists m,
                 In m (finditer_from k (S (List.length pre)) (N.eqb c LF) s')
                 /\ m_start m = List.length (pre ++ c :: mid)
                 /\ m_a m ++ header_sep ++ m_b m = a ++ header_sep ++ b
                 /\ List.length a <= List.length (m_a m)).
    { intros k Hk Hkrun.
      destruct (IH (pre ++ [c]) k (N.eqb c LF) s' a b rest) as (m & Hin & Hm);
        auto.
      - rewrite starts_line_snoc. apply N.eqb_eq.
      - intros Hpos. apply N.eqb_neq. auto.
      - rewrite <- app_assoc. exact Hstart.
      - exists m. rewrite length_app, Nat.add_1_r in Hin.
        rewrite <- app_assoc in Hm. auto. }
    simpl finditer_from.
    destruct skip as [|k].
    + destruct bol.
      * destruct (match_header (c :: s')) as [[a' b']|] eqn:Hm.
        -- destruct (match_header_run _ _ _ _ Hm) as [Hc Hlen].
           destruct (Hnext (pred (match_length a' b')) (fun _ => Hc) Hlen)
             as (m & Hin & H).
           exists m. split; [right; exact Hin|exact H].
        -- apply Hnext; [lia|lia].
      * apply Hnext; [lia|lia].
    + destruct (dot_run_cons_length _ _ _ Hrun) as [Hc Hk].
      apply Hnext; auto.
Qed.

(** Every header line of the text is found, at its offset. *)
Lemma finditer_complete (D : str) (start : nat) (a b : str) :
  is_header_at D start a b ->
  exists m,
    In m (FILE_HEADER_RE_finditer D)
    /\ m_start m = start
    /\ m_a m ++ header_sep ++ m_b m = a ++ header_sep ++ b
    /\ List.length a <= List.length (m_a m).
Proof.
  intros (before & rest & HD & Hlen & Hstart & Ha & Hb & Hnla & Hnlb & Hend).
  destruct (finditer_from_complete before [] 0 true D a b rest)
    as (m & Hin & Hm & H); auto.
  - split; [left; reflexivity|reflexivity].
  - lia.
  - lia.
  - exists m. simpl in Hm. rewrite Hlen in Hm. auto.
Qed.

(** *** Paths read without ambiguity *)

Lemma contains_app (u needle v : str) : contains (u ++ needle ++ v) needle = true.
Proof.
  induction u as [|c u IH].
  - destruct (needle ++ v) eqn:E; simpl;
      unfold startswith; rewrite <- E, strip_prefix_here; reflexivity.
  - simpl. rewrite IH. apply orb_true_r.
Qed.

Lemma app_eq_longer {A} (a a' t t' : list A) :
  a' ++ t' = a ++ t -> List.length a <= List.length a' ->
  exists x, a' = a ++ x /\ x ++ t' = t.
Proof.
  revert a'; induction a as [|c a IH]; intros a' E Hlen.
  - exists a'. split; [reflexivity|exact E].
  - destruct a' as [|d a']; [simpl in Hlen; lia|].
    simpl in E. injection E as -> E. simpl in Hlen.
    destruct (IH a' E) as (x & -> & Hx); [lia|].
    exists x. split; [reflexivity|exact Hx].
Qed.

(** When [ b/] does not occur in the target path, the line has one
    reading. *)
Lemma header_reading_unique (a b a' b' : str) :
  a' ++ header_sep ++ b' = a ++ header_sep ++ b ->
  List.length a <= List.length a' ->
  contains b header_sep = false ->
  a' = a /\ b' = b.
Proof.
  intros E Hlen Hno.
  destruct (app_eq_longer _ _ _ _ E Hlen) as (x & -> & Hx).
  destruct x as [|c1 [|c2 [|c3 x]]].
  - rewrite app_nil_r. split; [reflexivity|].
    apply (app_inv_head header_sep). exact Hx.
  - discriminate Hx.
  - discriminate Hx.
  - exfalso. injection Hx as _ _ _ Hb.
    assert (Hyes : contains b header_sep = true).
    { rewrite <- Hb. apply (contains_app x header_sep b'). }
    congruence.
Qed.

End HeaderFacts.

(** ** diff_utils.py: [extract_changed_files] *)

Module ChangedFilesFacts.
Import Py DiffUtils PyFacts.

Lemma mem_In (f : str) (seen : list str) : mem f seen = true <-> In f seen.
Proof.
  unfold mem. rewrite existsb_exists. split.
  - intros (x & Hin & Heq). apply str_eqb_eq in Heq. subst. exact Hin.
  - intros Hin. exists f. split; [exact Hin|apply str_eqb_refl].
Qed.

Lemma first_index_bound (x : str) (l : list str) (i : nat) :
  first_index x l = Some i -> i < List.length l.
Proof.
  revert i; induction l as [|y l IH]; simpl; intros i; [discriminate|].
  destruct (str_eqb x y).
  - intros [= <-]. lia.
  - destruct (first_index x l) as [k|]; simpl; [|discriminate].
    intros [= <-]. specialize (IH k eq_refl). lia.
Qed.

Lemma first_index_In (x : str) (l : list str) :
  In x l -> exists i, first_index x l = Some i.
Proof.
  induction l as [|y l IH]; simpl; [tauto|].
  destruct (str_eqb x y) eqn:E; [eexists; reflexivity|].
  apply str_eqb_neq in E.
  intros [->|Hin]; [congruence|].
  destruct (IH Hin) as [i ->]. eexists; reflexivity.
Qed.

Lemma first_index_app_l (x : str) (l l' : list str) (i : nat) :
  first_index x l = Some i -> first_index x (l ++ l') = Some i.
Proof.
  revert i; induction l as [|y l IH]; simpl; intros i; [discriminate|].
  destruct (str_eqb x y); [auto|].
  destruct (first_index x l) as [k|]; simpl; [|discriminate].
  intros [= <-]. rewrite (IH k eq_refl). reflexivity.
Qed.

Lemma first_index_fresh (x : str) (l : list str) :
  ~ In x l -> first_index x (l ++ [x]) = Some (List.length l).
Proof.
  induction l as [|y l IH]; simpl; intros Hnin.
  - rewrite str_eqb_refl. reflexivity.
  - destruct (str_eqb x y) eqn:E.
    + apply str_eqb_eq in E. subst. tauto.
    + rewrite IH by tauto. reflexivity.
Qed.

Lemma uniq_inv_init : uniq_inv [] ([], []).
Proof.
  unfold uniq_inv; simpl.
  refine (conj _ (conj (NoDup_nil _) (conj _ _))); try tauto.
  intros i j p q Hi. destruct i; discriminate.
Qed.

Lemma uniq_inv_step (read : list str) (st : list str * list str) (f : str) :
  uniq_inv read st -> uniq_inv (read ++ [f]) (uniq_step st f).
Proof.
  destruct st as [uniq seen]. unfold uniq_inv, uniq_step; simpl.
  intros (Hseen & Hnd & Hread & Hord).
  destruct (mem f seen) eqn:Hmem; simpl.
  - (* a path met before *)
    apply mem_In in Hmem.
    refine (conj Hseen (conj Hnd (conj _ _))).
    + intros x. rewrite in_app_iff, Hread. simpl.
      split; [tauto|]. intros [Hin|[<-|[]]]; [exact Hin|].
      apply Hread, Hseen, Hmem.
    + intros i j p q Hi Hj Hlt.
      destruct (Hord i j p q Hi Hj Hlt) as (i' & j' & Hp & Hq & Hlt').
      exists i', j'. auto using first_index_app_l.
  - (* a new path goes last *)
    assert (Hfresh : ~ In f uniq).
    { intros Hin. apply Hseen, mem_In in Hin. congruence. }
    assert (Hfresh' : ~ In f read) by (rewrite <- Hread; exact Hfresh).
    refine (conj _ (conj _ (conj _ _))).
    + intros x. rewrite in_app_iff, <- Hseen. simpl. tauto.
    + apply NoDup_app; [exact Hnd|repeat constructor; simpl; tauto|].
      intros x Hx [<-|[]]. exact (Hfresh Hx).
    + intros x. rewrite !in_app_iff, Hread. tauto.
    + intros i j p q Hi Hj Hlt.
      assert (Hj' : j < List.length (uniq ++ [f])).
      { apply nth_error_Some. congruence. }
      rewrite length_app in Hj'; simpl in Hj'.
      assert (Hi' : nth_error uniq i = Some p).
      { rewrite nth_error_app1 in Hi by lia. exact Hi. }
      destruct (Nat.eq_dec j (List.length uniq)) as [->|Hne].
      * rewrite nth_error_app2, Nat.sub_diag in Hj by lia.
        simpl in Hj. injection Hj as <-.
        apply nth_error_In, Hread, first_index_In in Hi'.
        destruct Hi' as [i' Hp].
        exists i', (List.length read). split; [|split].
        -- apply first_index_app_l, Hp.
        -- apply first_index_fresh, Hfresh'.
        -- apply (first_index_bound _ _ _ Hp).
      * rewrite nth_error_app1 in Hj by lia.
        destruct (Hord i j p q Hi' Hj Hlt) as (i' & j' & Hp & Hq & Hlt').
        exists i', j'. auto using first_index_app_l.
Qed.

Lemma uniq_inv_fold (files read : list str) (st : list str * list str) :
  uniq_inv read st ->
  uniq_inv (read ++ files) (fold_left uniq_step files st).
Proof.
  revert read st; induction files as [|f files IH]; intros read st Hinv.
  - simpl. rewrite app_nil_r. exact Hinv.
  - simpl. change (f :: files) with ([f] ++ files). rewrite app_assoc.
    apply IH, uniq_inv_step, Hinv.
Qed.

(** C5. For every diff text [D], [extract_changed_files D] holds the
    target paths of the headers of [D] (the [<B>] that
    [FILE_HEADER_RE] takes from each line [diff --git a/<A> b/<B>]):
    each of them once; every one of them is the [<B>] of a header line
    of [D]; every header line of [D] has its [<B>] in the list (the
    [<B>] of the line itself when [ b/] does not occur in it, the one
    of the greedy reading of the line otherwise); and they come in the
    order in which they first appear in [D]. *)
Theorem extract_changed_files_first_appearance (D : str) :
  NoDup (extract_changed_files D)
  /\ (forall p, In p (extract_changed_files D) <-> In p (header_targets D))
  /\ (forall p, In p (extract_changed_files D) ->
                exists start a, is_header_at D start a p)
  /\ (forall start a b,
        is_header_at D start a b ->
        exists a' b',
          a' ++ header_sep ++ b' = a ++ header_sep ++ b
          /\ In b' (extract_changed_files D)
          /\ (contains b header_sep = false -> b' = b))
  /\ (forall i j p q,
        nth_error (extract_changed_files D) i = Some p ->
        nth_error (extract_changed_files D) j = Some q ->
        i < j ->
        exists i' j',
          first_index p (header_targets D) = Some i'
          /\ first_index q (header_targets D) = Some j'
          /\ i' < j').
Proof.
  pose proof (uniq_inv_fold (header_targets D) [] _ uniq_inv_init) as Hinv.
  unfold extract_changed_files. fold (header_targets D).
  simpl in Hinv.
  destruct (fold_left uniq_step (header_targets D) ([], [])) as [uniq seen].
  destruct Hinv as (_ & Hnd & Hread & Hord). simpl in *.
  split; [exact Hnd|]. split; [exact Hread|].
  split; [|split; [|exact Hord]].
  - intros p Hp. apply Hread in Hp. unfold header_targets in Hp.
    apply in_map_iff in Hp. destruct Hp as (m & <- & Hm).
    exists (m_start m), (m_a m). apply HeaderFacts.finditer_sound, Hm.
  - intros start a b Hhdr.
    destruct (HeaderFacts.finditer_complete D start a b Hhdr)
      as (m & Hin & _ & Hline & Hlen).
    exists (m_a m), (m_b m). split; [exact Hline|]. split.
    + apply Hread. unfold header_targets. apply in_map, Hin.
    + intros Hno.
      apply (HeaderFacts.header_reading_unique a b _ _ Hline Hlen Hno).
Qed.

End ChangedFilesFacts.

(** ** github_api.py: the file blocks *)

Module BlockFacts.
Import Py Exc DiffUtils GithubApi PyFacts HeaderFacts.

(** The matches of [finditer] start inside the text, each one after
    the one before. *)
Lemma finditer_from_starts (s : str) :
  forall skip pos bol,
    StronglySorted lt (List.map m_start (finditer_from skip pos bol s))
    /\ Forall (fun i => pos <= i < pos + List.length s)
              (List.map m_start (finditer_from skip pos bol s)).
Proof.
  induction s as [|c s IH]; intros skip pos bol; simpl.
  - split; constructor.
  - assert (Hnext : forall k,
      StronglySorted lt
        (List.map m_start (finditer_from k (S pos) (N.eqb c LF) s))
      /\ Forall (fun i => pos < i < pos + S (List.length s))
           (List.map m_start (finditer_from k (S pos) (N.eqb c LF) s))).
    { intros k. destruct (IH k (S pos) (N.eqb c LF)) as [Hs Hb].
      split; [exact Hs|]. eapply Forall_impl; [|exact Hb].
      simpl; intros; lia. }
    assert (Hweak : forall k,
      Forall (fun i => pos <= i < pos + S (List.length s))
        (List.map m_start (finditer_from k (S pos) (N.eqb c LF) s))).
    { intros k. eapply Forall_impl; [|apply (Hnext k)]. simpl; intros; lia. }
    destruct skip as [|k]; [|split; [apply Hnext|apply Hweak]].
    destruct bol; [|split; [apply Hnext|apply Hweak]].
    destruct (match_header (c :: s)) as [[a b]|];
      [|split; [apply Hnext|apply Hweak]].
    simpl. split.
    + constructor; [apply Hnext|].
      eapply Forall_impl; [|apply (Hnext (pred (match_length a b)))].
      simpl; intros; lia.
    + constructor; [lia|apply Hweak].
Qed.

Lemma header_starts_sorted (D : str) :
  StronglySorted lt (header_starts D)
  /\ Forall (fun i => i < List.length D) (header_starts D).
Proof.
  destruct (finditer_from_starts D 0 0 true) as [Hs Hb].
  split; [exact Hs|]. eapply Forall_impl; [|exact Hb]. simpl; intros; lia.
Qed.

Lemma firstn_add {A} (a b : nat) (t : list A) :
  firstn (a + b) t = firstn a t ++ firstn b (skipn a t).
Proof.
  revert t; induction a as [|a IH]; intros t; simpl; [reflexivity|].
  destruct t as [|x t]; simpl.
  - rewrite firstn_nil. reflexivity.
  - rewrite IH. reflexivity.
Qed.

Lemma skipn_add {A} (a b : nat) (t : list A) :
  skipn (a + b) t = skipn b (skipn a t).
Proof.
  revert t; induction a as [|a IH]; intros t; simpl; [reflexivity|].
  destruct t as [|x t]; simpl; [rewrite skipn_nil; reflexivity|apply IH].
Qed.

Lemma slice_app (s : str) (i j k : nat) :
  i <= j -> j <= k -> slice s i j ++ slice s j k = slice s i k.
Proof.
  intros Hij Hjk. unfold slice.
  replace (k - i) with ((j - i) + (k - j)) by lia.
  rewrite firstn_add, <- skipn_add.
  replace (i + (j - i)) with j by lia. reflexivity.
Qed.

Lemma slice_to_end (s : str) (i : nat) :
  slice s i (List.length s) = skipn i s.
Proof.
  unfold slice. apply firstn_all2. rewrite length_skipn. lia.
Qed.

Lemma last_In {A} (l : list A) (d : A) : l <> [] -> In (last l d) l.
Proof.
  induction l as [|x [|y l] IH]; intros Hne; [congruence|left; reflexivity|].
  right. apply IH. discriminate.
Qed.

Lemma last_default {A} (l : list A) (d d' : A) :
  l <> [] -> last l d = last l d'.
Proof.
  induction l as [|x [|y l] IH]; intros Hne; [congruence|reflexivity|].
  apply IH. discriminate.
Qed.

(** Consecutive slices between growing bounds make one slice. *)
Lemma slices_concat (s : str) (bounds : list nat) :
  forall i,
    StronglySorted le (i :: bounds) ->
    List.concat (slices s (i :: bounds)) = slice s i (last bounds i).
Proof.
  induction bounds as [|j bs IH]; intros i Hs.
  - simpl. unfold slice. rewrite Nat.sub_diag. reflexivity.
  - inversion Hs as [|? ? Hrest Hall]; subst.
    change (slices s (i :: j :: bs)) with (slice s i j :: slices s (j :: bs)).
    rewrite concat_cons, (IH j Hrest).
    assert (Hij : i <= j) by (inversion Hall; auto).
    assert (Hjl : j <= last bs j).
    { inversion Hrest as [|? ? _ Hall']; subst.
      destruct bs as [|b bs]; [simpl; lia|].
      rewrite Forall_forall in Hall'. apply Hall', last_In. discriminate. }
    rewrite slice_app by assumption.
    f_equal. destruct bs as [|b bs]; [reflexivity|].
    change (last (j :: b :: bs) i) with (last (b :: bs) i).
    apply last_default. discriminate.
Qed.

Lemma sorted_snoc (l : list nat) (n : nat) :
  StronglySorted lt l -> Forall (fun i => i < n) l ->
  StronglySorted le (l ++ [n]).
Proof.
  induction l as [|x l IH]; intros Hs Hb; simpl.
  - repeat constructor.
  - inversion Hs as [|? ? Hs' Hall]; subst.
    inversion Hb as [|? ? Hx Hb']; subst.
    constructor; [auto|].
    apply Forall_app; split.
    + eapply Forall_impl; [|exact Hall]. simpl; intros; lia.
    + repeat constructor. lia.
Qed.

(** The blocks, put together, are the text from its first header on. *)
Lemma file_blocks_concat (D : str) :
  List.concat (file_blocks D)
  = match header_starts D with
    | [] => []
    | i :: _ => skipn i D
    end.
Proof.
  unfold file_blocks.
  destruct (header_starts_sorted D) as [Hs Hb].
  destruct (header_starts D) as [|i starts]; [reflexivity|].
  pose proof (sorted_snoc _ _ Hs Hb) as Hle.
  change ((i :: starts) ++ [List.length D])
    with (i :: (starts ++ [List.length D])) in *.
  rewrite (slices_concat D _ i Hle).
  rewrite last_last. apply slice_to_end.
Qed.

(** A diff is its preamble followed by its file blocks. *)
Lemma preamble_file_blocks (D : str) :
  preamble D ++ List.concat (file_blocks D) = D.
Proof.
  rewrite file_blocks_concat. unfold preamble.
  destruct (header_starts D) as [|i starts].
  - apply app_nil_r.
  - apply firstn_skipn.
Qed.

Lemma slices_length (s : str) (bounds : list nat) :
  List.length (slices s bounds) = pred (List.length bounds).
Proof.
  induction bounds as [|i bs IH]; [reflexivity|].
  destruct bs as [|j bs]; [reflexivity|].
  change (slices s (i :: j :: bs)) with (slice s i j :: slices s (j :: bs)).
  rewrite length_cons, IH. reflexivity.
Qed.

(** One block per header. *)
Lemma file_blocks_length (D : str) :
  List.length (file_blocks D) = List.length (FILE_HEADER_RE_finditer D).
Proof.
  unfold file_blocks, header_starts.
  rewrite slices_length, length_app, length_map. simpl. lia.
Qed.

(** *** Every block starts with its own header *)

Lemma finditer_from_skip_bound (s : str) :
  forall skip pos bol,
    Forall (fun m => pos + skip <= m_start m) (finditer_from skip pos bol s).
Proof.
  induction s as [|c s IH]; intros skip pos bol; simpl; [constructor|].
  assert (Hnext : forall k k',
             pos + k' <= S pos + k ->
             Forall (fun m => pos + k' <= m_start m)
                    (finditer_from k (S pos) (N.eqb c LF) s)).
  { intros k k' Hle. eapply Forall_impl; [|apply (IH k (S pos))].
    simpl; intros; lia. }
  destruct skip as [|k]; [|apply Hnext; lia].
  destruct bol; [|apply Hnext; lia].
  destruct (match_header (c :: s)) as [[a b]|]; [|apply Hnext; lia].
  constructor; [simpl; lia|apply Hnext; lia].
Qed.

(** The first match, and where the search goes on. *)
Lemma finditer_from_head (s : str) :
  forall skip pos bol m ms,
    finditer_from skip pos bol s = m :: ms ->
    exists pre c s',
      s = pre ++ c :: s'
      /\ m_start m = pos + List.length pre
      /\ match_header (c :: s') = Some (m_a m, m_b m)
      /\ ms = finditer_from (pred (match_length (m_a m) (m_b m)))
                            (S (m_start m)) (N.eqb c LF) s'.
Proof.
  induction s as [|c s IH]; intros skip pos bol m ms; simpl; [discriminate|].
  assert (Hnext : forall k,
             finditer_from k (S pos) (N.eqb c LF) s = m :: ms ->
             exists pre c' s',
               c :: s = pre ++ c' :: s'
               /\ m_start m = pos + List.length pre
               /\ match_header (c' :: s') = Some (m_a m, m_b m)
               /\ ms = finditer_from (pred (match_length (m_a m) (m_b m)))
                                     (S (m_start m)) (N.eqb c' LF) s').
  { intros k Hk. destruct (IH _ _ _ _ _ Hk) as (pre & c' & s' & -> & Hst & H).
    exists (c :: pre), c', s'. split; [reflexivity|].
    split; [simpl; lia|exact H]. }
  destruct skip as [|k]; [|apply Hnext].
  destruct bol; [|apply Hnext].
  destruct (match_header (c :: s)) as [[a b]|] eqn:Hm; [|apply Hnext].
  intros [= <- <-]. exists [], c, s. simpl.
  rewrite Nat.add_0_r. auto.
Qed.

(** The pattern reads the first line only. *)
Lemma dot_run_cons (c : char) (r : str) :
  c <> LF -> dot_run (c :: r) = c :: dot_run r.
Proof.
  intros Hc. simpl. destruct (N.eqb_spec c LF); [contradiction|reflexivity].
Qed.

Lemma dot_run_idem (r : str) : dot_run (dot_run r) = dot_run r.
Proof.
  induction r as [|c r IH]; [reflexivity|]. simpl.
  destruct (N.eqb_spec c LF) as [->|Hc]; [reflexivity|].
  rewrite dot_run_cons, IH by exact Hc. reflexivity.
Qed.

Lemma strip_prefix_dot_run (p : str) :
  forall r,
    ~ In LF p ->
    strip_prefix p (dot_run r) = option_map dot_run (strip_prefix p r).
Proof.
  induction p as [|x p IH]; intros r Hnl; [reflexivity|].
  assert (Hx : x <> LF) by (simpl in Hnl; intros ->; tauto).
  assert (Hp : ~ In LF p) by (simpl in Hnl; tauto).
  destruct r as [|y r]; [reflexivity|].
  destruct (N.eqb_spec y LF) as [->|Hy].
  - simpl. destruct (N.eqb_spec x LF); [contradiction|reflexivity].
  - rewrite dot_run_cons by exact Hy. simpl.
    destruct (N.eqb x y); [apply IH, Hp|reflexivity].
Qed.

Lemma match_sep_b_dot_run (r : str) :
  match_sep_b (dot_run r) = match_sep_b r.
Proof.
  unfold match_sep_b.
  rewrite (strip_prefix_dot_run header_sep r header_sep_no_LF).
  destruct (strip_prefix header_sep r) as [r2|]; [|reflexivity].
  simpl. unfold match_b. rewrite dot_run_idem. reflexivity.
Qed.

Lemma match_a_sep_b_dot_run (r : str) :
  forall a, match_a_sep_b a (dot_run r) = match_a_sep_b a r.
Proof.
  induction r as [|c r IH]; intros a; [reflexivity|].
  destruct (N.eqb_spec c LF) as [->|Hc]; [reflexivity|].
  rewrite dot_run_cons by exact Hc.
  rewrite !match_a_sep_b_cons by exact Hc.
  rewrite IH, <- (dot_run_cons c r Hc), match_sep_b_dot_run.
  reflexivity.
Qed.

Lemma match_header_dot_run (s : str) :
  match_header (dot_run s) = match_header s.
Proof.
  unfold match_header.
  rewrite (strip_prefix_dot_run header_prefix s header_prefix_no_LF).
  destruct (strip_prefix header_prefix s) as [r|]; [|reflexivity].
  apply match_a_sep_b_dot_run.
Qed.

Lemma match_header_line (l rest rest' : str) :
  ~ In LF l -> ends_line rest -> ends_line rest' ->
  match_header (l ++ rest) = match_header (l ++ rest').
Proof.
  intros Hnl Hr Hr'.
  rewrite <- (match_header_dot_run (l ++ rest)).
  rewrite <- (match_header_dot_run (l ++ rest')).
  rewrite !dot_run_app by assumption. reflexivity.
Qed.

Lemma ends_line_firstn (rest : str) (k : nat) :
  ends_line rest -> ends_line (firstn k rest).
Proof.
  intros [->|(r & ->)]; [left; apply firstn_nil|].
  destruct k; [left; reflexivity|right; eexists; reflexivity].
Qed.

(** A slice that holds the whole header line is searched like the
    text from the header on. *)
Lemma search_slice (t a b : str) (n : nat) :
  match_header t = Some (a, b) ->
  match_length a b <= n ->
  FILE_HEADER_RE_search (firstn n t) = Some (mk_header_match 0 a b).
Proof.
  intros Hm Hn.
  destruct (match_header_sound _ _ _ Hm)
    as (rest & Ht & Ha & Hb & Hnla & Hnlb & Hend).
  set (l := header_prefix ++ a ++ header_sep ++ b).
  assert (Hl : ~ In LF l).
  { unfold l. repeat apply not_in_app;
      auto using header_sep_no_LF, header_prefix_no_LF. }
  assert (Ht' : t = l ++ rest)
    by (unfold l; rewrite Ht, <- !app_assoc; reflexivity).
  assert (Hlen : List.length l = match_length a b)
    by (unfold l, match_length; rewrite !length_app; lia).
  assert (Hcut : firstn n t = l ++ firstn (n - match_length a b) rest).
  { rewrite Ht', firstn_app, Hlen, firstn_all2 by lia. reflexivity. }
  assert (Hm' : match_header (firstn n t) = Some (a, b)).
  { rewrite Hcut.
    rewrite (match_header_line l _ rest Hl (ends_line_firstn _ _ Hend) Hend).
    rewrite <- Hm, Ht'. reflexivity. }
  unfold FILE_HEADER_RE_search, FILE_HEADER_RE_finditer.
  destruct (firstn n t) as [|c s'] eqn:E; [discriminate Hm'|].
  simpl. rewrite Hm'. reflexivity.
Qed.

Lemma skipn_app_length {A} (pre s : list A) :
  skipn (List.length pre) (pre ++ s) = s.
Proof. induction pre; simpl; auto. Qed.

Lemma match_header_fits (t a b : str) :
  match_header t = Some (a, b) -> match_length a b <= List.length t.
Proof.
  intros Hm. destruct (match_header_sound _ _ _ Hm) as (rest & -> & _).
  unfold match_length. rewrite !length_app. lia.
Qed.

(** The search in the blocks of a text finds, block after block, the
    headers found in the text. *)
Lemma blocks_search_from (ms : list header_match) :
  forall D pre s skip bol,
    D = pre ++ s ->
    finditer_from skip (List.length pre) bol s = ms ->
    Forall2 (fun blk m =>
               FILE_HEADER_RE_search blk
               = Some (mk_header_match 0 (m_a m) (m_b m)))
            (slices D (List.map m_start ms ++ [List.length D])) ms.
Proof.
  induction ms as [|m ms IH]; intros D pre s skip bol HD Hms.
  - simpl. constructor.
  - destruct (finditer_from_head _ _ _ _ _ _ Hms)
      as (pre1 & c & s' & Hs & Hst & Hm & Hrest).
    assert (HD' : D = (pre ++ pre1 ++ [c]) ++ s').
    { rewrite HD, Hs, <- !app_assoc. reflexivity. }
    assert (Hlen' : List.length (pre ++ pre1 ++ [c]) = S (m_start m)).
    { rewrite !length_app. simpl. lia. }
    assert (Hskip : skipn (m_start m) D = c :: s').
    { rewrite HD, Hs, app_assoc, Hst, <- length_app.
      apply skipn_app_length. }
    pose proof (match_header_fits _ _ _ Hm) as Hfit.
    assert (HlenD : List.length D = m_start m + List.length (c :: s')).
    { rewrite HD, Hs, !length_app, Hst. simpl. lia. }
    assert (Htail : Forall2 (fun blk m0 =>
                       FILE_HEADER_RE_search blk
                       = Some (mk_header_match 0 (m_a m0) (m_b m0)))
                      (slices D (List.map m_start ms ++ [List.length D])) ms).
    { apply (IH D (pre ++ pre1 ++ [c]) s'
               (pred (match_length (m_a m) (m_b m))) (N.eqb c LF) HD').
      rewrite Hlen'. symmetry. exact Hrest. }
    assert (Hnext : exists nxt more,
               List.map m_start ms ++ [List.length D] = nxt :: more
               /\ m_start m + match_length (m_a m) (m_b m) <= nxt).
    { destruct ms as [|m' ms'].
      - exists (List.length D), []. split; [reflexivity|]. lia.
      - exists (m_start m'), (List.map m_start ms' ++ [List.length D]).
        split; [reflexivity|].
        pose proof (finditer_from_skip_bound s'
                      (pred (match_length (m_a m) (m_b m)))
                      (S (m_start m)) (N.eqb c LF)) as Hb.
        rewrite <- Hrest in Hb. inversion Hb as [|? ? Hhd _]; subst.
        unfold match_length in *. simpl in *. lia. }
    destruct Hnext as (nxt & more & Hsplit & Hle).
    simpl List.map. rewrite <- app_comm_cons, Hsplit.
    change (slices D (m_start m :: nxt :: more))
      with (slice D (m_start m) nxt :: slices D (nxt :: more)).
    rewrite <- Hsplit. constructor; [|exact Htail].
    unfold slice. rewrite Hskip.
    apply search_slice; [exact Hm|lia].
Qed.

Lemma file_blocks_search (D : str) :
  Forall2 (fun blk m =>
             FILE_HEADER_RE_search blk
             = Some (mk_header_match 0 (m_a m) (m_b m)))
          (file_blocks D) (FILE_HEADER_RE_finditer D).
Proof.
  unfold file_blocks, header_starts.
  apply (blocks_search_from _ D [] D 0 true); reflexivity.
Qed.

(** Every block of a diff has the header of one match of the diff. *)
Lemma file_block_has_header (D blk : str) :
  In blk (file_blocks D) ->
  exists m,
    In m (FILE_HEADER_RE_finditer D)
    /\ FILE_HEADER_RE_search blk = Some (mk_header_match 0 (m_a m) (m_b m)).
Proof.
  pose proof (file_blocks_search D) as H.
  induction H as [|b m bs ms Hhd _ IH]; simpl; [tauto|].
  intros [<-|Hin].
  - exists m. split; [left; reflexivity|exact Hhd].
  - destruct (IH Hin) as (m' & Hm' & Hs). exists m'. split; [right|]; assumption.
Qed.

(** The paths of the blocks are the targets of the headers, without
    their leading [b/] when they have one. *)
Lemma file_blocks_paths (D : str) :
  List.map block_path (file_blocks D)
  = List.map (fun m => match strip_prefix (py "b/") (m_b m) with
                       | Some rest => rest
                       | None => m_b m
                       end) (FILE_HEADER_RE_finditer D).
Proof.
  pose proof (file_blocks_search D) as H.
  induction H as [|b m bs ms Hhd _ IH]; simpl; [reflexivity|].
  rewrite IH. unfold block_path at 1. rewrite Hhd. reflexivity.
Qed.

End BlockFacts.

(** ** github_api.py: the classifier and the filter *)

Module FilterFacts.
Import Py Exc DiffUtils GithubApi PyFacts BlockFacts.

Section WithLibrary.
Context {L : Library}.

Lemma any_glob_matches_existsb (p : str) (globs : list str) :
  any_glob_matches p globs = existsb (glob_hit p) globs.
Proof.
  induction globs as [|g gs IH]; simpl; [reflexivity|].
  unfold glob_hit at 1.
  destruct (fnmatch p g) as [[|]|e]; simpl; auto.
Qed.

(** The regex step answers when the search returns or raises
    [re.error]. *)
Lemma regex_matches_returns (file_regex p : str) :
  (forall e, re_search file_regex p = Raise e -> is_re_error e = true) ->
  regex_matches file_regex p = Return (regex_hit file_regex p).
Proof.
  intros Hsafe. unfold regex_matches, regex_hit.
  destruct (truthy file_regex); simpl; [|reflexivity].
  destruct (re_search file_regex p) as [[|]|e] eqn:E; try reflexivity.
  rewrite (Hsafe e eq_refl). reflexivity.
Qed.

Lemma is_generated_path_returns (path : str) (globs : list str)
    (file_regex : str) :
  (forall e, re_search file_regex (strip path) = Raise e ->
             is_re_error e = true) ->
  _is_generated_path path globs file_regex
  = Return (existsb (glob_hit (strip path)) globs
            || regex_hit file_regex (strip path)).
Proof.
  intros Hsafe. unfold _is_generated_path.
  rewrite any_glob_matches_existsb, (regex_matches_returns _ _ Hsafe).
  destruct (existsb (glob_hit (strip path)) globs); reflexivity.
Qed.

Lemma block_is_generated_returns (globs : list str) (file_rx : str)
    (markers : list str) (blk : str) :
  (forall e, re_search file_rx (strip (block_path blk)) = Raise e ->
             is_re_error e = true) ->
  block_is_generated globs file_rx markers blk
  = Return (existsb (glob_hit (strip (block_path blk))) globs
            || regex_hit file_rx (strip (block_path blk))
            || _has_generated_markers blk markers default_head_lines).
Proof.
  intros Hsafe. unfold block_is_generated.
  rewrite (is_generated_path_returns _ _ _ Hsafe). simpl.
  destruct (existsb _ globs || regex_hit _ _); reflexivity.
Qed.

(** What the classifier does catch: a glob whose match raises,
    whatever the exception, and a regex whose search raises [re.error]
    are passed over. Then [_is_generated_path] returns a boolean, true
    exactly when one of the rules that did not raise matches, and the
    decision on a block with this path is that boolean or the answer
    of the marker rules. *)
Lemma caught_rules_are_skipped (path : str) (globs : list str)
    (file_regex : str) (markers : list str) (blk : str) :
  (forall e, re_search file_regex (strip path) = Raise e ->
             is_re_error e = true) ->
  _is_generated_path path globs file_regex
  = Return (existsb (glob_hit (strip path)) globs
            || regex_hit file_regex (strip path))
  /\ (block_path blk = path ->
      block_is_generated globs file_regex markers blk
      = Return (existsb (glob_hit (strip path)) globs
                || regex_hit file_regex (strip path)
                || _has_generated_markers blk markers default_head_lines)).
Proof.
  intros Hsafe. split.
  - apply is_generated_path_returns, Hsafe.
  - intros <-. apply block_is_generated_returns, Hsafe.
Qed.

(** What it does not catch: an exception of the regex search that is
    not [re.error] leaves [_is_generated_path] as soon as no glob has
    answered before, and with it the classification of the block and
    the loop over the blocks. *)
Lemma uncaught_regex_exception_propagates (path : str) (globs : list str)
    (file_regex : str) (e : exn) :
  truthy file_regex = true ->
  existsb (glob_hit (strip path)) globs = false ->
  re_search file_regex (strip path) = Raise e ->
  is_re_error e = false ->
  _is_generated_path path globs file_regex = Raise e
  /\ forall markers blk,
       block_path blk = path ->
       block_is_generated globs file_regex markers blk = Raise e
       /\ forall rest kept skipped,
            filter_loop globs file_regex markers (blk :: rest) kept skipped
            = Raise e.
Proof.
  intros Hrx Hglobs Hraise Hcls.
  assert (Hpath : _is_generated_path path globs file_regex = Raise e).
  { unfold _is_generated_path, regex_matches.
    rewrite any_glob_matches_existsb, Hglobs, Hrx, Hraise, Hcls.
    reflexivity. }
  split; [exact Hpath|]. intros markers blk <-.
  assert (Hblk : block_is_generated globs file_regex markers blk = Raise e)
    by (unfold block_is_generated; rewrite Hpath; reflexivity).
  split; [exact Hblk|]. intros rest kept skipped.
  cbn [filter_loop]. rewrite Hblk. reflexivity.
Qed.

(** *** The loop over the blocks *)

Lemma generated_flag_returns (globs : list str) (file_rx : str)
    (markers : list str) (blk : str) :
  regex_returns_or_re_error file_rx ->
  block_is_generated globs file_rx markers blk
  = Return (generated_flag globs file_rx markers blk).
Proof.
  intros Hsafe. unfold generated_flag.
  rewrite (block_is_generated_returns globs file_rx markers blk)
    by (intros e; apply Hsafe).
  reflexivity.
Qed.

Lemma filter_loop_cons (globs : list str) (file_rx : str)
    (markers : list str) (blk : str) (rest kept skipped : list str) :
  filter_loop globs file_rx markers (blk :: rest) kept skipped
  = (is_gen <- block_is_generated globs file_rx markers blk ;;
     if is_gen
     then filter_loop globs file_rx markers rest
            kept (skipped ++ [skipped_entry blk])
     else filter_loop globs file_rx markers rest (kept ++ [blk]) skipped).
Proof. reflexivity. Qed.

Lemma filter_loop_returns (globs : list str) (file_rx : str)
    (markers : list str) :
  regex_returns_or_re_error file_rx ->
  forall blocks kept skipped,
    filter_loop globs file_rx markers blocks kept skipped
    = Return
        (kept ++ List.filter
                   (fun b => negb (generated_flag globs file_rx markers b))
                   blocks,
         skipped ++ List.map skipped_entry
                      (List.filter (generated_flag globs file_rx markers)
                                   blocks)).
Proof.
  intros Hsafe blocks.
  induction blocks as [|blk rest IH]; intros kept skipped.
  - simpl. rewrite !app_nil_r. reflexivity.
  - rewrite filter_loop_cons, (generated_flag_returns _ _ _ _ Hsafe).
    cbn [bind filter].
    destruct (generated_flag globs file_rx markers blk);
      cbn [negb map]; rewrite IH, <- app_assoc; reflexivity.
Qed.

(** Without rules no block is generated. *)
Lemma block_is_generated_no_rules (blk : str) :
  block_is_generated [] [] [] blk = Return false.
Proof. reflexivity. Qed.

Lemma filter_loop_no_rules (blocks kept skipped : list str) :
  filter_loop [] [] [] blocks kept skipped = Return (kept ++ blocks, skipped).
Proof.
  revert kept; induction blocks as [|blk rest IH]; intros kept; simpl.
  - rewrite app_nil_r. reflexivity.
  - rewrite IH, <- app_assoc. reflexivity.
Qed.

(** With the filter switched off the text comes back as it is. *)
Lemma filter_disabled (diff_text : str) (cfg : config) :
  skip_generated cfg = Some false ->
  filter_out_generated_diffs diff_text cfg = Return (diff_text, []).
Proof.
  intros Hoff. unfold filter_out_generated_diffs. rewrite Hoff. simpl.
  destruct (truthy diff_text); reflexivity.
Qed.

(** Without rules the skipped list is empty, and the text comes back
    from its first header on. *)
Lemma filter_no_rules (diff_text : str) (cfg : config) :
  no_rules cfg ->
  get_or (skip_generated cfg) true = true ->
  filter_out_generated_diffs diff_text cfg
  = Return (match header_starts diff_text with
            | [] => diff_text
            | i :: _ => skipn i diff_text
            end, []).
Proof.
  intros (Hg & Hr & Hm) Hon. unfold filter_out_generated_diffs.
  rewrite Hg, Hr, Hm, Hon. simpl.
  destruct diff_text as [|c s] eqn:E; simpl negb; cbv iota.
  - reflexivity.
  - rewrite <- E.
    pose proof (file_blocks_concat diff_text) as Hcat.
    unfold file_blocks in Hcat.
    destruct (header_starts diff_text) as [|i starts]; [reflexivity|].
    simpl negb; cbv iota.
    rewrite filter_loop_no_rules. cbn [bind fst snd].
    unfold join_empty. rewrite app_nil_l.
    change (i :: starts ++ [List.length diff_text])
      with ((i :: starts) ++ [List.length diff_text]).
    rewrite Hcat. reflexivity.
Qed.

(** In particular a diff that starts with a header comes back as it
    is. *)
Lemma filter_no_rules_without_preamble (diff_text : str) (cfg : config) :
  no_rules cfg ->
  preamble diff_text = [] \/ header_starts diff_text = [] ->
  filter_out_generated_diffs diff_text cfg = Return (diff_text, []).
Proof.
  intros Hno Hpre.
  destruct (get_or (skip_generated cfg) true) eqn:Hon.
  - rewrite (filter_no_rules _ _ Hno Hon).
    pose proof (preamble_file_blocks diff_text) as Hsplit.
    rewrite file_blocks_concat in Hsplit.
    destruct Hpre as [Hpre|Hpre].
    + rewrite Hpre in Hsplit. simpl in Hsplit.
      destruct (header_starts diff_text); congruence.
    + rewrite Hpre. reflexivity.
  - unfold filter_out_generated_diffs. rewrite Hon. simpl.
    destruct (truthy diff_text); reflexivity.
Qed.

(** *** The partition of the blocks *)

Lemma filter_none {A} (l : list A) : List.filter (fun _ => false) l = [].
Proof. induction l; simpl; auto. Qed.

Lemma filter_all {A} (l : list A) :
  List.filter (fun _ => negb false) l = l.
Proof.
  induction l as [|x l IH]; [reflexivity|].
  change (x :: List.filter (fun _ => negb false) l = x :: l).
  rewrite IH. reflexivity.
Qed.

Lemma filter_split_length {A} (f : A -> bool) (l : list A) :
  List.length (List.filter (fun x => negb (f x)) l)
  + List.length (List.filter f l) = List.length l.
Proof.
  induction l as [|x l IH]; simpl; [reflexivity|].
  destruct (f x); simpl; lia.
Qed.

(** When the loop returns, every block was classified, and the two
    lists are the blocks told apart by their decisions. *)
Lemma filter_loop_returned (globs : list str) (file_rx : str)
    (markers : list str) (blocks : list str) :
  forall kept skipped kept' skipped',
    filter_loop globs file_rx markers blocks kept skipped
    = Return (kept', skipped') ->
    Forall (fun b => block_is_generated globs file_rx markers b
                     = Return (generated_flag globs file_rx markers b))
           blocks
    /\ kept' = kept ++ List.filter
                          (fun b => negb (generated_flag globs file_rx markers b))
                          blocks
    /\ skipped' = skipped ++ List.map skipped_entry
                                (List.filter
                                   (generated_flag globs file_rx markers)
                                   blocks).
Proof.
  induction blocks as [|blk rest IH]; intros kept skipped kept' skipped'.
  - simpl. intros [= <- <-]. rewrite !app_nil_r. auto.
  - rewrite filter_loop_cons.
    destruct (block_is_generated globs file_rx markers blk) as [b|e] eqn:Hb;
      [|discriminate].
    assert (Hflag : generated_flag globs file_rx markers blk = b)
      by (unfold generated_flag; rewrite Hb; reflexivity).
    cbn [bind]. intros Hloop.
    destruct b; apply IH in Hloop; destruct Hloop as (Hall & -> & ->);
      (split; [constructor; [rewrite Hflag; exact Hb|exact Hall]|]);
      cbn [List.filter]; rewrite Hflag; cbn [negb map];
      rewrite <- !app_assoc; auto.
Qed.

(** Blocks that are decided "no" are all kept. *)
Lemma filter_loop_keeps (globs : list str) (file_rx : str)
    (markers : list str) (blocks : list str) :
  forall kept skipped,
    Forall (fun b => block_is_generated globs file_rx markers b
                     = Return false) blocks ->
    filter_loop globs file_rx markers blocks kept skipped
    = Return (kept ++ blocks, skipped).
Proof.
  induction blocks as [|blk rest IH]; intros kept skipped Hall.
  - simpl. rewrite app_nil_r. reflexivity.
  - inversion Hall as [|? ? Hb Hrest]; subst.
    rewrite filter_loop_cons, Hb. cbn [bind].
    rewrite (IH _ _ Hrest), <- app_assoc. reflexivity.
Qed.

(** What the filter returns, when it returns. *)
Lemma filter_returned (diff_text : str) (cfg : config)
    (out : str) (skipped : list str) :
  filter_out_generated_diffs diff_text cfg = Return (out, skipped) ->
  (out = diff_text /\ skipped = [])
  \/ (exists kept,
        out = join_empty kept
        /\ kept = List.filter
                    (fun b => negb (generated_flag
                                      (get_or (generated_path_globs cfg) [])
                                      (get_or (generated_file_regex cfg) [])
                                      (get_or (generated_header_markers cfg) [])
                                      b))
                    (file_blocks diff_text)
        /\ skipped = List.map skipped_entry
                       (List.filter
                          (generated_flag
                             (get_or (generated_path_globs cfg) [])
                             (get_or (generated_file_regex cfg) [])
                             (get_or (generated_header_markers cfg) []))
                          (file_blocks diff_text))
        /\ Forall (fun b => block_is_generated
                              (get_or (generated_path_globs cfg) [])
                              (get_or (generated_file_regex cfg) [])
                              (get_or (generated_header_markers cfg) []) b
                            = Return false) kept
        /\ get_or (skip_generated cfg) true = true).
Proof.
  unfold filter_out_generated_diffs.
  destruct (truthy diff_text); cbn [negb];
    [|intros [= <- <-]; left; auto].
  destruct (get_or (skip_generated cfg) true); cbn [negb];
    [|intros [= <- <-]; left; auto].
  destruct (truthy (header_starts diff_text)); cbn [negb];
    [|intros [= <- <-]; left; auto].
  fold (file_blocks diff_text).
  destruct (filter_loop _ _ _ (file_blocks diff_text) [] [])
    as [[kept sk]|e] eqn:Hloop; [|discriminate].
  cbn [bind fst snd]. intros [= <- <-]. right.
  destruct (filter_loop_returned _ _ _ _ _ _ _ _ Hloop) as (Hall & Hk & Hs).
  rewrite app_nil_l in Hk, Hs.
  exists kept. split; [reflexivity|]. split; [exact Hk|].
  split; [exact Hs|]. split; [|reflexivity].
  rewrite Hk. apply Forall_forall. intros b Hb.
  apply filter_In in Hb. destruct Hb as [Hin Hflag].
  rewrite Forall_forall in Hall. rewrite (Hall b Hin).
  apply negb_true_iff in Hflag. rewrite Hflag. reflexivity.
Qed.

(** When every block is classified, the loop returns. *)
Lemma filter_loop_all_return (globs : list str) (file_rx : str)
    (markers : list str) (blocks : list str) :
  forall kept skipped,
    Forall (fun b => returns (block_is_generated globs file_rx markers b)
                     = true) blocks ->
    returns (filter_loop globs file_rx markers blocks kept skipped) = true.
Proof.
  induction blocks as [|blk rest IH]; intros kept skipped Hall;
    [reflexivity|].
  inversion Hall as [|? ? Hb Hrest]; subst.
  rewrite filter_loop_cons.
  destruct (block_is_generated globs file_rx markers blk) as [[|]|e];
    [| |discriminate Hb]; cbn [bind]; apply IH, Hrest.
Qed.

Lemma file_blocks_without_header (diff_text : str) :
  header_starts diff_text = [] -> file_blocks diff_text = [].
Proof. unfold file_blocks. intros ->. reflexivity. Qed.

(** C4. For every diff text and every rule set, whatever [fnmatch]
    and [re.search] do: [filter_out_generated_diffs] returns exactly
    when the filter is switched off or the classification of every
    file block returns, and for every result it returns there is one
    yes/no decision per file block such that the filtered text is made
    of the blocks decided "no", in the order of the diff (after the
    preamble when nothing is filtered), and the skipped list has one
    entry for each block decided "yes", in the order of the diff: each
    block goes to exactly one of the two, and a block decided "yes" is
    one that the classifier answered [True] for. *)
Theorem filter_partitions_file_blocks (diff_text : str) (cfg : config) :
  (returns (filter_out_generated_diffs diff_text cfg) = true
   <-> get_or (skip_generated cfg) true = false
       \/ Forall (fun b => returns (block_is_generated
                                      (get_or (generated_path_globs cfg) [])
                                      (get_or (generated_file_regex cfg) [])
                                      (get_or (generated_header_markers cfg) [])
                                      b) = true)
                 (file_blocks diff_text))
  /\ forall (out : str) (skipped : list str),
       filter_out_generated_diffs diff_text cfg = Return (out, skipped) ->
       exists (gen : str -> bool) (pre : str),
         out = pre ++ join_empty
                        (List.filter (fun b => negb (gen b))
                                     (file_blocks diff_text))
         /\ skipped = List.map skipped_entry
                               (List.filter gen (file_blocks diff_text))
         /\ (pre = [] \/ pre = preamble diff_text)
         /\ List.length (List.filter (fun b => negb (gen b))
                                     (file_blocks diff_text))
            + List.length skipped
            = List.length (file_blocks diff_text)
         /\ (forall b,
               In b (file_blocks diff_text) -> gen b = true ->
               block_is_generated (get_or (generated_path_globs cfg) [])
                                  (get_or (generated_file_regex cfg) [])
                                  (get_or (generated_header_markers cfg) [])
                                  b
               = Return true).
Proof.
  split.
  - unfold filter_out_generated_diffs.
    destruct (truthy diff_text) eqn:Hne; cbn [negb].
    2:{ apply truthy_false in Hne. subst diff_text.
        split; [intros _; right; constructor|reflexivity]. }
    destruct (get_or (skip_generated cfg) true); cbn [negb].
    2:{ split; [intros _; left; reflexivity|reflexivity]. }
    destruct (truthy (header_starts diff_text)) eqn:Hh; cbn [negb].
    2:{ apply truthy_false in Hh.
        rewrite (file_blocks_without_header _ Hh).
        split; [intros _; right; constructor|reflexivity]. }
    fold (file_blocks diff_text). split.
    + destruct (filter_loop _ _ _ (file_blocks diff_text) [] [])
        as [[kept sk]|e] eqn:Hloop; [|discriminate].
      intros _. right.
      destruct (filter_loop_returned _ _ _ _ _ _ _ _ Hloop) as (Hall & _).
      apply Forall_forall. intros b Hb. rewrite Forall_forall in Hall.
      rewrite (Hall b Hb). reflexivity.
    + intros [Hoff|Hall]; [discriminate|].
      pose proof (filter_loop_all_return _ _ _ _ [] [] Hall) as Hret.
      destruct (filter_loop _ _ _ (file_blocks diff_text) [] [])
        as [[kept sk]|e]; [reflexivity|discriminate].
  - intros out skipped Hf.
    destruct (filter_returned _ _ _ _ Hf)
      as [[-> ->]|(kept & Hout & Hk & Hs & _ & _)].
    + exists (fun _ => false), (preamble diff_text).
      rewrite filter_none, filter_all.
      split; [symmetry; apply preamble_file_blocks|].
      split; [reflexivity|]. split; [right; reflexivity|].
      split; [cbn [List.length]; lia|]. intros b _ Hgen. discriminate.
    + exists (generated_flag (get_or (generated_path_globs cfg) [])
                             (get_or (generated_file_regex cfg) [])
                             (get_or (generated_header_markers cfg) [])), [].
      split; [rewrite Hout, Hk; reflexivity|].
      split; [exact Hs|]. split; [left; reflexivity|].
      split; [rewrite Hs, length_map; apply filter_split_length|].
      intros b _ Hgen. unfold generated_flag in Hgen.
      destruct (block_is_generated _ _ _ b) as [[|]|e];
        [reflexivity|discriminate|discriminate].
Qed.

(** The failing input of C3: with no rule at all and the filter left
    on, the line before the first header is lost. *)
Theorem filter_no_rules_drops_preamble :
  filter_out_generated_diffs
    (py "x" ++ [LF] ++ py "diff --git a/f b/f" ++ [LF])
    (mk_config None None None None)
  = Return (py "diff --git a/f b/f" ++ [LF], [])
  /\ no_rules (mk_config None None None None)
  /\ py "diff --git a/f b/f" ++ [LF]
     <> py "x" ++ [LF] ++ py "diff --git a/f b/f" ++ [LF].
Proof.
  split; [reflexivity|]. split; [repeat split|]. discriminate.
Qed.

(** *** The target path of a block *)

(** C10. For every file block whose header gives a target path that
    begins with [b/] (a file [b/<rest>], [<rest>] not empty), the path
    the classifier works with is [<rest>]: the globs and the regex are
    matched against [<rest>], and when the block is generated the
    skipped list receives [<rest>], which is not the target path. *)
Theorem b_prefix_is_stripped (blk : str) (m : header_match) (rest : str)
    (globs : list str) (file_rx : str) (markers : list str) :
  FILE_HEADER_RE_search blk = Some m ->
  m_b m = py "b/" ++ rest ->
  rest <> [] ->
  block_path blk = rest
  /\ block_is_generated globs file_rx markers blk
     = (by_path <- _is_generated_path rest globs file_rx ;;
        if by_path then Return true
        else Return (_has_generated_markers blk markers default_head_lines))
  /\ skipped_entry blk = rest
  /\ rest <> m_b m
  /\ (forall others kept skipped,
        block_is_generated globs file_rx markers blk = Return true ->
        filter_loop globs file_rx markers (blk :: others) kept skipped
        = filter_loop globs file_rx markers others kept (skipped ++ [rest])).
Proof.
  intros Hm Hb Hrest.
  assert (Hpath : block_path blk = rest).
  { unfold block_path. rewrite Hm, Hb, strip_prefix_here. reflexivity. }
  assert (Hentry : skipped_entry blk = rest).
  { unfold skipped_entry. rewrite Hpath.
    destruct rest; [congruence|reflexivity]. }
  split; [exact Hpath|]. split.
  { unfold block_is_generated. rewrite Hpath. reflexivity. }
  split; [exact Hentry|]. split.
  { rewrite Hb. intros E. apply (f_equal (@List.length char)) in E.
    rewrite length_app in E. simpl in E. lia. }
  intros others kept skipped Hgen.
  rewrite filter_loop_cons, Hgen, Hentry. reflexivity.
Qed.

End WithLibrary.

(** *** The theorems at work on the example library *)

(** C8. The classifier does not pass over every malformed regex. With
    the regex [a{99999999999999}], for which [re.search] raises
    [OverflowError] and not [re.error], and a glob that does not match
    the path, [_is_generated_path] raises instead of returning a
    boolean, and so do the decision on the block and the whole filter;
    with the malformed regex [(], for which [re.search] raises
    [re.error], the same call returns [False] and the filter goes
    on. *)
Theorem uncaught_regex_exception_aborts :
  @_is_generated_path example_library (py "gen.js") [py "*.py"]
     too_large_repeat
  = Raise (Exn OtherException (py "the repetition number is too large"))
  /\ @block_is_generated example_library [py "*.py"] too_large_repeat []
       example_block
     = Raise (Exn OtherException (py "the repetition number is too large"))
  /\ @filter_out_generated_diffs example_library example_diff
       (mk_config None (Some [py "*.py"]) (Some too_large_repeat) None)
     = Raise (Exn OtherException (py "the repetition number is too large"))
  /\ @_is_generated_path example_library (py "gen.js") [py "*.py"] (py "(")
     = Return false
  /\ @filter_out_generated_diffs example_library example_diff
       (mk_config None (Some [py "*.py"]) (Some (py "(")) None)
     = Return (example_diff, []).
Proof.
  destruct (@uncaught_regex_exception_propagates example_library
              (py "gen.js") [py "*.py"] too_large_repeat
              (Exn OtherException (py "the repetition number is too large"))
              eq_refl eq_refl eq_refl eq_refl) as [Hpath Hblk].
  split; [exact Hpath|].
  split; [apply (Hblk [] example_block eq_refl)|].
  split; [vm_compute; reflexivity|].
  split; vm_compute; reflexivity.
Qed.

Lemma filter_partitions_file_blocks_witness :
  @filter_out_generated_diffs example_library example_diff example_config
  = Return (py "diff --git a/foo/bar.go b/foo/bar.go" ++ [LF]
            ++ py "+y" ++ [LF],
            [py "gen.js"])
  /\ exists (gen : str -> bool) (pre : str),
       py "diff --git a/foo/bar.go b/foo/bar.go" ++ [LF] ++ py "+y" ++ [LF]
       = pre ++ join_empty
                  (List.filter (fun b => negb (gen b))
                               (file_blocks example_diff))
       /\ [py "gen.js"]
          = List.map skipped_entry
                     (List.filter gen (file_blocks example_diff))
       /\ (pre = [] \/ pre = preamble example_diff)
       /\ List.length (List.filter (fun b => negb (gen b))
                                   (file_blocks example_diff))
          + List.length [py "gen.js"]
          = List.length (file_blocks example_diff)
       /\ (forall b,
             In b (file_blocks example_diff) -> gen b = true ->
             @block_is_generated example_library
               (get_or (generated_path_globs example_config) [])
               (get_or (generated_file_regex example_config) [])
               (get_or (generated_header_markers example_config) [])
               b
             = Return true).
Proof.
  assert (H : @filter_out_generated_diffs example_library example_diff
                example_config
              = Return (py "diff --git a/foo/bar.go b/foo/bar.go" ++ [LF]
                        ++ py "+y" ++ [LF],
                        [py "gen.js"]))
    by (vm_compute; reflexivity).
  split; [exact H|].
  apply (proj2 (@filter_partitions_file_blocks example_library
                  example_diff example_config) _ _ H).
Defined.

(** A glob that matches every path leaves the regex unread: the
    filter returns, all blocks skipped, although the search with this
    regex would raise. *)
Example filter_regex_unread :
  @filter_out_generated_diffs example_library example_diff
    (mk_config None (Some [py "*"]) (Some too_large_repeat) None)
  = Return ([], [py "gen.js"; py "foo/bar.go"]).
Proof. vm_compute. reflexivity. Qed.

(** On the example: the block of [b/gen.js] is skipped by the glob
    [gen.js] and reported as [gen.js]. *)
Example filter_example_diff :
  @filter_out_generated_diffs example_library example_diff example_config
  = Return (py "diff --git a/foo/bar.go b/foo/bar.go" ++ [LF]
            ++ py "+y" ++ [LF],
            [py "gen.js"]).
Proof. vm_compute. reflexivity. Qed.

Lemma b_prefix_is_stripped_witness :
  FILE_HEADER_RE_search example_block
  = Some (mk_header_match 0 (py "b/gen.js") (py "b/gen.js"))
  /\ m_b (mk_header_match 0 (py "b/gen.js") (py "b/gen.js"))
     = py "b/" ++ py "gen.js"
  /\ py "gen.js" <> []
  /\ (block_path example_block = py "gen.js"
      /\ @block_is_generated example_library [py "gen.js"] [] [] example_block
         = (by_path <- @_is_generated_path example_library
                         (py "gen.js") [py "gen.js"] [] ;;
            if by_path then Return true
            else Return (@_has_generated_markers example_library
                           example_block [] default_head_lines))
      /\ skipped_entry example_block = py "gen.js"
      /\ py "gen.js" <> m_b (mk_header_match 0 (py "b/gen.js") (py "b/gen.js"))
      /\ (forall others kept skipped,
            @block_is_generated example_library [py "gen.js"] [] []
              example_block = Return true ->
            @filter_loop example_library [py "gen.js"] [] []
              (example_block :: others) kept skipped
            = @filter_loop example_library [py "gen.js"] [] []
                others kept (skipped ++ [py "gen.js"]))).
Proof.
  split; [reflexivity|]. split; [reflexivity|]. split; [discriminate|].
  apply (@b_prefix_is_stripped example_library example_block
           (mk_header_match 0 (py "b/gen.js") (py "b/gen.js")) (py "gen.js")
           [py "gen.js"] [] []);
    [reflexivity|reflexivity|discriminate].
Defined.

(** The scenario of the two blocks [foo/bar.min.js] and [foo/bar.go]
    with the glob [*.min.js]. *)
Example filter_min_js :
  @filter_out_generated_diffs example_library
    (py "diff --git a/foo/bar.min.js b/foo/bar.min.js" ++ [LF]
     ++ py "+x" ++ [LF]
     ++ py "diff --git a/foo/bar.go b/foo/bar.go" ++ [LF]
     ++ py "+y" ++ [LF])
    (mk_config None (Some [py "*.min.js"]) None None)
  = Return (py "diff --git a/foo/bar.go b/foo/bar.go" ++ [LF]
            ++ py "+y" ++ [LF],
            [py "foo/bar.min.js"]).
Proof. vm_compute. reflexivity. Qed.

End FilterFacts.

(** ** Dicts *)

Module DictFacts.
Import Py Dict PyFacts.

Lemma set_fresh {V} (d : dict V) (k : str) (v : V) :
  ~ In k (keys d) -> set d k v = d ++ [(k, v)].
Proof.
  induction d as [|[k' v'] d IH]; simpl; intros Hnin; [reflexivity|].
  destruct (str_eqb k k') eqn:E.
  - apply str_eqb_eq in E. subst. tauto.
  - rewrite IH by tauto. reflexivity.
Qed.

Lemma get_In {V} (d : dict V) (k : str) (v : V) :
  NoDup (keys d) -> In (k, v) d -> get d k = Some v.
Proof.
  induction d as [|[k' v'] d IH]; simpl; intros Hnd Hin; [tauto|].
  inversion Hnd as [|? ? Hk' Hnd']; subst.
  destruct Hin as [[= -> ->]|Hin].
  - rewrite str_eqb_refl. reflexivity.
  - destruct (str_eqb k k') eqn:E; [|auto].
    apply str_eqb_eq in E. subst.
    exfalso. apply Hk'. apply (in_map fst) in Hin. exact Hin.
Qed.

Lemma get_None {V} (d : dict V) (k : str) :
  get d k = None <-> ~ In k (keys d).
Proof.
  induction d as [|[k' v'] d IH]; simpl; [tauto|].
  destruct (str_eqb k k') eqn:E.
  - apply str_eqb_eq in E. subst. split; [discriminate|tauto].
  - apply str_eqb_neq in E. rewrite IH. split; [|tauto].
    intros Hnin [->|Hin]; tauto.
Qed.

End DictFacts.

(** ** ui.py: the loop over the selected models *)

Module OrchestratorFacts.
Import Py Exc Dict Orchestrator PyFacts DictFacts.

(** The selected models are keys of a dict: no model comes twice. *)
Lemma collect_selected_models_NoDup (model_vars : dict bool) :
  NoDup (keys model_vars) -> NoDup (_collect_selected_models model_vars).
Proof.
  unfold _collect_selected_models, items, keys.
  induction model_vars as [|[k v] d IH]; simpl; intros Hnd; [constructor|].
  inversion Hnd as [|? ? Hk Hnd']; subst.
  destruct v; simpl; [|auto].
  constructor; [|auto].
  intros Hin. apply Hk. apply in_map_iff in Hin.
  destruct Hin as ([k' v'] & <- & Hin). apply filter_In in Hin.
  destruct Hin as [Hin _]. apply (in_map fst) in Hin. exact Hin.
Qed.

Lemma error_entries_app (rs rs' : list (str * run_result)) :
  error_entries (rs ++ rs') = error_entries rs ++ error_entries rs'.
Proof. apply flat_map_app. Qed.

Lemma error_entries_keys (rs : list (str * run_result)) (k : str) :
  In k (keys (error_entries rs)) -> In k (List.map fst rs).
Proof.
  unfold keys, error_entries. rewrite in_map_iff.
  intros ([k' msg] & <- & Hin). apply in_flat_map in Hin.
  destruct Hin as ([m r] & Hin & Hr). apply in_map_iff.
  exists (m, r). split; [|exact Hin].
  simpl in *. destruct r; simpl in Hr; [tauto|].
  destruct Hr as [[= <- _]|[]]. reflexivity.
Qed.

Section Folds.
Variable V : Type.
Variable entry : str * run_result -> str * V.
Variable record : dict V * dict str -> str * run_result -> dict V * dict str.
Hypothesis entry_key : forall r, fst (entry r) = fst r.
Hypothesis record_spec :
  forall results errors r,
    record (results, errors) r
    = (set results (fst r) (snd (entry r)),
       match snd r with
       | Failure e => set errors (fst r) (exn_msg e)
       | Output _ => errors
       end).

(** Over tasks with distinct names, the loop appends one entry per
    task to [results], and one per failure to [errors]. *)
Lemma fold_record (rs : list (str * run_result)) :
  forall results errors,
    NoDup (List.map fst rs) ->
    (forall k, In k (List.map fst rs) -> ~ In k (keys results)) ->
    (forall k, In k (keys errors) -> In k (keys results)) ->
    fold_left record rs (results, errors)
    = (results ++ List.map entry rs, errors ++ error_entries rs).
Proof.
  induction rs as [|r rs IH]; intros results errors Hnd Hfresh Hsub.
  - simpl. rewrite !app_nil_r. reflexivity.
  - simpl in Hnd. inversion Hnd as [|? ? Hr Hnd']; subst.
    assert (Hk : ~ In (fst r) (keys results)) by (apply Hfresh; left; reflexivity).
    assert (Hke : ~ In (fst r) (keys errors)) by (intros H; apply Hk, Hsub, H).
    simpl fold_left. rewrite record_spec.
    rewrite (set_fresh results) by exact Hk.
    assert (Hentry : (fst r, snd (entry r)) = entry r).
    { rewrite <- (entry_key r). destruct (entry r); reflexivity. }
    rewrite Hentry.
    change (r :: rs) with ([r] ++ rs).
    rewrite map_app, error_entries_app, !app_assoc.
    unfold keys in *.
    destruct (snd r) as [out|e] eqn:Er.
    + rewrite IH; auto.
      * unfold error_entries at 2. simpl. rewrite Er. simpl.
        rewrite app_nil_r. reflexivity.
      * intros k Hin. rewrite map_app, in_app_iff. simpl.
        rewrite (entry_key r).
        intros [H|[<-|[]]]; [apply (Hfresh k); [right; exact Hin|exact H]|].
        exact (Hr Hin).
      * intros k Hin. rewrite map_app, in_app_iff. left. apply Hsub, Hin.
    + rewrite (set_fresh errors) by exact Hke.
      rewrite IH; auto.
      * unfold error_entries at 2. simpl. rewrite Er. simpl. reflexivity.
      * intros k Hin. rewrite map_app, in_app_iff. simpl.
        rewrite (entry_key r).
        intros [H|[<-|[]]]; [apply (Hfresh k); [right; exact Hin|exact H]|].
        exact (Hr Hin).
      * intros k. rewrite !map_app, !in_app_iff. simpl.
        rewrite (entry_key r). intros [H|H]; [left; apply Hsub, H|right; exact H].
Qed.

End Folds.

Lemma record_review_spec (results errors : dict str) (r : str * run_result) :
  record_review (results, errors) r
  = (set results (fst r) (snd (review_entry r)),
     match snd r with
     | Failure e => set errors (fst r) (exn_msg e)
     | Output _ => errors
     end).
Proof. destruct r as [m [out|e]]; reflexivity. Qed.

Lemma record_history_spec (results : dict (option str)) (errors : dict str)
    (r : str * run_result) :
  record_history (results, errors) r
  = (set results (fst r) (snd (history_entry r)),
     match snd r with
     | Failure e => set errors (fst r) (exn_msg e)
     | Output _ => errors
     end).
Proof. destruct r as [m [out|e]]; reflexivity. Qed.

Lemma fold_left_map {A B C} (f : A -> B -> A) (g : C -> B) (l : list C) (a : A) :
  fold_left (fun st x => f st (g x)) l a = fold_left f (List.map g l) a.
Proof. revert a; induction l as [|x l IH]; intros a; simpl; auto. Qed.

Section WithBackends.
Variable invoke : str -> outcome (option str).
Variable as_completed : list (str * run_result) -> list (str * run_result).
Hypothesis as_completed_permutation :
  forall futs, Permutation (as_completed futs) futs.

Lemma run_one_name (m : str) : fst (run_one invoke m) = m.
Proof. unfold run_one. destruct (invoke m); reflexivity. Qed.

Lemma run_one_names (models : list str) :
  List.map fst (List.map (run_one invoke) models) = models.
Proof.
  induction models as [|m ms IH]; simpl; [reflexivity|].
  rewrite run_one_name, IH. reflexivity.
Qed.

Lemma recorded_permutation (parallel : bool) (models : list str) :
  Permutation (recorded invoke as_completed parallel models) (List.map (run_one invoke) models).
Proof.
  unfold recorded. destruct parallel; [apply as_completed_permutation|].
  apply Permutation_refl.
Qed.

Lemma recorded_names (parallel : bool) (models : list str) :
  Permutation (List.map fst (recorded invoke as_completed parallel models)) models.
Proof.
  rewrite <- (run_one_names models) at 2.
  apply Permutation_map, recorded_permutation.
Qed.

Lemma recorded_NoDup (parallel : bool) (models : list str) :
  NoDup models -> NoDup (List.map fst (recorded invoke as_completed parallel models)).
Proof.
  intros Hnd. eapply Permutation_NoDup; [|exact Hnd].
  apply Permutation_sym, recorded_names.
Qed.

(** Both branches of [App.on_review] leave one entry per model in
    [results] and one entry per failure in [errors]. *)
Lemma on_review_run_models_entries (parallel : bool) (models : list str) :
  NoDup models ->
  on_review_run_models invoke as_completed parallel models
  = (List.map review_entry (recorded invoke as_completed parallel models),
     error_entries (recorded invoke as_completed parallel models)).
Proof.
  intros Hnd. pose proof (recorded_NoDup parallel models Hnd) as Hnd'.
  unfold on_review_run_models, recorded in *. unfold empty.
  destruct parallel; [|rewrite fold_left_map];
    rewrite (fold_record _ review_entry record_review
               (fun r => eq_refl) record_review_spec); auto;
    simpl; tauto.
Qed.

Lemma file_history_run_models_entries (parallel : bool) (models : list str) :
  NoDup models ->
  file_history_run_models invoke as_completed parallel models
  = (List.map history_entry (recorded invoke as_completed parallel models),
     error_entries (recorded invoke as_completed parallel models)).
Proof.
  intros Hnd. pose proof (recorded_NoDup parallel models Hnd) as Hnd'.
  unfold file_history_run_models, recorded in *. unfold empty.
  destruct parallel; [|rewrite fold_left_map];
    rewrite (fold_record _ history_entry record_history
               (fun r => eq_refl) record_history_spec); auto;
    simpl; tauto.
Qed.

Lemma review_entry_key (r : str * run_result) : fst (review_entry r) = fst r.
Proof. reflexivity. Qed.

Lemma review_keys (rs : list (str * run_result)) :
  keys (List.map review_entry rs) = List.map fst rs.
Proof. unfold keys. rewrite map_map. reflexivity. Qed.

(** The entry of a model in [results] is the one of its own task. *)
Lemma results_get (parallel : bool) (models : list str) (m : str) :
  NoDup models -> In m models ->
  get (List.map review_entry (recorded invoke as_completed parallel models)) m
  = Some (snd (review_entry (run_one invoke m))).
Proof.
  intros Hnd Hin. apply get_In.
  - rewrite review_keys. apply recorded_NoDup, Hnd.
  - replace (m, snd (review_entry (run_one invoke m)))
      with (review_entry (run_one invoke m))
      by (unfold review_entry; rewrite run_one_name; reflexivity).
    apply in_map.
    apply (Permutation_in _ (Permutation_sym (recorded_permutation parallel models))).
    apply in_map, Hin.
Qed.

Lemma error_entries_no_failure (models : list str) :
  (forall m, In m models -> returns (invoke m) = true) ->
  error_entries (List.map (run_one invoke) models) = [].
Proof.
  induction models as [|m ms IH]; intros Hok; [reflexivity|].
  simpl. unfold run_one at 1.
  pose proof (Hok m (or_introl eq_refl)) as Hm.
  destruct (invoke m); [|discriminate]. simpl.
  apply IH. intros m' Hin. apply Hok. right. exact Hin.
Qed.

Lemma error_entries_one_failure (models : list str) (failed : str) (e : exn) :
  NoDup models -> In failed models -> invoke failed = Raise e ->
  (forall m, In m models -> m <> failed -> returns (invoke m) = true) ->
  error_entries (List.map (run_one invoke) models) = [(failed, exn_msg e)].
Proof.
  induction models as [|m ms IH]; intros Hnd Hin Hfail Hok; [destruct Hin|].
  inversion Hnd as [|? ? Hm Hnd']; subst.
  change (List.map (run_one invoke) (m :: ms))
    with ([run_one invoke m] ++ List.map (run_one invoke) ms).
  rewrite error_entries_app.
  destruct Hin as [->|Hin].
  - rewrite error_entries_no_failure.
    + unfold run_one. rewrite Hfail. reflexivity.
    + intros m' Hin'. apply Hok; [right; exact Hin'|].
      intros ->. exact (Hm Hin').
  - assert (Hne : m <> failed) by (intros ->; exact (Hm Hin)).
    pose proof (Hok m (or_introl eq_refl) Hne) as Hret.
    rewrite IH; auto.
    + unfold run_one. destruct (invoke m); [reflexivity|discriminate].
    + intros m' Hin' Hne'. apply Hok; [right; exact Hin'|exact Hne'].
Qed.

Lemma error_entries_recorded (parallel : bool) (models : list str) :
  Permutation (error_entries (recorded invoke as_completed parallel models))
              (error_entries (List.map (run_one invoke) models)).
Proof.
  unfold error_entries. apply Permutation_flat_map, recorded_permutation.
Qed.

(** C6. If exactly one of the [N] selected models raises, then, in
    both modes and whatever the order in which the tasks finish, the
    result map has [N] entries, one per model; the entry of the failed
    model is the empty string and the entry of every other model is
    its own output; the error map has one entry, under the name of the
    failed model, with the message of the exception; the key of the
    error map is a key of the result map, and a model has an entry in
    the error map exactly when its call raised. *)
Theorem one_failure_is_isolated (parallel : bool) (models : list str)
    (failed : str) (e : exn) (results errors : dict str) :
  NoDup models ->
  In failed models ->
  invoke failed = Raise e ->
  (forall m, In m models -> m <> failed -> returns (invoke m) = true) ->
  on_review_run_models invoke as_completed parallel models
  = (results, errors) ->
  size results = List.length models
  /\ Permutation (keys results) models
  /\ errors = [(failed, exn_msg e)]
  /\ get results failed = Some []
  /\ (forall m out, In m models -> invoke m = Return out ->
                    get results m = Some (or_empty out))
  /\ (forall k, In k (keys errors) -> In k (keys results))
  /\ (forall m, In m models ->
                (get errors m = None <-> returns (invoke m) = true)).
Proof.
  intros Hnd Hin Hfail Hok Hrun.
  rewrite (on_review_run_models_entries parallel models Hnd) in Hrun.
  injection Hrun as <- <-.
  assert (Herr : error_entries (recorded invoke as_completed parallel models)
                 = [(failed, exn_msg e)]).
  { apply Permutation_length_1_inv.
    rewrite <- (error_entries_one_failure models failed e Hnd Hin Hfail Hok).
    apply Permutation_sym, error_entries_recorded. }
  assert (Hkeys : Permutation (keys (List.map review_entry
                                       (recorded invoke as_completed parallel models))) models).
  { rewrite review_keys. apply recorded_names. }
  split.
  { unfold size. rewrite length_map.
    rewrite (Permutation_length (recorded_permutation parallel models)).
    apply length_map. }
  split; [exact Hkeys|]. split; [exact Herr|]. split.
  { rewrite (results_get parallel models failed Hnd Hin).
    unfold review_entry, run_one. rewrite Hfail. reflexivity. }
  split.
  { intros m out Hm Hout. rewrite (results_get parallel models m Hnd Hm).
    unfold review_entry, run_one. rewrite Hout. reflexivity. }
  split.
  { rewrite Herr. simpl. intros k [<-|[]].
    apply (Permutation_in _ (Permutation_sym Hkeys)), Hin. }
  intros m Hm. rewrite Herr. simpl.
  destruct (str_eqb m failed) eqn:E.
  - apply str_eqb_eq in E. subst. rewrite Hfail. simpl.
    split; discriminate.
  - apply str_eqb_neq in E. rewrite (Hok m Hm E). tauto.
Qed.

(** C7, as the code has it. If every one of the [N] selected models
    returns, then, in both modes, the result map has [N] entries, one
    per model, each of them the output of its model (the empty string
    when the model returned [None] or an empty output, hence not empty
    exactly when the output is not), and the error map is empty. *)
Theorem all_succeed_all_recorded (parallel : bool) (models : list str)
    (results errors : dict str) :
  NoDup models ->
  (forall m, In m models -> returns (invoke m) = true) ->
  on_review_run_models invoke as_completed parallel models
  = (results, errors) ->
  size results = List.length models
  /\ Permutation (keys results) models
  /\ (forall m out, In m models -> invoke m = Return out ->
                    get results m = Some (or_empty out)
                    /\ (or_empty out <> [] <-> get results m <> Some []))
  /\ errors = [].
Proof.
  intros Hnd Hok Hrun.
  rewrite (on_review_run_models_entries parallel models Hnd) in Hrun.
  injection Hrun as <- <-.
  split.
  { unfold size. rewrite length_map.
    rewrite (Permutation_length (recorded_permutation parallel models)).
    apply length_map. }
  split; [rewrite review_keys; apply recorded_names|]. split.
  { intros m out Hm Hout. rewrite (results_get parallel models m Hnd Hm).
    assert (Hv : snd (review_entry (run_one invoke m)) = or_empty out).
    { unfold review_entry, run_one. rewrite Hout. reflexivity. }
    rewrite Hv. split; [reflexivity|].
    split; [intros H [= E]; exact (H E)|].
    intros H E. apply H. rewrite E. reflexivity. }
  apply Permutation_nil.
  rewrite <- (error_entries_no_failure models Hok).
  apply Permutation_sym, error_entries_recorded.
Qed.

End WithBackends.

(** *** The theorems at work on examples *)

Lemma last_first_permutation (futs : list (str * run_result)) :
  Permutation (last_first futs) futs.
Proof. apply Permutation_sym, Permutation_rev. Qed.

Lemma one_failure_is_isolated_witness :
  (forall futs, Permutation (last_first futs) futs)
  /\ NoDup [py "m1"; py "m2"; py "m3"]
  /\ In (py "m2") [py "m1"; py "m2"; py "m3"]
  /\ second_fails (py "m2") = Raise (Exn OtherException (py "timeout"))
  /\ (forall m, In m [py "m1"; py "m2"; py "m3"] -> m <> py "m2" ->
                returns (second_fails m) = true)
  /\ on_review_run_models second_fails last_first true
       [py "m1"; py "m2"; py "m3"]
     = ([(py "m3", py "review by m3"); (py "m2", []);
         (py "m1", py "review by m1")],
        [(py "m2", py "timeout")])
  /\ (size [(py "m3", py "review by m3"); (py "m2", []);
            (py "m1", py "review by m1")]
      = List.length [py "m1"; py "m2"; py "m3"]
      /\ Permutation
           (keys [(py "m3", py "review by m3"); (py "m2", []);
                  (py "m1", py "review by m1")])
           [py "m1"; py "m2"; py "m3"]
      /\ [(py "m2", py "timeout")]
         = [(py "m2", exn_msg (Exn OtherException (py "timeout")))]
      /\ get [(py "m3", py "review by m3"); (py "m2", []);
              (py "m1", py "review by m1")] (py "m2") = Some []
      /\ (forall m out, In m [py "m1"; py "m2"; py "m3"] ->
                        second_fails m = Return out ->
                        get [(py "m3", py "review by m3"); (py "m2", []);
                             (py "m1", py "review by m1")] m
                        = Some (or_empty out))
      /\ (forall k, In k (keys [(py "m2", py "timeout")]) ->
                    In k (keys [(py "m3", py "review by m3"); (py "m2", []);
                                (py "m1", py "review by m1")]))
      /\ (forall m, In m [py "m1"; py "m2"; py "m3"] ->
                    (get [(py "m2", py "timeout")] m = None
                     <-> returns (second_fails m) = true))).
Proof.
  assert (Hnd : NoDup [py "m1"; py "m2"; py "m3"]).
  { repeat constructor; simpl; intros H;
      repeat (destruct H as [H|H]; [discriminate H|]); exact H. }
  assert (Hok : forall m, In m [py "m1"; py "m2"; py "m3"] -> m <> py "m2" ->
                          returns (second_fails m) = true).
  { intros m [<-|[<-|[<-|[]]]] Hne; try reflexivity. congruence. }
  split; [exact last_first_permutation|].
  split; [exact Hnd|]. split; [right; left; reflexivity|].
  split; [reflexivity|]. split; [exact Hok|]. split; [reflexivity|].
  apply (one_failure_is_isolated second_fails last_first
           last_first_permutation true [py "m1"; py "m2"; py "m3"]
           (py "m2") (Exn OtherException (py "timeout")) _ _
           Hnd (or_intror (or_introl eq_refl)) eq_refl Hok eq_refl).
Defined.

(** C7 fails as it is stated: a model that returns an empty completion
    has succeeded, and its entry in the result map is empty. *)
Lemma all_succeed_nonempty_counterexample :
  (forall m, In m [py "m1"] -> returns (answers_nothing m) = true)
  /\ on_review_run_models answers_nothing last_first false [py "m1"]
     = ([(py "m1", [])], [])
  /\ ~ (forall k v,
          In (k, v) (items (fst (on_review_run_models answers_nothing
                                   last_first false [py "m1"]))) ->
          v <> []).
Proof.
  split; [reflexivity|]. split; [reflexivity|].
  intros H. apply (H (py "m1") []); [left|]; reflexivity.
Qed.

Lemma all_succeed_all_recorded_witness :
  (forall futs, Permutation (last_first futs) futs)
  /\ NoDup [py "m1"; py "m3"]
  /\ (forall m, In m [py "m1"; py "m3"] -> returns (second_fails m) = true)
  /\ on_review_run_models second_fails last_first true [py "m1"; py "m3"]
     = ([(py "m3", py "review by m3"); (py "m1", py "review by m1")], [])
  /\ (size [(py "m3", py "review by m3"); (py "m1", py "review by m1")]
      = List.length [py "m1"; py "m3"]
      /\ Permutation
           (keys [(py "m3", py "review by m3"); (py "m1", py "review by m1")])
           [py "m1"; py "m3"]
      /\ (forall m out, In m [py "m1"; py "m3"] ->
                        second_fails m = Return out ->
                        get [(py "m3", py "review by m3");
                             (py "m1", py "review by m1")] m
                        = Some (or_empty out)
                        /\ (or_empty out <> []
                            <-> get [(py "m3", py "review by m3");
                                     (py "m1", py "review by m1")] m
                                <> Some []))
      /\ @nil (str * str) = []).
Proof.
  assert (Hnd : NoDup [py "m1"; py "m3"]).
  { repeat constructor; simpl; intros H;
      repeat (destruct H as [H|H]; [discriminate H|]); exact H. }
  assert (Hok : forall m, In m [py "m1"; py "m3"] ->
                          returns (second_fails m) = true).
  { intros m [<-|[<-|[]]]; reflexivity. }
  split; [exact last_first_permutation|].
  split; [exact Hnd|]. split; [exact Hok|]. split; [reflexivity|].
  apply (all_succeed_all_recorded second_fails last_first
           last_first_permutation true [py "m1"; py "m3"] _ _
           Hnd Hok eq_refl).
Defined.

End OrchestratorFacts.

(** ** file_history_tab.py: the synthesis *)

Module SynthesisFacts.
Import Py Exc Dict Orchestrator Synthesis PyFacts DictFacts OrchestratorFacts.

Section WithGateway.
Context {G : Gateway}.

(** Once the client is built, the reducer makes one call, to the base
    model, and returns what the call returns or raises what it raises. *)
Lemma synthesize_one_call (pr : prompts) (base_model : str)
    (summaries_by_model : dict (option str)) (hm : header_meta)
    (log : list chat_call) (u : unit) :
  make_client = Return u ->
  synthesize_file_history_with_base pr base_model summaries_by_model hm log
  = (chat_completion
       (mk_chat_call base_model
          (synthesis_messages pr hm summaries_by_model)),
     log ++ [mk_chat_call base_model
               (synthesis_messages pr hm summaries_by_model)]).
Proof.
  intros Hclient.
  unfold synthesize_file_history_with_base, mbind, lift, create, ret.
  rewrite Hclient.
  destruct (chat_completion _); reflexivity.
Qed.

(** Without a client, no call is made. *)
Lemma synthesize_without_client (pr : prompts) (base_model : str)
    (summaries_by_model : dict (option str)) (hm : header_meta)
    (log : list chat_call) (e : exn) :
  make_client = Raise e ->
  synthesize_file_history_with_base pr base_model summaries_by_model hm log
  = (Raise e, log).
Proof.
  intros Hclient.
  unfold synthesize_file_history_with_base, mbind, lift.
  rewrite Hclient. reflexivity.
Qed.

Lemma collect_srcs_all_empty (summaries_by_model : dict (option str)) :
  all_empty summaries_by_model -> collect_srcs (items summaries_by_model) = [].
Proof.
  unfold all_empty, items.
  induction summaries_by_model as [|[m content] d IH]; intros Hall;
    [reflexivity|].
  simpl. rewrite (Hall m content) by (left; reflexivity).
  apply IH. intros k v Hin. apply (Hall k v). right. exact Hin.
Qed.

(** The sources are the entries of the dict that are not empty, in
    the order of the dict. *)
Lemma collect_srcs_filter (d : dict (option str)) :
  collect_srcs (items d)
  = List.map (fun kv => py "### Model: " ++ fst kv ++ [LF] ++ or_empty (snd kv))
             (List.filter (fun kv => content_truthy (snd kv)) (items d)).
Proof.
  unfold items. induction d as [|[m content] d IH]; [reflexivity|].
  simpl. destruct (content_truthy content); simpl; rewrite IH; reflexivity.
Qed.

(** C9. When every entry of the result map is empty, the reducer, once
    its client is built, makes one call to the base model, whose last
    message is [No sources.] in the place of the sources; the reducer
    raises nothing of its own: what the call returns is the artifact
    it returns. *)
Theorem all_empty_sends_no_sources (pr : prompts) (base_model : str)
    (summaries_by_model : dict (option str)) (hm : header_meta)
    (log : list chat_call) :
  all_empty summaries_by_model ->
  make_client = Return tt ->
  exists call : chat_call,
    synthesize_file_history_with_base pr base_model summaries_by_model hm log
    = (chat_completion call, log ++ [call])
    /\ call_model call = base_model
    /\ call_messages call
       = [ mk_message (py "system") (p_system pr);
           user_message (p_template pr);
           user_message (join [LF] (header_lines hm (p_hint pr)));
           user_message synth_user;
           user_message no_sources ]
    /\ (forall artifact,
          chat_completion call = Return artifact ->
          fst (synthesize_file_history_with_base pr base_model
                 summaries_by_model hm log)
          = Return artifact).
Proof.
  intros Hempty Hclient.
  exists (mk_chat_call base_model (synthesis_messages pr hm summaries_by_model)).
  rewrite (synthesize_one_call pr base_model summaries_by_model hm log tt Hclient).
  split; [reflexivity|]. split; [reflexivity|]. split.
  - simpl. unfold synthesis_messages.
    rewrite (collect_srcs_all_empty _ Hempty). reflexivity.
  - intros artifact Hret. simpl. exact Hret.
Qed.

(** *** The order of the sources *)

(** In both modes the sources follow the order in which the tasks were
    recorded: the caller's order in sequential mode, the order of
    completion in parallel mode. *)
Lemma synthesis_sources_order
    (invoke : str -> outcome (option str))
    (as_completed : list (str * run_result) -> list (str * run_result))
    (parallel : bool) (models : list str) (pr : prompts) (hm : header_meta)
    (log : list chat_call) :
  (forall futs, Permutation (as_completed futs) futs) ->
  NoDup models ->
  make_client = Return tt ->
  file_history_synthesis invoke as_completed parallel models pr hm log
  = (chat_completion
       (mk_chat_call base_model_name
          (synthesis_messages pr hm
             (List.map history_entry
                (recorded invoke as_completed parallel models)))),
     log ++ [mk_chat_call base_model_name
               (synthesis_messages pr hm
                  (List.map history_entry
                     (recorded invoke as_completed parallel models)))]).
Proof.
  intros Hperm Hnd Hclient. unfold file_history_synthesis.
  rewrite (file_history_run_models_entries invoke as_completed Hperm
             parallel models Hnd).
  apply (synthesize_one_call _ _ _ _ _ tt Hclient).
Qed.

(** Sequential mode: the sources are in the caller's order. *)
Lemma sequential_synthesis_in_caller_order
    (invoke : str -> outcome (option str))
    (as_completed : list (str * run_result) -> list (str * run_result))
    (models : list str) (pr : prompts) (hm : header_meta)
    (log : list chat_call) :
  NoDup models ->
  make_client = Return tt ->
  exists call : chat_call,
    file_history_synthesis invoke as_completed false models pr hm log
    = (chat_completion call, log ++ [call])
    /\ call_model call = base_model_name
    /\ last (call_messages call) (user_message [])
       = user_message (sources_text (caller_order_srcs invoke models)).
Proof.
  intros Hnd Hclient. unfold file_history_synthesis.
  assert (Hrun : file_history_run_models invoke as_completed false models
                 = (List.map history_entry (List.map (run_one invoke) models),
                    error_entries (List.map (run_one invoke) models))).
  { unfold file_history_run_models. rewrite fold_left_map.
    rewrite (fold_record _ history_entry record_history
               (fun r => eq_refl) record_history_spec).
    - reflexivity.
    - rewrite run_one_names. exact Hnd.
    - simpl; tauto.
    - simpl; tauto. }
  rewrite Hrun.
  rewrite (synthesize_one_call _ _ _ _ _ tt Hclient).
  eexists. split; [reflexivity|]. split; [reflexivity|].
  simpl. unfold caller_order_srcs, items. rewrite map_map. reflexivity.
Qed.

End WithGateway.

(** *** The theorems at work on examples *)

Lemma all_empty_sends_no_sources_witness :
  all_empty [(py "m1", Some []); (py "m2", None)]
  /\ @make_client example_gateway = Return tt
  /\ exists call : chat_call,
       @synthesize_file_history_with_base example_gateway example_prompts
         base_model_name [(py "m1", Some []); (py "m2", None)]
         example_header_meta []
       = (@chat_completion example_gateway call, [] ++ [call])
       /\ call_model call = base_model_name
       /\ call_messages call
          = [ mk_message (py "system") (p_system example_prompts);
              user_message (p_template example_prompts);
              user_message (join [LF] (header_lines example_header_meta
                                         (p_hint example_prompts)));
              user_message synth_user;
              user_message no_sources ]
       /\ (forall artifact,
             @chat_completion example_gateway call = Return artifact ->
             fst (@synthesize_file_history_with_base example_gateway
                    example_prompts base_model_name
                    [(py "m1", Some []); (py "m2", None)]
                    example_header_meta [])
             = Return artifact).
Proof.
  assert (Hempty : all_empty [(py "m1", Some []); (py "m2", None)]).
  { intros k v [[= <- <-]|[[= <- <-]|[]]]; reflexivity. }
  split; [exact Hempty|]. split; [reflexivity|].
  apply (@all_empty_sends_no_sources example_gateway example_prompts
           base_model_name [(py "m1", Some []); (py "m2", None)]
           example_header_meta [] Hempty eq_refl).
Defined.

(** On the example gateway the artifact is the marker itself. *)
Example all_empty_artifact :
  fst (@synthesize_file_history_with_base example_gateway example_prompts
         base_model_name [(py "m1", Some []); (py "m2", None)]
         example_header_meta [])
  = Return (Some (py "No sources.")).
Proof. reflexivity. Qed.

(** The failing input of C2: two models, parallel mode, the second
    model finishes first. The sources go to the base model in the
    order of completion, [m2] before [m1], not in the caller's order;
    when the first model finishes first, the caller's order comes out:
    the input of the synthesis follows the scheduling. *)
Theorem parallel_synthesis_follows_completion_order :
  fst (@file_history_synthesis example_gateway two_answers last_first true
         [py "m1"; py "m2"] example_prompts example_header_meta [])
  = Return (Some (py "### Model: m2" ++ [LF] ++ py "B" ++ [LF; LF]
                  ++ py "### Model: m1" ++ [LF] ++ py "A"))
  /\ fst (@file_history_synthesis example_gateway two_answers (fun futs => futs)
            true [py "m1"; py "m2"] example_prompts example_header_meta [])
     = Return (Some (py "### Model: m1" ++ [LF] ++ py "A" ++ [LF; LF]
                     ++ py "### Model: m2" ++ [LF] ++ py "B"))
  /\ sources_text (caller_order_srcs two_answers [py "m1"; py "m2"])
     = py "### Model: m1" ++ [LF] ++ py "A" ++ [LF; LF]
       ++ py "### Model: m2" ++ [LF] ++ py "B"
  /\ fst (@file_history_synthesis example_gateway two_answers last_first true
            [py "m1"; py "m2"] example_prompts example_header_meta [])
     <> Return (Some (sources_text
                        (caller_order_srcs two_answers [py "m1"; py "m2"]))).
Proof.
  split; [reflexivity|]. split; [reflexivity|]. split; [reflexivity|].
  vm_compute. discriminate.
Qed.

End SynthesisFacts.

(** ** diff_utils.py: the budget of [chunk_text] *)

Module ChunkBudgetFacts.
Import Py DiffUtils PyFacts ChunkFacts ChunkBudget.

Lemma greedy_app_one (max_chars : Z) (gs : list (list str)) (g h : list str) :
  greedy max_chars (gs ++ [g]) ->
  (max_chars < total_len g + len (first_line h))%Z ->
  greedy max_chars ((gs ++ [g]) ++ [h]).
Proof.
  intros Hg Hlt. induction gs as [|x gs IH].
  - simpl. auto.
  - destruct gs as [|y gs].
    + simpl in *. tauto.
    + change (greedy max_chars (x :: (y :: gs ++ [g]) ++ [h])).
      change (greedy max_chars (x :: y :: gs ++ [g])) in Hg.
      destruct Hg as [Hxy Hrest]. split; [exact Hxy|].
      apply IH. exact Hrest.
Qed.

Lemma greedy_grow_last (max_chars : Z) (gs : list (list str))
    (g more : list str) :
  g <> [] ->
  greedy max_chars (gs ++ [g]) ->
  greedy max_chars (gs ++ [g ++ more]).
Proof.
  intros Hne. induction gs as [|x gs IH]; intros Hg.
  - exact I.
  - destruct gs as [|y gs].
    + simpl in *. destruct g as [|l g]; [congruence|]. exact Hg.
    + change (greedy max_chars (x :: y :: gs ++ [g])) in Hg.
      change (greedy max_chars (x :: y :: gs ++ [g ++ more])).
      destruct Hg as [Hxy Hrest]. split; [exact Hxy|]. apply IH, Hrest.
Qed.

Lemma budget_inv_init (max_chars : Z) :
  budget_inv max_chars [] ([], [], 0%Z).
Proof.
  apply (mk_budget_inv _ _ _ []); simpl; auto.
Qed.

Lemma budget_inv_step (max_chars : Z) (read : list str) (st : chunk_state)
    (ln : str) :
  budget_inv max_chars read st ->
  budget_inv max_chars (read ++ [ln]) (chunk_step max_chars st ln).
Proof.
  destruct st as [[parts cur] size].
  intros [gs Hparts Hread Hsize Hne Hnil Hfit Hgr]; simpl in *.
  destruct ((size + len ln >? max_chars)%Z && truthy cur) eqn:Hflush.
  - apply andb_true_iff in Hflush. destruct Hflush as [Hover Hcur].
    rewrite Z.gtb_ltb in Hover. apply Z.ltb_lt in Hover.
    unfold with_open in Hfit, Hgr. rewrite Hcur in Hfit, Hgr.
    apply truthy_true in Hcur.
    apply (mk_budget_inv _ _ _ (gs ++ [cur])); simpl.
    + rewrite map_app, Hparts. reflexivity.
    + rewrite concat_app; simpl. rewrite app_nil_r, Hread. reflexivity.
    + rewrite total_len_single. reflexivity.
    + apply Forall_app; split; auto.
    + discriminate.
    + unfold with_open; simpl. apply Forall_app; split; [exact Hfit|].
      constructor; [right; eexists; reflexivity|constructor].
    + unfold with_open; simpl. apply greedy_app_one; [exact Hgr|].
      simpl. rewrite <- Hsize. lia.
  - apply (mk_budget_inv _ _ _ gs); simpl; auto.
    + rewrite app_assoc, Hread. reflexivity.
    + rewrite total_len_app, total_len_single, Hsize. reflexivity.
    + intros E. destruct cur; discriminate E.
    + unfold with_open in *.
      replace (truthy (cur ++ [ln])) with true by (destruct cur; reflexivity).
      destruct cur as [|l cur].
      * simpl in *. rewrite (Hnil eq_refl). simpl.
        constructor; [right; eexists; reflexivity|constructor].
      * simpl truthy in Hfit. cbv iota in Hfit.
        apply Forall_app in Hfit. destruct Hfit as [Hgs _].
        apply Forall_app; split; [exact Hgs|].
        constructor; [|constructor]. left.
        apply andb_false_iff in Hflush. destruct Hflush as [Hok|Hc];
          [|discriminate Hc].
        rewrite Z.gtb_ltb in Hok. apply Z.ltb_ge in Hok.
        rewrite total_len_app, total_len_single, <- Hsize. exact Hok.
    + unfold with_open in *.
      replace (truthy (cur ++ [ln])) with true by (destruct cur; reflexivity).
      destruct cur as [|l cur].
      * rewrite (Hnil eq_refl). exact I.
      * simpl truthy in Hgr. cbv iota in Hgr.
        apply greedy_grow_last; [discriminate|exact Hgr].
Qed.

Lemma budget_inv_fold (max_chars : Z) (lines read : list str)
    (st : chunk_state) :
  budget_inv max_chars read st ->
  budget_inv max_chars (read ++ lines)
    (fold_left (chunk_step max_chars) lines st).
Proof.
  revert read st; induction lines as [|ln lines IH]; intros read st Hinv.
  - simpl. rewrite app_nil_r. exact Hinv.
  - simpl. change (ln :: lines) with ([ln] ++ lines). rewrite app_assoc.
    apply IH, budget_inv_step, Hinv.
Qed.

(** The groups behind the chunks, with their sizes. *)
Lemma chunk_lines_budget (lines : list str) (max_chars : Z) :
  exists groups : list (list str),
    List.concat groups = lines
    /\ chunk_lines lines max_chars = List.map (@List.concat char) groups
    /\ Forall (fun g => g <> []) groups
    /\ Forall (fits max_chars) groups
    /\ greedy max_chars groups.
Proof.
  pose proof (budget_inv_fold max_chars lines [] _ (budget_inv_init max_chars))
    as Hinv.
  unfold chunk_lines.
  destruct (fold_left (chunk_step max_chars) lines ([], [], 0%Z))
    as [[parts cur] size].
  destruct Hinv as [gs Hparts Hread Hsize Hne Hnil Hfit Hgr]; simpl in *.
  unfold with_open in *.
  destruct cur as [|l cur]; simpl in *.
  - exists gs. rewrite app_nil_r in Hread. auto.
  - exists (gs ++ [l :: cur]). split; [|split; [|split; [|split]]]; auto.
    + rewrite concat_app; simpl. rewrite app_nil_r. exact Hread.
    + rewrite map_app, Hparts. reflexivity.
    + apply Forall_app; split; auto. constructor; [discriminate|constructor].
Qed.

(** X1. Every chunk of [chunk_text s max_chars] is at most
    [max_chars] characters long, unless it is one single line of [s]
    (a line longer than the budget). *)
Theorem chunk_text_within_budget (s : str) (max_chars : Z) (chunk : str) :
  In chunk (chunk_text s max_chars) ->
  (len chunk <= max_chars)%Z \/ In chunk (splitlines true s).
Proof.
  destruct (chunk_lines_budget (splitlines true s) max_chars)
    as (gs & Hcat & Hchunks & _ & Hfit & _).
  unfold chunk_text. rewrite Hchunks. intros Hin.
  apply in_map_iff in Hin. destruct Hin as (g & <- & Hg).
  rewrite Forall_forall in Hfit.
  destruct (Hfit g Hg) as [Hle|(ln & ->)]; [left; exact Hle|right].
  simpl. rewrite app_nil_r. rewrite <- Hcat.
  apply in_concat. exists [ln]. split; [exact Hg|left; reflexivity].
Qed.

Lemma chunk_text_within_budget_witness :
  In (py "ab" ++ [LF])
     (chunk_text (py "ab" ++ [LF] ++ py "cdefgh" ++ [LF] ++ py "i") 4)
  /\ ((len (py "ab" ++ [LF]) <= 4)%Z
      \/ In (py "ab" ++ [LF])
            (splitlines true
               (py "ab" ++ [LF] ++ py "cdefgh" ++ [LF] ++ py "i"))).
Proof.
  assert (H : In (py "ab" ++ [LF])
                (chunk_text
                   (py "ab" ++ [LF] ++ py "cdefgh" ++ [LF] ++ py "i") 4))
    by (left; reflexivity).
  split; [exact H|]. apply (chunk_text_within_budget _ 4 _ H).
Defined.

Lemma greedy_middle (max_chars : Z) (pre : list (list str))
    (g h : list str) (post : list (list str)) :
  greedy max_chars (pre ++ g :: h :: post) ->
  (max_chars < total_len g + len (first_line h))%Z.
Proof.
  induction pre as [|x pre IH]; intros Hg.
  - simpl in Hg. tauto.
  - apply IH. destruct pre as [|y pre]; simpl in Hg |- *; tauto.
Qed.

Lemma map_eq_middle {A B} (f : A -> B) (l : list A) (pre : list B)
    (x y : B) (post : list B) :
  List.map f l = pre ++ x :: y :: post ->
  exists lpre a b lpost,
    l = lpre ++ a :: b :: lpost /\ f a = x /\ f b = y.
Proof.
  revert l; induction pre as [|p pre IH]; intros l E.
  - destruct l as [|a [|b l]]; try discriminate.
    injection E as <- <- _. exists [], a, b, l. auto.
  - destruct l as [|a l]; [discriminate|]. injection E as _ E.
    destruct (IH l E) as (lpre & a' & b' & lpost & -> & Ha & Hb).
    exists (a :: lpre), a', b', lpost. auto.
Qed.

(** X2. The chunks are filled greedily: when a chunk is followed by
    another one, the first line of the second one would not have
    fitted in the first one. *)
Theorem chunk_text_greedy (s : str) (max_chars : Z)
    (before : list str) (c1 c2 : str) (after : list str) :
  chunk_text s max_chars = before ++ c1 :: c2 :: after ->
  exists ln rest,
    c2 = ln ++ rest
    /\ In ln (splitlines true s)
    /\ (max_chars < len c1 + len ln)%Z.
Proof.
  destruct (chunk_lines_budget (splitlines true s) max_chars)
    as (gs & Hcat & Hchunks & Hne & _ & Hgr).
  unfold chunk_text. rewrite Hchunks. intros E.
  destruct (map_eq_middle _ _ _ _ _ _ E)
    as (lpre & g & h & lpost & -> & <- & <-).
  pose proof (greedy_middle _ _ _ _ _ Hgr) as Hlt.
  rewrite Forall_forall in Hne.
  assert (Hh : h <> []).
  { apply Hne. apply in_or_app. right. right. left. reflexivity. }
  destruct h as [|ln h]; [congruence|].
  exists ln, (List.concat h). split; [reflexivity|]. split.
  - rewrite <- Hcat. apply in_concat. exists (ln :: h).
    split; [|left; reflexivity].
    apply in_or_app. right. right. left. reflexivity.
  - exact Hlt.
Qed.

Lemma chunk_text_greedy_witness :
  chunk_text (py "ab" ++ [LF] ++ py "cd" ++ [LF] ++ py "e") 4
  = [] ++ (py "ab" ++ [LF]) :: (py "cd" ++ [LF] ++ py "e") :: []
  /\ exists ln rest,
       py "cd" ++ [LF] ++ py "e" = ln ++ rest
       /\ In ln (splitlines true
                   (py "ab" ++ [LF] ++ py "cd" ++ [LF] ++ py "e"))
       /\ (4 < len (py "ab" ++ [LF]) + len ln)%Z.
Proof.
  split; [reflexivity|].
  apply (chunk_text_greedy _ 4 [] _ _ []). reflexivity.
Defined.

(** X3. No chunk is empty, and there is no chunk at all exactly when
    the text is empty. *)
Theorem chunk_text_no_empty_chunk (s : str) (max_chars : Z) :
  Forall (fun c => c <> []) (chunk_text s max_chars)
  /\ (chunk_text s max_chars = [] <-> s = []).
Proof.
  split; [apply chunk_text_nonempty_chunks|].
  destruct (chunk_text_any_budget s max_chars) as (gs & _ & _ & _ & _ & Hs).
  split.
  - intros E. rewrite E in Hs. simpl in Hs. congruence.
  - intros ->. reflexivity.
Qed.

(** X4. A text that is not empty and fits the budget comes back as
    one chunk, the text itself. *)
Theorem chunk_text_short_text (s : str) (max_chars : Z) :
  s <> [] -> (len s <= max_chars)%Z -> chunk_text s max_chars = [s].
Proof.
  intros Hs Hlen.
  destruct (chunk_lines_budget (splitlines true s) max_chars)
    as (gs & Hcat & Hchunks & Hne & _ & Hgr).
  pose proof (splitlines_keepends_concat s) as Hlines.
  unfold chunk_text. rewrite Hchunks.
  assert (Htotal : List.concat (List.concat gs) = s) by (rewrite Hcat; exact Hlines).
  destruct gs as [|g [|h gs]].
  - simpl in Htotal. congruence.
  - simpl in *. rewrite app_nil_r in Htotal. rewrite Htotal. reflexivity.
  - exfalso. simpl in Hgr. destruct Hgr as [Hlt _].
    pose proof (Forall_inv (Forall_inv_tail Hne)) as Hh.
    destruct h as [|ln h]; [congruence|].
    simpl in Hlt, Htotal.
    rewrite !concat_app in Htotal. simpl in Htotal.
    apply (f_equal (@List.length char)) in Htotal.
    rewrite !length_app in Htotal.
    unfold total_len, len in *. lia.
Qed.

Lemma chunk_text_short_text_witness :
  py "ab" ++ [LF] ++ py "c" <> []
  /\ (len (py "ab" ++ [LF] ++ py "c") <= 4)%Z
  /\ chunk_text (py "ab" ++ [LF] ++ py "c") 4 = [py "ab" ++ [LF] ++ py "c"].
Proof.
  split; [discriminate|]. split; [vm_compute; discriminate|].
  apply chunk_text_short_text; [discriminate|vm_compute; discriminate].
Defined.

End ChunkBudgetFacts.

(** ** ui.py: the two maps and the report, model by model *)

Module OutcomesFacts.
Import Py Exc Dict Orchestrator Synthesis Outcomes.
Import PyFacts DictFacts OrchestratorFacts.

Section WithBackends.
Variable invoke : str -> outcome (option str).
Variable as_completed : list (str * run_result) -> list (str * run_result).
Hypothesis as_completed_permutation :
  forall futs, Permutation (as_completed futs) futs.

Lemma review_entry_run_one (m : str) :
  snd (review_entry (run_one invoke m)) = result_of invoke m.
Proof. unfold review_entry, run_one, result_of. destruct (invoke m); reflexivity. Qed.

Lemma error_entries_NoDup (rs : list (str * run_result)) :
  NoDup (List.map fst rs) -> NoDup (keys (error_entries rs)).
Proof.
  induction rs as [|[m r] rs IH]; simpl; intros Hnd; [constructor|].
  inversion Hnd as [|? ? Hm Hnd']; subst.
  destruct r as [out|e]; simpl; [auto|].
  constructor; [|auto].
  intros Hin. apply Hm. apply error_entries_keys. exact Hin.
Qed.

Lemma error_entries_In (rs : list (str * run_result)) (m msg : str) :
  In (m, msg) (error_entries rs)
  <-> exists e, In (m, Failure e) rs /\ msg = exn_msg e.
Proof.
  unfold error_entries. rewrite in_flat_map. split.
  - intros ([m' r] & Hin & Hr). simpl in Hr.
    destruct r as [out|e]; simpl in Hr; [tauto|].
    destruct Hr as [[= <- <-]|[]]. exists e. auto.
  - intros (e & Hin & ->). exists (m, Failure e).
    split; [exact Hin|left; reflexivity].
Qed.

Lemma recorded_In (parallel : bool) (models : list str) (r : str * run_result) :
  In r (recorded invoke as_completed parallel models)
  <-> exists m, In m models /\ r = run_one invoke m.
Proof.
  pose proof (recorded_permutation invoke as_completed
                as_completed_permutation parallel models) as Hp.
  split.
  - intros Hin. apply (Permutation_in _ Hp) in Hin.
    apply in_map_iff in Hin. destruct Hin as (m & <- & Hm). eauto.
  - intros (m & Hm & ->).
    apply (Permutation_in _ (Permutation_sym Hp)). apply in_map, Hm.
Qed.

(** The entry of a model in the error map. *)
Lemma errors_get (parallel : bool) (models : list str) (m : str) :
  NoDup models -> In m models ->
  get (error_entries (recorded invoke as_completed parallel models)) m
  = error_of invoke m.
Proof.
  intros Hnd Hin.
  pose proof (recorded_NoDup invoke as_completed as_completed_permutation
                parallel models Hnd) as Hnd'.
  unfold error_of. destruct (invoke m) as [out|e] eqn:Hm.
  - apply get_None. intros Hk. unfold keys in Hk.
    apply in_map_iff in Hk. destruct Hk as ([m' msg] & Hfst & Hk).
    simpl in Hfst. subst m'.
    apply error_entries_In in Hk. destruct Hk as (e & Hk & _).
    apply recorded_In in Hk. destruct Hk as (m' & _ & Hr).
    unfold run_one in Hr. destruct (invoke m') eqn:Hm'; inversion Hr; subst.
    congruence.
  - apply get_In; [apply error_entries_NoDup, Hnd'|].
    apply error_entries_In. exists e. split; [|reflexivity].
    apply recorded_In. exists m. split; [exact Hin|].
    unfold run_one. rewrite Hm. reflexivity.
Qed.

(** X5. Whatever the number of failures, in both modes and for every
    order of completion: the result map has one entry per selected
    model, the output of the model or the empty string when its call
    raised; the error map has an entry exactly for the models whose
    call raised, with the message of the exception; in sequential
    mode the keys of the result map are in the order of the
    selection. *)
Theorem results_and_errors_by_model (parallel : bool) (models : list str)
    (results errors : dict str) :
  NoDup models ->
  on_review_run_models invoke as_completed parallel models
  = (results, errors) ->
  size results = List.length models
  /\ Permutation (keys results) models
  /\ (parallel = false -> keys results = models)
  /\ (forall m, In m models ->
                get results m = Some (result_of invoke m)
                /\ get errors m = error_of invoke m)
  /\ (forall k, In k (keys errors) -> In k models).
Proof.
  intros Hnd Hrun.
  rewrite (on_review_run_models_entries invoke as_completed
             as_completed_permutation parallel models Hnd) in Hrun.
  injection Hrun as <- <-.
  assert (Hkeys : keys (List.map review_entry
                          (recorded invoke as_completed parallel models))
                  = List.map fst (recorded invoke as_completed parallel models))
    by apply review_keys.
  split.
  { unfold size. rewrite length_map.
    rewrite (Permutation_length
               (recorded_permutation invoke as_completed
                  as_completed_permutation parallel models)).
    apply length_map. }
  split.
  { rewrite Hkeys. apply recorded_names, as_completed_permutation. }
  split.
  { intros ->. rewrite Hkeys. apply run_one_names. }
  split.
  { intros m Hm. split.
    - rewrite (results_get invoke as_completed as_completed_permutation
                 parallel models m Hnd Hm).
      rewrite review_entry_run_one. reflexivity.
    - apply errors_get; assumption. }
  intros k Hk. apply error_entries_keys in Hk.
  apply (Permutation_in _ (recorded_names invoke as_completed
                             as_completed_permutation parallel models)).
  exact Hk.
Qed.

(** X6. The sections of the report follow the order of the selection,
    not the order of completion: one section per selected model, in
    the caller's order, each with the entry of its own model. *)
Theorem report_sections_in_caller_order (parallel : bool)
    (models : list str) :
  NoDup models ->
  report_sections models
    (fst (on_review_run_models invoke as_completed parallel models))
  = List.map (fun m => (m, result_of invoke m)) models.
Proof.
  intros Hnd.
  rewrite (on_review_run_models_entries invoke as_completed
             as_completed_permutation parallel models Hnd).
  unfold report_sections. simpl fst.
  apply map_ext_in. intros m Hm.
  rewrite (results_get invoke as_completed as_completed_permutation
             parallel models m Hnd Hm).
  rewrite review_entry_run_one. reflexivity.
Qed.

Lemma collect_srcs_flat_map (d : list (str * option str)) :
  collect_srcs d = flat_map src_of d.
Proof.
  induction d as [|[m content] d IH]; [reflexivity|].
  simpl. unfold src_of at 1. simpl.
  destruct (content_truthy content); simpl; rewrite IH; reflexivity.
Qed.

Lemma caller_order_srcs_In (models : list str) (src : str) :
  In src (caller_order_srcs invoke models)
  <-> exists m out,
        In m models /\ invoke m = Return (Some out) /\ out <> []
        /\ src = py "### Model: " ++ m ++ [LF] ++ out.
Proof.
  unfold caller_order_srcs. rewrite collect_srcs_flat_map, in_flat_map.
  split.
  - intros ([m content] & Hin & Hsrc).
    apply in_map_iff in Hin. destruct Hin as (m' & Hentry & Hm').
    unfold history_entry, run_one in Hentry.
    unfold src_of in Hsrc. simpl in Hsrc.
    destruct (invoke m') as [out|e] eqn:Hinv; simpl in Hentry;
      injection Hentry as <- <-.
    + destruct out as [out|]; simpl in Hsrc; [|tauto].
      destruct out as [|c out]; simpl in Hsrc; [tauto|].
      destruct Hsrc as [<-|[]].
      exists m', (c :: out). split; [exact Hm'|].
      split; [exact Hinv|]. split; [discriminate|reflexivity].
    + simpl in Hsrc. tauto.
  - intros (m & out & Hm & Hinv & Hne & ->).
    exists (history_entry (run_one invoke m)). split.
    + apply in_map_iff. exists m. auto.
    + unfold history_entry, run_one, src_of. rewrite Hinv. simpl.
      destruct out; [congruence|]. left. reflexivity.
Qed.

(** X7. In both modes the reducer is given one source per selected
    model that returned an output that is not empty, and no source
    for a model that failed or returned nothing: the order of
    completion permutes the sources, it neither drops nor repeats
    one. *)
Theorem synthesis_sources_by_model (parallel : bool) (models : list str) :
  NoDup models ->
  Permutation
    (collect_srcs
       (items (fst (file_history_run_models invoke as_completed
                      parallel models))))
    (caller_order_srcs invoke models)
  /\ (forall src,
        In src (caller_order_srcs invoke models)
        <-> exists m out,
              In m models /\ invoke m = Return (Some out) /\ out <> []
              /\ src = py "### Model: " ++ m ++ [LF] ++ out).
Proof.
  intros Hnd. split; [|apply caller_order_srcs_In].
  rewrite (file_history_run_models_entries invoke as_completed
             as_completed_permutation parallel models Hnd).
  simpl fst. unfold caller_order_srcs, items.
  rewrite !collect_srcs_flat_map.
  apply Permutation_flat_map.
  rewrite <- (map_map (run_one invoke) history_entry).
  apply Permutation_map.
  apply (recorded_permutation invoke as_completed
           as_completed_permutation parallel models).
Qed.

End WithBackends.

Lemma three_models_NoDup : NoDup [py "m1"; py "m2"; py "m3"].
Proof.
  repeat constructor; simpl; intros H;
    repeat (destruct H as [H|H]; [discriminate H|]); exact H.
Qed.

Lemma results_and_errors_by_model_witness :
  (forall futs, Permutation (last_first futs) futs)
  /\ NoDup [py "m1"; py "m2"; py "m3"]
  /\ on_review_run_models second_fails last_first true
       [py "m1"; py "m2"; py "m3"]
     = ([(py "m3", py "review by m3"); (py "m2", []);
         (py "m1", py "review by m1")],
        [(py "m2", py "timeout")])
  /\ (size [(py "m3", py "review by m3"); (py "m2", []);
            (py "m1", py "review by m1")]
      = List.length [py "m1"; py "m2"; py "m3"]
      /\ Permutation
           (keys [(py "m3", py "review by m3"); (py "m2", []);
                  (py "m1", py "review by m1")])
           [py "m1"; py "m2"; py "m3"]
      /\ (true = false ->
          keys [(py "m3", py "review by m3"); (py "m2", []);
                (py "m1", py "review by m1")]
          = [py "m1"; py "m2"; py "m3"])
      /\ (forall m, In m [py "m1"; py "m2"; py "m3"] ->
                    get [(py "m3", py "review by m3"); (py "m2", []);
                         (py "m1", py "review by m1")] m
                    = Some (result_of second_fails m)
                    /\ get [(py "m2", py "timeout")] m
                       = error_of second_fails m)
      /\ (forall k, In k (keys [(py "m2", py "timeout")]) ->
                    In k [py "m1"; py "m2"; py "m3"])).
Proof.
  split; [exact last_first_permutation|].
  split; [exact three_models_NoDup|]. split; [reflexivity|].
  apply (results_and_errors_by_model second_fails last_first
           last_first_permutation true [py "m1"; py "m2"; py "m3"] _ _
           three_models_NoDup eq_refl).
Defined.

Lemma report_sections_in_caller_order_witness :
  (forall futs, Permutation (last_first futs) futs)
  /\ NoDup [py "m1"; py "m2"; py "m3"]
  /\ report_sections [py "m1"; py "m2"; py "m3"]
       (fst (on_review_run_models second_fails last_first true
               [py "m1"; py "m2"; py "m3"]))
     = List.map (fun m => (m, result_of second_fails m))
         [py "m1"; py "m2"; py "m3"].
Proof.
  split; [exact last_first_permutation|].
  split; [exact three_models_NoDup|].
  apply (report_sections_in_caller_order second_fails last_first
           last_first_permutation true _ three_models_NoDup).
Defined.

Lemma synthesis_sources_by_model_witness :
  (forall futs, Permutation (last_first futs) futs)
  /\ NoDup [py "m1"; py "m2"; py "m3"]
  /\ (Permutation
        (collect_srcs
           (items (fst (file_history_run_models second_fails last_first
                          true [py "m1"; py "m2"; py "m3"]))))
        (caller_order_srcs second_fails [py "m1"; py "m2"; py "m3"])
      /\ (forall src,
            In src (caller_order_srcs second_fails
                      [py "m1"; py "m2"; py "m3"])
            <-> exists m out,
                  In m [py "m1"; py "m2"; py "m3"]
                  /\ second_fails m = Return (Some out) /\ out <> []
                  /\ src = py "### Model: " ++ m ++ [LF] ++ out)).
Proof.
  split; [exact last_first_permutation|].
  split; [exact three_models_NoDup|].
  apply (synthesis_sources_by_model second_fails last_first
           last_first_permutation true _ three_models_NoDup).
Defined.

End OutcomesFacts.

(** ** github_api.py: the search in a text made of blocks *)

Module PipelineFacts.
Import Py Exc DiffUtils GithubApi Pipeline.
Import PyFacts HeaderFacts BlockFacts FilterFacts.

Lemma dot_run_closed (x s2 : str) :
  ends_LF x -> dot_run (x ++ s2) = dot_run x.
Proof.
  intros (p & ->). induction p as [|c p IH]; [reflexivity|].
  simpl. destruct (N.eqb c LF); [reflexivity|]. rewrite IH. reflexivity.
Qed.

Lemma match_header_closed (x s2 : str) :
  ends_LF x -> match_header (x ++ s2) = match_header x.
Proof.
  intros Hx. rewrite <- (match_header_dot_run (x ++ s2)).
  rewrite (dot_run_closed x s2 Hx). apply match_header_dot_run.
Qed.

Lemma ends_LF_tail (c d : char) (s : str) :
  ends_LF (c :: d :: s) -> ends_LF (d :: s).
Proof.
  intros (p & E). destruct p as [|x p]; [discriminate|].
  injection E as _ E. exists p. exact E.
Qed.

Lemma ends_LF_single (c : char) : ends_LF [c] -> c = LF.
Proof.
  intros (p & E). destruct p as [|x [|y p]]; try discriminate.
  injection E as ->. reflexivity.
Qed.

Lemma finditer_from_cons (skip pos : nat) (bol : bool) (c : char) (s : str) :
  finditer_from skip pos bol (c :: s)
  = match skip with
    | S k => finditer_from k (S pos) (N.eqb c LF) s
    | O =>
        if bol then
          match match_header (c :: s) with
          | Some (a, b) =>
              mk_header_match pos a b
              :: finditer_from (pred (match_length a b)) (S pos)
                   (N.eqb c LF) s
          | None => finditer_from 0 (S pos) (N.eqb c LF) s
          end
        else finditer_from 0 (S pos) (N.eqb c LF) s
    end.
Proof. reflexivity. Qed.

(** The search in a text that continues after an LF is the search
    before the LF followed by the search after it. *)
Lemma finditer_from_app (s1 : str) :
  forall s2 skip pos bol,
    ends_LF s1 ->
    skip <= List.length (dot_run s1) ->
    finditer_from skip pos bol (s1 ++ s2)
    = finditer_from skip pos bol s1
      ++ finditer_from 0 (pos + List.length s1) true s2.
Proof.
  induction s1 as [|c s1 IH]; intros s2 skip pos bol Hend Hskip.
  - destruct Hend as (p & E). destruct p; discriminate.
  - destruct s1 as [|d s1].
    + apply ends_LF_single in Hend. subst c.
      simpl in Hskip. assert (skip = 0) by lia. subst skip.
      change (List.length [LF]) with 1. rewrite Nat.add_1_r.
      destruct bol; reflexivity.
    + pose proof (ends_LF_tail _ _ _ Hend) as Hend'.
      assert (Hnext : forall k,
                 k <= List.length (dot_run (d :: s1)) ->
                 finditer_from k (S pos) (N.eqb c LF) ((d :: s1) ++ s2)
                 = finditer_from k (S pos) (N.eqb c LF) (d :: s1)
                   ++ finditer_from 0 (pos + List.length (c :: d :: s1))
                        true s2).
      { intros k Hk. rewrite (IH s2 k (S pos) (N.eqb c LF) Hend' Hk).
        f_equal. f_equal. simpl. lia. }
      rewrite <- app_comm_cons.
      assert (Hm : match_header (c :: (d :: s1) ++ s2)
                   = match_header (c :: d :: s1)).
      { rewrite app_comm_cons. apply match_header_closed, Hend. }
      rewrite (finditer_from_cons skip pos bol c ((d :: s1) ++ s2)).
      rewrite (finditer_from_cons skip pos bol c (d :: s1)).
      destruct skip as [|k].
      * destruct bol; [|apply Hnext; lia].
        rewrite Hm.
        destruct (match_header (c :: d :: s1)) as [[a b]|] eqn:Hh;
          [|apply Hnext; lia].
        destruct (match_header_run _ _ _ _ Hh) as [_ Hlen].
        cbn [app]. f_equal. apply Hnext, Hlen.
      * destruct (dot_run_cons_length _ _ _ Hskip) as [_ Hk].
        apply Hnext, Hk.
Qed.

Lemma finditer_blocks_concat (blocks : list str) :
  forall pos,
    chain_closed blocks ->
    finditer_from 0 pos true (List.concat blocks)
    = finditer_blocks pos blocks.
Proof.
  induction blocks as [|b rest IH]; intros pos Hc; [reflexivity|].
  destruct rest as [|b' rest].
  - simpl. rewrite !app_nil_r. reflexivity.
  - destruct Hc as [Hb Hrest].
    change (List.concat (b :: b' :: rest))
      with (b ++ List.concat (b' :: rest)).
    rewrite (finditer_from_app b _ 0 pos true Hb (Nat.le_0_l _)).
    rewrite (IH _ Hrest). reflexivity.
Qed.

(** Moving the text moves the matches. *)
Lemma finditer_from_shift (s : str) :
  forall skip pos bol,
    finditer_from skip pos bol s = shift pos (finditer_from skip 0 bol s).
Proof.
  induction s as [|c s IH]; intros skip pos bol; [reflexivity|].
  assert (Hnext : forall k,
             finditer_from k (S pos) (N.eqb c LF) s
             = shift pos (finditer_from k 1 (N.eqb c LF) s)).
  { intros k. rewrite (IH k (S pos)), (IH k 1). unfold shift.
    rewrite map_map. apply map_ext. intros m. simpl. f_equal. lia. }
  rewrite !finditer_from_cons. destruct skip as [|k]; [|apply Hnext].
  destruct bol; [|apply Hnext].
  destruct (match_header (c :: s)) as [[a b]|]; [|apply Hnext].
  unfold shift. rewrite map_cons. simpl m_start. simpl m_a. simpl m_b.
  rewrite Nat.add_0_r. f_equal. apply Hnext.
Qed.

(** *** The blocks of a diff *)

Lemma header_start_starts_line (D : str) (j : nat) :
  In j (header_starts D) -> j <= List.length D /\ starts_line (firstn j D).
Proof.
  unfold header_starts. rewrite in_map_iff. intros (m & <- & Hm).
  destruct (finditer_sound D m Hm) as (before & rest & HD & Hlen & Hst & _).
  rewrite <- Hlen. split.
  - rewrite HD, length_app. lia.
  - replace (firstn (List.length before) D) with before; [exact Hst|].
    rewrite HD, firstn_app, Nat.sub_diag, firstn_all. simpl.
    rewrite app_nil_r. reflexivity.
Qed.

Lemma slice_skipn_firstn (D : str) (i j : nat) :
  i <= j -> slice D i j = skipn i (firstn j D).
Proof.
  intros Hij. unfold slice. rewrite skipn_firstn_comm. reflexivity.
Qed.

Lemma slice_ends_LF (D : str) (i j : nat) :
  i < j -> j <= List.length D -> starts_line (firstn j D) ->
  ends_LF (slice D i j).
Proof.
  intros Hij Hj Hst. rewrite slice_skipn_firstn by lia.
  assert (Hlen : List.length (firstn j D) = j) by (apply firstn_length_le, Hj).
  destruct Hst as [E|(p & E)].
  - rewrite E in Hlen. simpl in Hlen. lia.
  - rewrite E in *. rewrite length_app in Hlen. simpl in Hlen.
    exists (skipn i p). rewrite skipn_app.
    replace (i - List.length p) with 0 by lia. reflexivity.
Qed.

Lemma slices_chain_closed (D : str) (starts : list nat) :
  StronglySorted lt starts ->
  Forall (fun j => j <= List.length D /\ starts_line (firstn j D)) starts ->
  chain_closed (slices D (starts ++ [List.length D])).
Proof.
  induction starts as [|i starts IH]; intros Hs Hall; [exact I|].
  inversion Hs as [|? ? Hs' Hlt]; subst.
  inversion Hall as [|? ? _ Hall']; subst.
  specialize (IH Hs' Hall').
  destruct starts as [|j more]; [exact I|].
  assert (Hij : i < j) by (inversion Hlt; assumption).
  assert (Hj : j <= List.length D /\ starts_line (firstn j D))
    by (inversion Hall'; assumption).
  change ((i :: j :: more) ++ [List.length D])
    with (i :: j :: (more ++ [List.length D])).
  change ((j :: more) ++ [List.length D])
    with (j :: (more ++ [List.length D])) in IH.
  destruct (more ++ [List.length D]) as [|k r] eqn:E;
    [destruct more; discriminate|].
  change (slices D (i :: j :: k :: r))
    with (slice D i j :: slice D j k :: slices D (k :: r)).
  change (slices D (j :: k :: r))
    with (slice D j k :: slices D (k :: r)) in IH.
  split; [|exact IH].
  apply slice_ends_LF; tauto.
Qed.

Lemma file_blocks_chain_closed (D : str) : chain_closed (file_blocks D).
Proof.
  unfold file_blocks. apply slices_chain_closed.
  - apply header_starts_sorted.
  - apply Forall_forall. intros j Hj. apply header_start_starts_line, Hj.
Qed.

Lemma preamble_starts_line (D : str) :
  header_starts D <> [] -> starts_line (preamble D).
Proof.
  unfold preamble. intros Hne.
  destruct (header_starts D) as [|i starts] eqn:E; [congruence|].
  apply (header_start_starts_line D i). rewrite E. left. reflexivity.
Qed.

Lemma shift_length (k : nat) (ms : list header_match) :
  List.length (shift k ms) = List.length ms.
Proof. apply length_map. Qed.

Lemma finditer_blocks_length (blocks : list str) :
  forall pos,
    List.length (finditer_blocks pos blocks)
    = list_sum (List.map n_matches blocks).
Proof.
  induction blocks as [|b rest IH]; intros pos; [reflexivity|].
  simpl. rewrite length_app, IH, finditer_from_shift, shift_length.
  reflexivity.
Qed.

Lemma all_ones (f : str -> nat) (blocks : list str) :
  Forall (fun b => 1 <= f b) blocks ->
  list_sum (List.map f blocks) <= List.length blocks ->
  Forall (fun b => f b = 1) blocks.
Proof.
  induction blocks as [|b rest IH]; intros Hge Hle; [constructor|].
  inversion Hge as [|? ? Hb Hrest]; subst. simpl in Hle.
  assert (Hsum : List.length rest <= list_sum (List.map f rest)).
  { clear - Hrest. induction rest as [|x rest IH]; [simpl; lia|].
    inversion Hrest; subst. simpl. specialize (IH H2). lia. }
  constructor; [lia|]. apply IH; [exact Hrest|lia].
Qed.

Lemma block_has_match (D blk : str) :
  In blk (file_blocks D) -> 1 <= n_matches blk.
Proof.
  intros Hin. destruct (file_block_has_header D blk Hin) as (m & _ & Hs).
  unfold FILE_HEADER_RE_search, FILE_HEADER_RE_finditer in Hs.
  unfold n_matches. destruct (finditer_from 0 0 true blk); [discriminate|].
  simpl. lia.
Qed.

(** The search finds one header in each block of a diff: its own. *)
Lemma file_blocks_one_match (D : str) : Forall one_match (file_blocks D).
Proof.
  destruct (header_starts D) as [|i starts] eqn:E.
  { unfold file_blocks. rewrite E. constructor. }
  assert (Hsplit : List.length (finditer_blocks (List.length (preamble D))
                                  (file_blocks D))
                   <= List.length (FILE_HEADER_RE_finditer D)).
  { assert (Hpre : starts_line (preamble D))
      by (apply preamble_starts_line; congruence).
    assert (HD : FILE_HEADER_RE_finditer D
                 = finditer_from 0 0 true
                     (preamble D ++ List.concat (file_blocks D)))
      by (rewrite preamble_file_blocks; reflexivity).
    rewrite HD.
    destruct Hpre as [Hnil|Hp].
    - rewrite Hnil. rewrite app_nil_l.
      rewrite (finditer_blocks_concat _ 0 (file_blocks_chain_closed D)).
      apply Nat.le_refl.
    - rewrite (finditer_from_app (preamble D) _ 0 0 true Hp (Nat.le_0_l _)).
      rewrite length_app.
      rewrite (finditer_blocks_concat _ _ (file_blocks_chain_closed D)).
      simpl. lia. }
  assert (Hcount : Forall (fun b => n_matches b = 1) (file_blocks D)).
  { apply all_ones.
    - apply Forall_forall. intros b Hb. apply (block_has_match D b Hb).
    - rewrite <- (finditer_blocks_length (file_blocks D)
                    (List.length (preamble D))).
      rewrite (file_blocks_length D). exact Hsplit. }
  rewrite Forall_forall in *. intros b Hb.
  specialize (Hcount b Hb).
  destruct (file_block_has_header D b Hb) as (m & _ & Hs).
  unfold FILE_HEADER_RE_search, FILE_HEADER_RE_finditer in Hs.
  unfold n_matches in Hcount. unfold one_match.
  destruct (finditer_from 0 0 true b) as [|m0 [|m1 ms]];
    try discriminate; simpl in Hs.
  injection Hs as ->. eauto.
Qed.

(** *** A text made of blocks is cut back into these blocks *)

Lemma chain_closed_filter (f : str -> bool) (blocks : list str) :
  chain_closed blocks -> chain_closed (List.filter f blocks).
Proof.
  induction blocks as [|b rest IH]; intros Hc; [exact I|].
  assert (Hrest : chain_closed rest).
  { destruct rest; [exact I|]. destruct Hc. assumption. }
  specialize (IH Hrest). simpl. destruct (f b); [|exact IH].
  destruct (List.filter f rest) as [|b' r] eqn:E; [exact I|].
  split; [|exact IH].
  destruct rest as [|x rest]; [discriminate|]. destruct Hc. assumption.
Qed.

Lemma finditer_blocks_starts (blocks : list str) :
  forall pos,
    Forall one_match blocks ->
    List.map m_start (finditer_blocks pos blocks) = offsets pos blocks.
Proof.
  induction blocks as [|b rest IH]; intros pos Hall; [reflexivity|].
  inversion Hall as [|? ? (a & t & Hb) Hrest]; subst.
  simpl. rewrite finditer_from_shift, Hb, map_app, (IH _ Hrest).
  simpl. rewrite Nat.add_0_r. reflexivity.
Qed.

Lemma slice_middle (pre b rest : str) :
  slice (pre ++ b ++ rest) (List.length pre)
        (List.length pre + List.length b) = b.
Proof.
  unfold slice. rewrite skipn_app_length.
  replace (List.length pre + List.length b - List.length pre)
    with (List.length b) by lia.
  rewrite firstn_app, Nat.sub_diag, firstn_all. simpl. apply app_nil_r.
Qed.

Lemma offsets_bound (blocks : list str) (pos len : nat) :
  exists more,
    offsets (pos + len) blocks ++ [pos + len + List.length (List.concat blocks)]
    = (pos + len) :: more.
Proof.
  destruct blocks as [|b rest].
  - exists []. simpl. rewrite Nat.add_0_r. reflexivity.
  - eexists. reflexivity.
Qed.

Lemma slices_offsets (blocks : list str) :
  forall pre,
    slices (pre ++ List.concat blocks)
           (offsets (List.length pre) blocks
            ++ [List.length pre + List.length (List.concat blocks)])
    = blocks.
Proof.
  induction blocks as [|b rest IH]; intros pre; [reflexivity|].
  specialize (IH (pre ++ b)).
  rewrite length_app in IH. rewrite <- app_assoc in IH.
  simpl List.concat. simpl offsets. rewrite length_app.
  destruct (offsets_bound rest (List.length pre) (List.length b))
    as (more & Hb).
  rewrite Nat.add_assoc.
  rewrite <- app_comm_cons. rewrite Hb in *.
  change (slices (pre ++ b ++ List.concat rest)
            (List.length pre :: (List.length pre + List.length b) :: more))
    with (slice (pre ++ b ++ List.concat rest) (List.length pre)
                (List.length pre + List.length b)
          :: slices (pre ++ b ++ List.concat rest)
               ((List.length pre + List.length b) :: more)).
  rewrite slice_middle, IH. reflexivity.
Qed.

(** The file blocks of a text made of blocks that the search reads as
    one header each are these blocks. *)
Lemma file_blocks_concat_blocks (blocks : list str) :
  chain_closed blocks -> Forall one_match blocks ->
  file_blocks (List.concat blocks) = blocks
  /\ header_starts (List.concat blocks) = offsets 0 blocks.
Proof.
  intros Hc Hone.
  assert (Hst : header_starts (List.concat blocks) = offsets 0 blocks).
  { unfold header_starts, FILE_HEADER_RE_finditer.
    rewrite (finditer_blocks_concat _ 0 Hc).
    apply finditer_blocks_starts, Hone. }
  split; [|exact Hst].
  unfold file_blocks. rewrite Hst. apply (slices_offsets blocks []).
Qed.

(** *** The filter, whatever the library does *)

Section WithLibrary.
Context {L : Library}.

(** X8. Whatever [fnmatch] and [re.search] do, and for every diff and
    configuration, [fetch_pr_diff_filtered] returns as soon as the raw
    diff is fetched: an exception of the classifier gives the raw diff
    back with an empty skipped list. In every case each file block of
    the raw diff is either in the text returned, the blocks in the
    order of the diff, or counted in the skipped list. *)
Theorem fetch_pr_diff_filtered_fail_open (raw : str) (cfg : config) :
  exists (gen : str -> bool) (pre out : str) (skipped : list str),
    fetch_pr_diff_filtered (Return raw) cfg = Return (out, skipped)
    /\ out = pre ++ join_empty
                      (List.filter (fun b => negb (gen b)) (file_blocks raw))
    /\ skipped = List.map skipped_entry (List.filter gen (file_blocks raw))
    /\ (pre = [] \/ pre = preamble raw)
    /\ (returns (filter_out_generated_diffs raw cfg) = false ->
        out = raw /\ skipped = []).
Proof.
  unfold fetch_pr_diff_filtered. cbn [bind].
  assert (Hraw : exists (gen : str -> bool) (pre : str),
             raw = pre ++ join_empty
                            (List.filter (fun b => negb (gen b))
                                         (file_blocks raw))
             /\ @nil str = List.map skipped_entry
                              (List.filter gen (file_blocks raw))
             /\ (pre = [] \/ pre = preamble raw)).
  { exists (fun _ => false), (preamble raw).
    rewrite filter_none, filter_all.
    split; [symmetry; apply preamble_file_blocks|]. auto. }
  destruct (filter_out_generated_diffs raw cfg) as [[out skipped]|e] eqn:Hf.
  - destruct (filter_returned _ _ _ _ Hf)
      as [[-> ->]|(kept & Hout & Hk & Hs & _)].
    + destruct Hraw as (gen & pre & H1 & H2 & H3).
      exists gen, pre, raw, [].
      refine (conj eq_refl (conj H1 (conj H2 (conj H3 _)))). auto.
    + eexists _, [], out, skipped. split; [reflexivity|].
      rewrite Hout, Hk, Hs.
      refine (conj eq_refl (conj eq_refl (conj (or_introl eq_refl) _))).
      discriminate.
  - destruct Hraw as (gen & pre & H1 & H2 & H3).
    exists gen, pre, raw, [].
    refine (conj eq_refl (conj H1 (conj H2 (conj H3 _)))). auto.
Qed.

(** X9. The filter is idempotent on its output: when it returns a
    text, filtering this text again, with the same configuration,
    returns it unchanged and skips nothing. *)
Theorem filter_idempotent (diff_text : str) (cfg : config)
    (out : str) (skipped : list str) :
  filter_out_generated_diffs diff_text cfg = Return (out, skipped) ->
  filter_out_generated_diffs out cfg = Return (out, []).
Proof.
  intros Hf.
  destruct (filter_returned _ _ _ _ Hf)
    as [[-> ->]|(kept & Hout & Hk & Hs & Hno & Hon)]; [exact Hf|].
  assert (Hc : chain_closed kept).
  { rewrite Hk. apply chain_closed_filter, file_blocks_chain_closed. }
  assert (Hone : Forall one_match kept).
  { rewrite Hk. apply Forall_forall. intros b Hb.
    apply filter_In in Hb. destruct Hb as [Hb _].
    pose proof (file_blocks_one_match diff_text) as Hall.
    rewrite Forall_forall in Hall. exact (Hall b Hb). }
  destruct (file_blocks_concat_blocks kept Hc Hone) as [Hblocks Hstarts].
  unfold join_empty in Hout. rewrite <- Hout in Hblocks, Hstarts.
  unfold filter_out_generated_diffs.
  destruct (truthy out) eqn:Hne; cbn [negb]; [|reflexivity].
  rewrite Hon. cbn [negb].
  fold (file_blocks out). rewrite Hblocks.
  destruct (truthy (header_starts out)) eqn:Hh; cbn [negb];
    [|reflexivity].
  rewrite (filter_loop_keeps _ _ _ kept [] [] Hno).
  cbn [bind fst snd app]. unfold join_empty. rewrite <- Hout. reflexivity.
Qed.

End WithLibrary.

Lemma filter_idempotent_witness :
  @filter_out_generated_diffs example_library example_diff example_config
  = Return (py "diff --git a/foo/bar.go b/foo/bar.go" ++ [LF]
            ++ py "+y" ++ [LF],
            [py "gen.js"])
  /\ @filter_out_generated_diffs example_library
       (py "diff --git a/foo/bar.go b/foo/bar.go" ++ [LF] ++ py "+y" ++ [LF])
       example_config
     = Return (py "diff --git a/foo/bar.go b/foo/bar.go" ++ [LF]
               ++ py "+y" ++ [LF], []).
Proof.
  assert (H : @filter_out_generated_diffs example_library example_diff
                example_config
              = Return (py "diff --git a/foo/bar.go b/foo/bar.go" ++ [LF]
                        ++ py "+y" ++ [LF],
                        [py "gen.js"]))
    by (vm_compute; reflexivity).
  split; [exact H|].
  apply (@filter_idempotent example_library example_diff example_config _ _ H).
Defined.

End PipelineFacts.

(** ** github_api.py: the paged requests *)

Module PullsFacts.
Import Py Exc Http Pulls.

Lemma seq_1_S (p : nat) : 1 <= p -> seq 1 (p - 1) ++ [p] = seq 1 (S p - 1).
Proof.
  intros Hp. replace (S p - 1) with (S (p - 1)) by lia.
  rewrite seq_S. repeat f_equal. lia.
Qed.

Lemma truthy_full {A} (l : list A) : per_page <= List.length l -> truthy l = true.
Proof.
  destruct l; [|reflexivity]. unfold per_page. simpl. lia.
Qed.

Lemma truthy_empty {A} (l : list A) : truthy l = false -> l = [].
Proof. destruct l; [reflexivity|discriminate]. Qed.

Lemma batch_at_answer {item} (get : server item) (i : nat)
    (r : response (list item)) :
  answer_at get i = Return r -> batch_at get i = json r.
Proof. unfold batch_at. intros ->. reflexivity. Qed.

Section Pages.
Context {item : Type}.
Variable get : server item.

(** One iteration on a full page. *)
Lemma fetch_all_prs_loop_full (fuel : nat) (prs : list item) (p : nat) :
  1 <= p -> full_page get p ->
  fetch_all_prs_loop get (S fuel) prs p (seq 1 (p - 1))
  = fetch_all_prs_loop get fuel (prs ++ batch_at get p) (S p)
                       (seq 1 (S p - 1)).
Proof.
  intros Hp (r & Hr & Hok & Hlen).
  cbn [fetch_all_prs_loop]. unfold answer_at in Hr.
  rewrite (batch_at_answer _ _ _ Hr), Hr, Hok. cbn [negb].
  rewrite (truthy_full _ Hlen). cbn [negb].
  apply Nat.ltb_ge in Hlen. rewrite Hlen, (seq_1_S p Hp). reflexivity.
Qed.

(** One iteration on a short page. *)
Lemma fetch_all_prs_loop_short (fuel : nat) (prs : list item) (p : nat) :
  1 <= p -> short_page get p ->
  fetch_all_prs_loop get (S fuel) prs p (seq 1 (p - 1))
  = Some (Return (prs ++ batch_at get p), seq 1 (S p - 1)).
Proof.
  intros Hp (r & Hr & Hok & Hlen).
  cbn [fetch_all_prs_loop]. unfold answer_at in Hr.
  rewrite (batch_at_answer _ _ _ Hr), Hr, Hok. cbn [negb].
  rewrite (seq_1_S p Hp).
  destruct (truthy (json r)) eqn:Hb; cbn [negb].
  - apply Nat.ltb_lt in Hlen. rewrite Hlen. reflexivity.
  - rewrite (truthy_empty _ Hb), app_nil_r. reflexivity.
Qed.

Lemma fetch_all_prs_loop_stops (n : nat) :
  forall (p : nat) (prs : list item) (fuel : nat),
    1 <= p ->
    (forall i, p <= i < p + n -> full_page get i) ->
    short_page get (p + n) ->
    n < fuel ->
    fetch_all_prs_loop get fuel prs p (seq 1 (p - 1))
    = Some (Return (prs ++ List.concat
                              (List.map (batch_at get) (seq p (S n)))),
            seq 1 (p + n)).
Proof.
  induction n as [|n IH]; intros p prs fuel Hp Hfull Hshort Hfuel;
    (destruct fuel as [|fuel]; [lia|]).
  - rewrite Nat.add_0_r in Hshort.
    rewrite (fetch_all_prs_loop_short _ _ _ Hp Hshort).
    cbn [seq List.map List.concat]. rewrite app_nil_r, Nat.add_0_r.
    repeat f_equal. lia.
  - rewrite (fetch_all_prs_loop_full _ _ _ Hp) by (apply Hfull; lia).
    rewrite (IH (S p)); try lia.
    + replace (S p + n) with (p + S n) by lia.
      rewrite <- app_assoc. reflexivity.
    + intros i Hi. apply Hfull. lia.
    + replace (S p + n) with (p + S n) by lia. exact Hshort.
Qed.

Lemma fetch_all_prs_loop_runs (fuel : nat) :
  forall (p : nat) (prs : list item),
    1 <= p ->
    (forall i, p <= i -> full_page get i) ->
    fetch_all_prs_loop get fuel prs p (seq 1 (p - 1)) = None.
Proof.
  induction fuel as [|fuel IH]; intros p prs Hp Hfull; [reflexivity|].
  rewrite (fetch_all_prs_loop_full _ _ _ Hp) by (apply Hfull; lia).
  apply IH; [lia|]. intros i Hi. apply Hfull. lia.
Qed.

(** X10. [fetch_all_prs] stops at the first page that is short of
    [per_page] items: when the pages before page [k] are full, it has
    requested the pages 1 to [k], each once and in this order, and
    returns their items, in the order of the pages. *)
Theorem fetch_all_prs_stops_at_first_short_page
    (github_token : option str) (k fuel : nat) :
  truthy (token_of github_token) = true ->
  1 <= k ->
  (forall i, 1 <= i < k -> full_page get i) ->
  short_page get k ->
  k <= fuel ->
  fetch_all_prs get fuel github_token
  = Some (Return (List.concat (List.map (batch_at get) (seq 1 k))),
          seq 1 k).
Proof.
  intros Htoken Hk Hfull Hshort Hfuel.
  unfold fetch_all_prs. rewrite Htoken. cbn [negb].
  change (@nil nat) with (seq 1 (1 - 1)).
  rewrite (fetch_all_prs_loop_stops (k - 1)); try lia.
  - replace (S (k - 1)) with k by lia.
    replace (1 + (k - 1)) with k by lia. reflexivity.
  - intros i Hi. apply Hfull. lia.
  - replace (1 + (k - 1)) with k by lia. exact Hshort.
Qed.

(** X11. Nothing bounds the requests of [fetch_all_prs]: on a server
    whose pages are all full, the loop is still running after any
    number of iterations. *)
Theorem fetch_all_prs_has_no_bound (github_token : option str) :
  truthy (token_of github_token) = true ->
  (forall i, 1 <= i -> full_page get i) ->
  forall fuel, fetch_all_prs get fuel github_token = None.
Proof.
  intros Htoken Hfull fuel.
  unfold fetch_all_prs. rewrite Htoken. cbn [negb].
  change (@nil nat) with (seq 1 (1 - 1)).
  apply fetch_all_prs_loop_runs; [lia|exact Hfull].
Qed.

Variable paged_url : nat -> str.

Lemma _page_json_full (fuel : nat) (items : list item) (p : nat) :
  1 <= p -> full_page_found get p ->
  _page_json get paged_url (S fuel) items p (seq 1 (p - 1))
  = _page_json get paged_url fuel (items ++ batch_at get p) (S p)
               (seq 1 (S p - 1)).
Proof.
  intros Hp (r & Hr & Hok & Hlen & Hst).
  cbn [_page_json]. unfold answer_at in Hr.
  rewrite (batch_at_answer _ _ _ Hr), Hr, Hok. cbn [negb].
  apply Z.eqb_neq in Hst. rewrite Hst.
  rewrite (truthy_full _ Hlen). cbn [negb].
  apply Nat.ltb_ge in Hlen. rewrite Hlen, (seq_1_S p Hp). reflexivity.
Qed.

Lemma _page_json_missing (n : nat) :
  forall (p : nat) (items : list item) (fuel : nat)
         (r : response (list item)),
    1 <= p ->
    (forall i, p <= i < p + n -> full_page_found get i) ->
    answer_at get (p + n) = Return r ->
    status_code r = 404%Z ->
    n < fuel ->
    _page_json get paged_url fuel items p (seq 1 (p - 1))
    = Some (Return None, seq 1 (p + n)).
Proof.
  induction n as [|n IH]; intros p items fuel r Hp Hfull Hr Hst Hfuel;
    (destruct fuel as [|fuel]; [lia|]).
  - rewrite Nat.add_0_r in *. cbn [_page_json].
    unfold answer_at in Hr. rewrite Hr, Hst, Z.eqb_refl, (seq_1_S p Hp).
    repeat f_equal. lia.
  - rewrite (_page_json_full _ _ _ Hp) by (apply Hfull; lia).
    replace (p + S n) with (S p + n) in * by lia.
    apply (IH (S p) _ fuel r); try lia; auto.
    intros i Hi. apply Hfull. lia.
Qed.

(** X12. A page answered with the status 404 makes [_page_json]
    return [None], also when it comes after full pages: their items
    are dropped, and no further page is requested. *)
Theorem page_json_missing_page_drops_items (k fuel : nat)
    (r : response (list item)) :
  1 <= k ->
  (forall i, 1 <= i < k -> full_page_found get i) ->
  answer_at get k = Return r ->
  status_code r = 404%Z ->
  k <= fuel ->
  _page_json get paged_url fuel [] 1 [] = Some (Return None, seq 1 k).
Proof.
  intros Hk Hfull Hr Hst Hfuel.
  change (@nil nat) with (seq 1 (1 - 1)).
  replace k with (1 + (k - 1)) in * by lia.
  apply (_page_json_missing (k - 1) 1 [] fuel r); try lia; auto.
Qed.

End Pages.

Lemma third_missing_full (i : nat) :
  1 <= i < 3 -> full_page_found third_missing i.
Proof.
  intros Hi. unfold full_page_found, answer_at, third_missing.
  replace (i <? 3) with true by (symmetry; apply Nat.ltb_lt; lia).
  eexists. split; [reflexivity|]. split; [reflexivity|].
  cbn [json status_code]. rewrite repeat_length.
  split; [apply Nat.le_refl|discriminate].
Qed.

Lemma page_json_missing_page_drops_items_witness :
  _page_json third_missing (fun _ => py "https://api.github.com/orgs/acme/repos")
             3 [] 1 []
  = Some (Return None, [1; 2; 3]).
Proof.
  apply (page_json_missing_page_drops_items third_missing _ 3 3
           (mk_response false 404 (py "Not Found") [])).
  - lia.
  - exact third_missing_full.
  - reflexivity.
  - reflexivity.
  - lia.
Defined.

Lemma three_pages_full (i : nat) : 1 <= i < 3 -> full_page three_pages i.
Proof.
  intros Hi. eexists. split; [reflexivity|]. split; [reflexivity|].
  cbn [json]. replace (i <? 3) with true by (symmetry; apply Nat.ltb_lt; lia).
  rewrite repeat_length. apply Nat.le_refl.
Qed.

Lemma three_pages_short : short_page three_pages 3.
Proof.
  eexists. split; [reflexivity|]. split; [reflexivity|].
  unfold per_page. simpl. lia.
Qed.

Lemma endless_full (i : nat) : 1 <= i -> full_page endless i.
Proof.
  intros _. eexists. split; [reflexivity|]. split; [reflexivity|].
  cbn [json]. rewrite repeat_length. apply Nat.le_refl.
Qed.

Lemma fetch_all_prs_stops_at_first_short_page_witness :
  fetch_all_prs three_pages 5 (Some (py " ghp_token "))
  = Some (Return (List.concat
                    (List.map (batch_at three_pages) (seq 1 3))),
          seq 1 3).
Proof.
  apply (fetch_all_prs_stops_at_first_short_page three_pages
           (Some (py " ghp_token ")) 3 5).
  - reflexivity.
  - lia.
  - exact three_pages_full.
  - exact three_pages_short.
  - lia.
Defined.

Lemma fetch_all_prs_has_no_bound_witness :
  fetch_all_prs endless 1000 (Some (py "ghp_token")) = None.
Proof.
  apply (fetch_all_prs_has_no_bound endless (Some (py "ghp_token"))).
  - reflexivity.
  - exact endless_full.
Defined.

End PullsFacts.

(** ** file_history_tab.py: the commits of a file *)

Module FileHistoryFacts.
Import Py Exc DiffUtils Http FileHistory.

(** *** [strip] on a text without blanks at its ends *)

Lemma lstrip_head (c : char) (s : str) :
  is_space c = false -> lstrip (c :: s) = c :: s.
Proof. intros H. cbn [lstrip]. rewrite H. reflexivity. Qed.

Lemma lstrip_length (s : str) : List.length (lstrip s) <= List.length s.
Proof.
  induction s as [|c s IH]; [apply Nat.le_refl|].
  cbn [lstrip]. destruct (is_space c); cbn [List.length]; lia.
Qed.

Lemma lstrip_starts (s : str) :
  lstrip s = [] \/ exists c t, lstrip s = c :: t /\ is_space c = false.
Proof.
  induction s as [|c s IH]; [left; reflexivity|].
  cbn [lstrip]. destruct (is_space c) eqn:Hc; [exact IH|].
  right. exists c, s. auto.
Qed.

Lemma rstrip_last (s : str) (c : char) :
  is_space c = false -> rstrip (s ++ [c]) = s ++ [c].
Proof.
  intros H. unfold rstrip. rewrite rev_unit, (lstrip_head _ _ H).
  cbn [rev]. rewrite rev_involutive. reflexivity.
Qed.

Lemma rstrip_ends (s : str) :
  rstrip s = [] \/ exists t c, rstrip s = t ++ [c] /\ is_space c = false.
Proof.
  unfold rstrip. destruct (lstrip_starts (rev s)) as [->|(c & t & -> & Hc)].
  - left. reflexivity.
  - right. exists (rev t), c. auto.
Qed.

Lemma rstrip_fixed_last (q : str) (d : char) :
  rstrip (q ++ [d]) = q ++ [d] -> is_space d = false.
Proof.
  unfold rstrip. rewrite rev_unit. cbn [lstrip].
  destruct (is_space d); [|reflexivity].
  intros H. apply (f_equal (@List.length char)) in H.
  rewrite length_rev, length_app in H. cbn [List.length] in H.
  pose proof (lstrip_length (rev q)) as Hle. rewrite length_rev in Hle. lia.
Qed.

Lemma rstrip_app (a p : str) :
  p <> [] -> rstrip p = p -> rstrip (a ++ p) = a ++ p.
Proof.
  intros Hne Hp. destruct (exists_last Hne) as (q & d & ->).
  rewrite app_assoc. apply rstrip_last, (rstrip_fixed_last q), Hp.
Qed.

(** *** The groups of [FILE_BLOB_URL_RE] *)

Lemma no_slash_run_app (seg rest : str) :
  ~ In SLASH seg ->
  no_slash_run (seg ++ SLASH :: rest) = (seg, SLASH :: rest).
Proof.
  induction seg as [|c seg IH]; intros Hno.
  - reflexivity.
  - cbn [app no_slash_run].
    destruct (N.eqb_spec c SLASH) as [->|_]; [exfalso; apply Hno; left; reflexivity|].
    rewrite IH by (intros H; apply Hno; right; exact H). reflexivity.
Qed.

Lemma no_slash_run_spec (s : str) :
  s = fst (no_slash_run s) ++ snd (no_slash_run s)
  /\ ~ In SLASH (fst (no_slash_run s))
  /\ (snd (no_slash_run s) = []
      \/ exists r, snd (no_slash_run s) = SLASH :: r).
Proof.
  induction s as [|c s (IH1 & IH2 & IH3)].
  - cbn. tauto.
  - cbn [no_slash_run]. destruct (N.eqb_spec c SLASH) as [->|Hc].
    + cbn [fst snd app]. split; [reflexivity|]. split; [tauto|].
      right. exists s. reflexivity.
    + destruct (no_slash_run s) as [seg rest]. cbn [fst snd app] in *.
      split; [congruence|]. split; [|exact IH3].
      intros [H|H]; [congruence|tauto].
Qed.

Lemma match_segment_app (seg rest : str) :
  segment seg -> match_segment (seg ++ [SLASH] ++ rest) = Some (seg, rest).
Proof.
  intros [Hne Hno]. unfold match_segment. cbn [app].
  rewrite (no_slash_run_app _ _ Hno).
  destruct seg; [contradiction|reflexivity].
Qed.

Lemma match_segment_spec (s seg rest : str) :
  match_segment s = Some (seg, rest) ->
  s = seg ++ [SLASH] ++ rest /\ segment seg.
Proof.
  unfold match_segment. destruct (no_slash_run_spec s) as (Hs & Hno & Hrest).
  destruct (no_slash_run s) as [g r]. cbn [fst snd] in *.
  destruct g as [|c g]; [discriminate|].
  destruct r as [|d r]; [discriminate|].
  intros [= <- <-]. destruct Hrest as [H|(r' & H)]; [discriminate|].
  injection H as -> <-. split; [exact Hs|]. split; [discriminate|exact Hno].
Qed.

Lemma match_scheme_spec (s r : str) :
  match_scheme s = Some r <->
  exists secure : bool,
    s = (if secure then py "https://" else py "http://") ++ r.
Proof.
  unfold match_scheme. split.
  - destruct (strip_prefix (py "https://") s) as [r'|] eqn:H.
    + intros [= ->]. apply PyFacts.strip_prefix_app in H. exists true. exact H.
    + intros H'. apply PyFacts.strip_prefix_app in H'. exists false. exact H'.
  - intros ([|] & ->).
    + rewrite PyFacts.strip_prefix_here. reflexivity.
    + destruct (strip_prefix (py "https://") (py "http://" ++ r))
        as [r'|] eqn:H.
      * apply PyFacts.strip_prefix_app in H. discriminate H.
      * apply PyFacts.strip_prefix_here.
Qed.

Lemma dot_run_all (p : str) : ~ In LF p -> dot_run p = p.
Proof.
  intros Hno. rewrite <- (app_nil_r p) at 1.
  apply HeaderFacts.dot_run_app; [exact Hno|left; reflexivity].
Qed.

Lemma match_path_all (p : str) :
  p <> [] -> ~ In LF p -> match_path p = Some p.
Proof.
  intros Hne Hno. unfold match_path. rewrite (dot_run_all _ Hno).
  destruct p as [|c p]; [contradiction|].
  rewrite skipn_all. reflexivity.
Qed.

Lemma match_path_spec (s p : str) :
  match_path s = Some p ->
  p <> [] /\ ~ In LF p /\ (s = p \/ s = p ++ [LF]).
Proof.
  unfold match_path.
  destruct (HeaderFacts.dot_run_split s) as (rest & Hs & Hend & Hno).
  destruct (dot_run s) as [|c q] eqn:Hrun; [discriminate|].
  assert (Hskip : skipn (List.length (c :: q)) s = rest).
  { rewrite Hs at 1. rewrite skipn_app, skipn_all, Nat.sub_diag.
    reflexivity. }
  rewrite Hskip.
  destruct rest as [|d [|e rest]]; try discriminate; intros [= <-];
    (split; [discriminate|]); (split; [exact Hno|]).
  - left. rewrite Hs. apply app_nil_r.
  - right. destruct Hend as [H|(r & H)]; [discriminate|].
    injection H as -> _. exact Hs.
Qed.

Lemma blob_url_match (secure : bool) (u : blob_url) :
  segment (host u) -> segment (owner u) -> segment (repo u) ->
  segment (ref u) -> path u <> [] -> ~ In LF (path u) ->
  FILE_BLOB_URL_RE_match (blob_url_text secure u) = Some u.
Proof.
  intros Hh Ho Hr Hf Hp Hlf. unfold FILE_BLOB_URL_RE_match, blob_url_text.
  replace (match_scheme _) with
    (Some (host u ++ [SLASH] ++ owner u ++ [SLASH] ++ repo u ++ [SLASH]
           ++ py "blob/" ++ ref u ++ [SLASH] ++ path u))
    by (symmetry; apply match_scheme_spec; exists secure; reflexivity).
  rewrite (match_segment_app _ _ Hh), (match_segment_app _ _ Ho),
    (match_segment_app _ _ Hr), PyFacts.strip_prefix_here,
    (match_segment_app _ _ Hf), (match_path_all _ Hp Hlf).
  destruct u; reflexivity.
Qed.

Lemma blob_url_match_spec (s : str) (u : blob_url) :
  FILE_BLOB_URL_RE_match s = Some u ->
  (exists secure,
      s = blob_url_text secure u \/ s = blob_url_text secure u ++ [LF])
  /\ segment (host u) /\ segment (owner u) /\ segment (repo u)
  /\ segment (ref u) /\ path u <> [] /\ ~ In LF (path u).
Proof.
  unfold FILE_BLOB_URL_RE_match.
  destruct (match_scheme s) as [r0|] eqn:H0; [|discriminate].
  destruct (match_segment r0) as [[h r1]|] eqn:H1; [|discriminate].
  destruct (match_segment r1) as [[o r2]|] eqn:H2; [|discriminate].
  destruct (match_segment r2) as [[rp r3]|] eqn:H3; [|discriminate].
  destruct (strip_prefix (py "blob/") r3) as [r4|] eqn:H4; [|discriminate].
  destruct (match_segment r4) as [[rf r5]|] eqn:H5; [|discriminate].
  destruct (match_path r5) as [p|] eqn:H6; [|discriminate].
  intros [= <-]. cbn [host owner repo ref path].
  apply match_scheme_spec in H0. destruct H0 as (secure & ->).
  apply match_segment_spec in H1, H2, H3, H5.
  destruct H1 as [-> Hh], H2 as [-> Ho], H3 as [-> Hr], H5 as [-> Hf].
  apply PyFacts.strip_prefix_app in H4. subst r3.
  apply match_path_spec in H6. destruct H6 as (Hp & Hlf & Hr5).
  split; [|tauto].
  exists secure. unfold blob_url_text. cbn [host owner repo ref path].
  destruct Hr5 as [->| ->]; [left; reflexivity|right].
  rewrite <- !app_assoc. reflexivity.
Qed.

(** X13. A blob URL written from its five parts is read back into
    them: [parse_file_blob_url] returns the host, the owner, the
    repository, the ref and the path of
    [http(s)://<host>/<owner>/<repo>/blob/<ref>/<path>], when the
    first four are not empty and hold no slash, and the path is not
    empty, holds no line feed and does not end with a blank. *)
Theorem parse_file_blob_url_round_trip (secure : bool) (u : blob_url) :
  segment (host u) -> segment (owner u) -> segment (repo u) ->
  segment (ref u) ->
  path u <> [] -> ~ In LF (path u) -> rstrip (path u) = path u ->
  parse_file_blob_url (Some (blob_url_text secure u)) = Return u.
Proof.
  intros Hh Ho Hr Hf Hp Hlf Hend. unfold parse_file_blob_url.
  cbn [Orchestrator.or_empty].
  assert (Hstrip : strip (blob_url_text secure u) = blob_url_text secure u).
  { unfold strip.
    replace (lstrip (blob_url_text secure u)) with (blob_url_text secure u)
      by (destruct secure; reflexivity).
    unfold blob_url_text. rewrite !app_assoc.
    apply rstrip_app; assumption. }
  rewrite Hstrip, (blob_url_match secure u) by assumption. reflexivity.
Qed.

(** X14. What [parse_file_blob_url] returns rebuilds the URL it was
    given, blanks at both ends apart: the five parts, written as
    [http(s)://<host>/<owner>/<repo>/blob/<ref>/<path>], are the
    stripped text, none of the first four is empty or holds a slash,
    and the path is not empty and holds no line feed. *)
Theorem parse_file_blob_url_rebuilds (file_url : option str) (u : blob_url) :
  parse_file_blob_url file_url = Return u ->
  (exists secure,
      strip (Orchestrator.or_empty file_url) = blob_url_text secure u)
  /\ segment (host u) /\ segment (owner u) /\ segment (repo u)
  /\ segment (ref u) /\ path u <> [] /\ ~ In LF (path u).
Proof.
  unfold parse_file_blob_url.
  destruct (FILE_BLOB_URL_RE_match (strip (Orchestrator.or_empty file_url)))
    as [u'|] eqn:Hm; [|discriminate].
  intros [= ->]. apply blob_url_match_spec in Hm.
  destruct Hm as ((secure & Hs) & Hrest). split; [|exact Hrest].
  exists secure. destruct Hs as [Hs|Hs]; [exact Hs|exfalso].
  unfold strip in Hs.
  destruct (rstrip_ends (lstrip (Orchestrator.or_empty file_url)))
    as [H|(t & c & H & Hc)]; rewrite H in Hs.
  - destruct secure; discriminate Hs.
  - apply app_inj_tail in Hs. destruct Hs as [_ ->]. discriminate Hc.
Qed.

(** *** The pages of [fetch_file_commit_history] *)

Section Commits.
Context {item : Type}.

Lemma batches_S (get : server item) (p : nat) :
  1 <= p ->
  List.concat (List.map (batch_at get) (seq 1 (S p - 1)))
  = List.concat (List.map (batch_at get) (seq 1 (p - 1))) ++ batch_at get p.
Proof.
  intros Hp. rewrite <- (PullsFacts.seq_1_S p Hp), map_app, concat_app.
  cbn [List.map List.concat]. rewrite app_nil_r. reflexivity.
Qed.

Lemma history_loop_enough (get : server item) (max_commits : Z)
    (fuel : nat) (items : list item) (p : nat) (sent : list nat) :
  (max_commits <= Z.of_nat (List.length items))%Z ->
  history_loop (S fuel) get max_commits items p sent
  = Some (Return items, sent).
Proof.
  intros H. cbn [history_loop]. apply Z.ltb_ge in H. rewrite H. reflexivity.
Qed.

Lemma history_loop_runs (get : server item) (max_commits : Z) (fuel : nat) :
  forall (p : nat) (items : list item),
    1 <= p ->
    items = List.concat (List.map (batch_at get) (seq 1 (p - 1))) ->
    per_page * (p - 1) <= List.length items ->
    (Z.of_nat (p - 1) * 100 <= Z.max 0 max_commits + 99)%Z ->
    Z.to_nat max_commits - List.length items < fuel ->
    exists res sent,
      history_loop fuel get max_commits items p (seq 1 (p - 1))
      = Some (res, sent)
      /\ sent = seq 1 (List.length sent)
      /\ (Z.of_nat (List.length sent) * 100 <= Z.max 0 max_commits + 99)%Z
      /\ forall its, res = Return its ->
                     its = List.concat (List.map (batch_at get) sent).
Proof.
  induction fuel as [|fuel IH]; intros p items Hp Hitems Hfull Hreq Hfuel;
    [lia|].
  cbn [history_loop].
  destruct (Z.of_nat (List.length items) <? max_commits)%Z eqn:Hguard.
  - apply Z.ltb_lt in Hguard.
    assert (Hsent : seq 1 (S p - 1) = seq 1 (List.length (seq 1 (S p - 1))))
      by (rewrite length_seq; reflexivity).
    assert (Hreq' : (Z.of_nat (List.length (seq 1 (S p - 1))) * 100
                     <= Z.max 0 max_commits + 99)%Z)
      by (rewrite length_seq; unfold per_page in Hfull; lia).
    rewrite (PullsFacts.seq_1_S p Hp).
    destruct (get (seq 1 (p - 1)) p) as [r|e] eqn:Hget.
    + assert (Hbatch : batch_at get p = json r)
        by (apply PullsFacts.batch_at_answer; exact Hget).
      destruct (ok r); cbn [negb].
      * destruct (truthy (json r)) eqn:Hb; cbn [negb].
        -- destruct (List.length (json r) <? per_page) eqn:Hshort.
           ++ eexists _, _. split; [reflexivity|]. split; [exact Hsent|].
              split; [exact Hreq'|]. intros its [= <-].
              rewrite (batches_S get p Hp), Hbatch, Hitems. reflexivity.
           ++ apply Nat.ltb_ge in Hshort.
              apply (IH (S p)).
              ** lia.
              ** rewrite (batches_S get p Hp), Hbatch, Hitems. reflexivity.
              ** rewrite length_app. unfold per_page in *. lia.
              ** rewrite length_seq in Hreq'. exact Hreq'.
              ** rewrite length_app. unfold per_page in *. lia.
        -- eexists _, _. split; [reflexivity|]. split; [exact Hsent|].
           split; [exact Hreq'|]. intros its [= <-].
           rewrite (batches_S get p Hp), Hbatch, (PullsFacts.truthy_empty _ Hb),
             app_nil_r. exact Hitems.
      * eexists _, _. split; [reflexivity|]. split; [exact Hsent|].
        split; [exact Hreq'|]. discriminate.
    + eexists _, _. split; [reflexivity|]. split; [exact Hsent|].
      split; [exact Hreq'|]. discriminate.
  - eexists _, _. split; [reflexivity|]. rewrite length_seq.
    split; [reflexivity|]. split; [exact Hreq|]. intros its [= <-].
    exact Hitems.
Qed.

Variable get_commits : blob_url -> server item.

(** X15. [fetch_file_commit_history] ends, whatever the server
    answers: it requests the pages 1, 2, ... in this order, at most one
    page for every hundred commits asked for, rounded up, and none when
    [max_commits] is not positive. When it returns, the commits are
    those of the pages requested, in their order, cut at
    [max_commits]. *)
Theorem fetch_file_commit_history_bounded (github_token : option str)
    (file_url : option str) (max_commits : Z) :
  exists res sent,
    fetch_file_commit_history get_commits (S (Z.to_nat max_commits))
                              github_token file_url max_commits
    = Some (res, sent)
    /\ sent = seq 1 (List.length sent)
    /\ (Z.of_nat (List.length sent) * 100 <= Z.max 0 max_commits + 99)%Z
    /\ forall items u,
         res = Return (items, u) ->
         parse_file_blob_url file_url = Return u
         /\ items = firstn (Z.to_nat max_commits)
                      (List.concat
                         (List.map (batch_at (get_commits u)) sent))
         /\ (Z.of_nat (List.length items) <= Z.max 0 max_commits)%Z.
Proof.
  unfold fetch_file_commit_history.
  destruct (truthy (token_of github_token)); cbn [negb].
  2:{ eexists _, []. split; [reflexivity|]. split; [reflexivity|].
      split; [cbn [List.length]; lia|]. discriminate. }
  destruct (parse_file_blob_url file_url) as [u|e].
  2:{ eexists _, []. split; [reflexivity|]. split; [reflexivity|].
      split; [cbn [List.length]; lia|]. discriminate. }
  destruct (Z.le_gt_cases max_commits 0) as [Hneg|Hpos].
  - rewrite history_loop_enough by (cbn [List.length]; lia).
    eexists _, []. split; [reflexivity|]. split; [reflexivity|].
    split; [cbn [List.length]; lia|]. intros items u' [= <- <-].
    split; [reflexivity|]. cbn [List.map List.concat].
    rewrite firstn_nil. unfold slice_to.
    destruct (max_commits <? 0)%Z; rewrite firstn_nil;
      (split; [reflexivity|cbn [List.length]; lia]).
  - destruct (history_loop_runs (get_commits u) max_commits
                (S (Z.to_nat max_commits)) 1 [])
      as (res & sent & Hrun & Hsent & Hreq & Hits);
      try (cbn [List.length]; lia); [reflexivity|].
    change (seq 1 (1 - 1)) with (@nil nat) in Hrun. rewrite Hrun.
    destruct res as [its|e].
    + eexists _, sent. split; [reflexivity|]. split; [exact Hsent|].
      split; [exact Hreq|]. intros items u' [= <- <-].
      split; [reflexivity|]. rewrite <- (Hits its eq_refl).
      unfold slice_to. replace (max_commits <? 0)%Z with false
        by (symmetry; apply Z.ltb_ge; lia).
      split; [reflexivity|]. rewrite length_firstn. lia.
    + eexists _, sent. split; [reflexivity|]. split; [exact Hsent|].
      split; [exact Hreq|]. discriminate.
Qed.

End Commits.

(** *** The files of a commit *)

Lemma last_target_last (file_path : str) (files : list file_entry)
    (f : file_entry) :
  last_target file_path (files ++ [f])
  = if is_target file_path f then Some f else last_target file_path files.
Proof.
  unfold last_target. rewrite filter_app. cbn [List.filter].
  destruct (is_target file_path f).
  - rewrite map_app. cbn [List.map]. apply last_last.
  - rewrite app_nil_r. reflexivity.
Qed.

Lemma other_names_last (file_path : str) (files : list file_entry)
    (f : file_entry) :
  other_names file_path (files ++ [f])
  = other_names file_path files
    ++ (if is_target file_path f then []
        else if truthy (Orchestrator.or_empty (filename f))
             then [Orchestrator.or_empty (filename f)] else []).
Proof.
  unfold other_names. rewrite filter_app, map_app, filter_app.
  f_equal. cbn [List.filter].
  destruct (is_target file_path f); cbn [negb List.map List.filter];
    [reflexivity|].
  destruct (truthy (Orchestrator.or_empty (filename f))); reflexivity.
Qed.

Lemma patch_fold (file_path : str) (files : list file_entry)
    (st : str * list str) :
  fold_left (patch_step file_path) files st
  = (match last_target file_path files with
     | Some f => Orchestrator.or_empty (patch f)
     | None => fst st
     end,
     snd st ++ other_names file_path files).
Proof.
  induction files as [|f files IH] using rev_ind.
  - destruct st. cbn. rewrite app_nil_r. reflexivity.
  - rewrite fold_left_app, IH, last_target_last, other_names_last.
    cbn [fold_left patch_step].
    destruct (is_target file_path f).
    + rewrite app_nil_r. reflexivity.
    + destruct (truthy (Orchestrator.or_empty (filename f)));
        rewrite ?app_nil_r, ?app_assoc; reflexivity.
Qed.

Lemma other_names_others (file_path : str) (files : list file_entry) :
  ~ In file_path (other_names file_path files)
  /\ ~ In [] (other_names file_path files).
Proof.
  unfold other_names. split; intros H; apply filter_In in H;
    destruct H as [H Ht]; [|discriminate Ht].
  apply in_map_iff in H. destruct H as (f & Hname & Hf).
  apply filter_In in Hf. destruct Hf as [_ Hf].
  apply negb_true_iff in Hf. unfold is_target in Hf.
  apply orb_false_iff in Hf. destruct Hf as [Hf _].
  apply PyFacts.str_eqb_neq in Hf. congruence.
Qed.

(** X16. When the commit is fetched, [fetch_commit_patch_for_file]
    returns the patch of the last entry of [files] whose name or
    previous name is [file_path] (the empty text when this entry has
    no patch, or when there is no such entry), and the names of the
    other entries, in their order: [file_path] is not among them, and
    no name is empty. *)
Theorem fetch_commit_patch_for_file_last_target
    (github_token : option str)
    (r : response (option (list file_entry))) (file_path : str) :
  truthy (token_of github_token) = true ->
  ok r = true ->
  fetch_commit_patch_for_file github_token (Return r) file_path
  = Return (match last_target file_path (GithubApi.get_or (json r) []) with
            | Some f => Orchestrator.or_empty (patch f)
            | None => []
            end,
            other_names file_path (GithubApi.get_or (json r) []))
  /\ ~ In file_path (other_names file_path (GithubApi.get_or (json r) []))
  /\ ~ In [] (other_names file_path (GithubApi.get_or (json r) [])).
Proof.
  intros Htoken Hok. split; [|apply other_names_others].
  unfold fetch_commit_patch_for_file. rewrite Htoken. cbn [negb bind].
  rewrite Hok. cbn [negb]. rewrite patch_fold. reflexivity.
Qed.

Lemma parse_file_blob_url_round_trip_witness :
  parse_file_blob_url
    (Some (py "https://github.com/acme/shop/blob/main/src/cart/total.py"))
  = Return example_blob_url.
Proof.
  apply (parse_file_blob_url_round_trip true example_blob_url);
    try (split; [discriminate|]); try discriminate; try reflexivity;
    vm_compute; intuition discriminate.
Defined.

Lemma parse_file_blob_url_rebuilds_witness :
  exists secure,
    strip (py "  http://ghe.acme.test/acme/shop/blob/v1.2/README.md ")
    = blob_url_text secure
        (mk_blob_url (py "ghe.acme.test") (py "acme") (py "shop")
                     (py "v1.2") (py "README.md")).
Proof.
  apply (parse_file_blob_url_rebuilds
           (Some (py "  http://ghe.acme.test/acme/shop/blob/v1.2/README.md "))
           (mk_blob_url (py "ghe.acme.test") (py "acme") (py "shop")
                        (py "v1.2") (py "README.md"))).
  reflexivity.
Defined.

Lemma fetch_commit_patch_for_file_last_target_witness :
  fetch_commit_patch_for_file (Some (py "ghp_token"))
    (Return (mk_response true 200 [] (Some example_files))) (py "old.py")
  = Return ([], [py "a.py"]).
Proof.
  apply (fetch_commit_patch_for_file_last_target (Some (py "ghp_token"))
           (mk_response true 200 [] (Some example_files)) (py "old.py"));
    reflexivity.
Defined.

End FileHistoryFacts.

(** ** github_api.py: [_extract_added_class_like_symbols] *)

Module SymbolsFacts.
Import Py DiffUtils Symbols.

Section Patterns.
Variable _CLASS_PATTERNS : list (str -> option str).

(** The first match is a match of one of the patterns, and there is
    one as soon as a pattern matches. *)
Lemma first_match_some (patterns : list (str -> option str))
    (line name : str) :
  first_match patterns line = Some name ->
  exists rx, In rx patterns /\ rx line = Some name.
Proof.
  induction patterns as [|rx rest IH]; [discriminate|].
  cbn [first_match]. destruct (rx line) as [n|] eqn:Hrx.
  - intros [= <-]. exists rx. split; [left; reflexivity|exact Hrx].
  - intros H. destruct (IH H) as (rx' & Hin & Hm).
    exists rx'. split; [right; exact Hin|exact Hm].
Qed.

Lemma first_match_none (patterns : list (str -> option str)) (line : str) :
  first_match patterns line = None <->
  forall rx, In rx patterns -> rx line = None.
Proof.
  induction patterns as [|rx rest IH]; cbn [first_match].
  - split; [intros _ rx []|reflexivity].
  - destruct (rx line) as [n|] eqn:Hrx.
    + split; [discriminate|]. intros H.
      rewrite (H rx (or_introl eq_refl)) in Hrx. discriminate.
    + rewrite IH. split.
      * intros H rx' [<-|Hin]; [exact Hrx|apply H, Hin].
      * intros H rx' Hin. apply H. right. exact Hin.
Qed.

Lemma names_fold (lines : list str) :
  forall (names : list str) (n : str),
    In n (fold_left (names_step _CLASS_PATTERNS) lines names)
    <-> In n names
        \/ exists line, In line lines /\ declares _CLASS_PATTERNS line n.
Proof.
  induction lines as [|ln lines IH]; intros names n; cbn [fold_left].
  - split; [auto|]. intros [H|(line & [] & _)]. exact H.
  - rewrite IH. unfold names_step, declares.
    destruct (startswith ln (py "+")) eqn:Hplus; cbn [negb].
    + destruct (first_match _CLASS_PATTERNS ln) as [name|] eqn:Hm.
      * rewrite in_app_iff. cbn [In]. split.
        -- intros [[H|[<-|[]]]|(line & Hin & Hd)].
           ++ left. exact H.
           ++ right. exists ln. split; [left; reflexivity|]. auto.
           ++ right. exists line. split; [right; exact Hin|exact Hd].
        -- intros [H|(line & [<-|Hin] & Hd)].
           ++ left. left. exact H.
           ++ left. right. left. destruct Hd as [_ Hd].
              rewrite Hm in Hd. congruence.
           ++ right. exists line. split; assumption.
      * split.
        -- intros [H|(line & Hin & Hd)]; [left; exact H|].
           right. exists line. split; [right; exact Hin|exact Hd].
        -- intros [H|(line & [<-|Hin] & Hd)]; [left; exact H| |].
           ++ destruct Hd as [_ Hd]. rewrite Hm in Hd. discriminate.
           ++ right. exists line. split; assumption.
    + split.
      * intros [H|(line & Hin & Hd)]; [left; exact H|].
        right. exists line. split; [right; exact Hin|exact Hd].
      * intros [H|(line & [<-|Hin] & Hd)]; [left; exact H| |].
        -- destruct Hd as [Hd _]. rewrite Hplus in Hd. discriminate.
        -- right. exists line. split; assumption.
Qed.

(** The first loop gathers the names in the order of the lines. *)
Lemma names_fold_declared (lines : list str) :
  forall names,
    fold_left (names_step _CLASS_PATTERNS) lines names
    = names ++ flat_map (declared _CLASS_PATTERNS) lines.
Proof.
  induction lines as [|ln lines IH]; intros names; cbn [fold_left flat_map].
  - rewrite app_nil_r. reflexivity.
  - rewrite IH. unfold names_step, declared.
    destruct (startswith ln (py "+")); cbn [negb]; [|reflexivity].
    destruct (first_match _CLASS_PATTERNS ln); [|reflexivity].
    rewrite <- app_assoc. reflexivity.
Qed.

Lemma added_names_declared (block_text : str) :
  added_names _CLASS_PATTERNS block_text
  = declared_names _CLASS_PATTERNS block_text.
Proof. unfold added_names. apply names_fold_declared. Qed.

(** X17. [_extract_added_class_like_symbols] returns the names that
    the added lines of the block declare, each of them once: a name is
    returned exactly when a line that starts with [+] gives it as its
    first match among the patterns, lines that do not start with [+]
    count for nothing, and the names come in the order of the lines
    that declare them first: of two names returned, the one returned
    first is the one that first occurs earlier in the list of the
    names declared line by line, from the first line of the block to
    the last one. *)
Theorem extract_added_symbols_once_each (block_text : str) :
  NoDup (_extract_added_class_like_symbols _CLASS_PATTERNS block_text)
  /\ (forall n,
        In n (_extract_added_class_like_symbols _CLASS_PATTERNS block_text)
        <-> exists line,
              In line (splitlines false block_text)
              /\ declares _CLASS_PATTERNS line n)
  /\ in_first_occurrence_order
       (_extract_added_class_like_symbols _CLASS_PATTERNS block_text)
       (declared_names _CLASS_PATTERNS block_text).
Proof.
  pose proof (ChangedFilesFacts.uniq_inv_fold
                (added_names _CLASS_PATTERNS block_text) [] _
                ChangedFilesFacts.uniq_inv_init) as Hinv.
  unfold _extract_added_class_like_symbols.
  cbn [app] in Hinv.
  destruct (fold_left uniq_step (added_names _CLASS_PATTERNS block_text)
                      ([], [])) as [uniq seen].
  destruct Hinv as (_ & Hnd & Hread & Hord). cbn [fst snd] in *.
  split; [exact Hnd|]. split.
  - intros n. rewrite Hread. unfold added_names. rewrite names_fold.
    cbn [In]. tauto.
  - rewrite <- added_names_declared. exact Hord.
Qed.

End Patterns.

(** On the example: [B] is declared on the first line and again on
    the last one, [A] on the third; the removed line and the line
    that does not start with [+] count for nothing. *)
Lemma extract_added_symbols_once_each_witness :
  _extract_added_class_like_symbols [class_pattern] example_added_block
  = [py "B"; py "A"]
  /\ declared_names [class_pattern] example_added_block
     = [py "B"; py "A"; py "B"]
  /\ NoDup [py "B"; py "A"]
  /\ in_first_occurrence_order [py "B"; py "A"] [py "B"; py "A"; py "B"].
Proof.
  pose proof (extract_added_symbols_once_each [class_pattern]
                example_added_block) as (Hnd & _ & Hord).
  split; [vm_compute; reflexivity|]. split; [vm_compute; reflexivity|].
  split; [exact Hnd|exact Hord].
Defined.

End SymbolsFacts.

(** ** file_history_tab.py: [_unwrap_code_fences] *)

Module FencesFacts.
Import Py Fences.

Lemma join_cons (sep x : str) (l : list str) :
  l <> [] -> join sep (x :: l) = x ++ sep ++ join sep l.
Proof. destruct l; [contradiction|reflexivity]. Qed.

Lemma join_snoc (sep x : str) (l : list str) :
  l <> [] -> join sep (l ++ [x]) = join sep l ++ sep ++ x.
Proof.
  induction l as [|y l IH]; [contradiction|]. intros _.
  destruct l as [|z l]; [reflexivity|].
  change ((y :: z :: l) ++ [x]) with (y :: ((z :: l) ++ [x])).
  rewrite join_cons by discriminate. rewrite IH by discriminate.
  rewrite (join_cons sep y (z :: l)) by discriminate.
  rewrite <- !app_assoc. reflexivity.
Qed.

Lemma join_nonempty (sep : str) (l : list str) :
  last l [] <> [] -> join sep l <> [].
Proof.
  induction l as [|x l IH]; [intros H; exact H|].
  destruct l as [|y l]; [intros H; exact H|].
  intros H. rewrite join_cons by discriminate.
  specialize (IH H). destruct (join sep (y :: l)); [contradiction|].
  intros Heq. apply app_eq_nil in Heq. destruct Heq as [_ Heq].
  apply app_eq_nil in Heq. destruct Heq as [_ Heq]. discriminate.
Qed.

Lemma splitlines_from_run (x : str) :
  one_line x ->
  forall cur rest,
    splitlines_from false cur (x ++ rest)
    = splitlines_from false (cur ++ x) rest.
Proof.
  induction x as [|c x IH]; intros Hx cur rest.
  - rewrite app_nil_r. reflexivity.
  - cbn [app]. rewrite PyFacts.splitlines_from_cons.
    rewrite (Hx c (or_introl eq_refl)).
    rewrite IH by (intros d Hd; apply Hx; right; exact Hd).
    rewrite <- app_assoc. reflexivity.
Qed.

Lemma splitlines_from_LF (cur : str) (d : char) (rest : str) :
  splitlines_from false cur (LF :: d :: rest)
  = cur :: splitlines_from false [] (d :: rest).
Proof.
  rewrite PyFacts.splitlines_from_cons.
  change (is_linebreak LF) with true. change (N.eqb LF CR) with false.
  cbn [andb]. rewrite app_nil_r. reflexivity.
Qed.

(** Lines joined by line feeds are split into the same lines, when
    the last one is not empty. *)
Lemma splitlines_join (ls : list str) :
  ls <> [] -> Forall one_line ls -> last ls [] <> [] ->
  splitlines false (join [LF] ls) = ls.
Proof.
  unfold splitlines.
  induction ls as [|x ls IH]; [contradiction|]. intros _ Hall Hlast.
  inversion Hall as [|? ? Hx Hls]; subst.
  destruct ls as [|y ls].
  - cbn [join]. rewrite <- (app_nil_r x) at 1.
    rewrite (splitlines_from_run x Hx). cbn [app].
    rewrite PyFacts.splitlines_from_nil.
    destruct x; [contradiction|reflexivity].
  - rewrite join_cons by discriminate.
    rewrite (splitlines_from_run x Hx). cbn [app].
    pose proof (join_nonempty [LF] (y :: ls) Hlast) as Hne.
    specialize (IH ltac:(discriminate) Hls Hlast).
    destruct (join [LF] (y :: ls)) as [|d rest]; [contradiction|].
    rewrite splitlines_from_LF, IH. reflexivity.
Qed.

Lemma one_line_app (a b : str) : one_line a -> one_line b -> one_line (a ++ b).
Proof.
  intros Ha Hb c Hc. apply in_app_or in Hc. destruct Hc; auto.
Qed.

Lemma one_line_fence : one_line fence.
Proof.
  intros c Hc. cbn in Hc.
  destruct Hc as [<-|[<-|[<-|[]]]]; reflexivity.
Qed.

Lemma fenced_shape (lang : str) (body : list str) :
  exists m, fenced lang body = fence ++ m ++ [LF] ++ fence.
Proof.
  unfold fenced.
  change ((fence ++ lang) :: body ++ [fence])
    with (((fence ++ lang) :: body) ++ [fence]).
  rewrite join_snoc by discriminate.
  destruct body as [|b body].
  - exists lang. cbn [join]. rewrite <- !app_assoc. reflexivity.
  - exists (lang ++ [LF] ++ join [LF] (b :: body)).
    rewrite join_cons by discriminate. rewrite <- !app_assoc. reflexivity.
Qed.

Lemma fenced_strip (lang : str) (body : list str) :
  strip (fenced lang body) = fenced lang body.
Proof.
  destruct (fenced_shape lang body) as (m & ->).
  unfold strip. change fence with [BACKTICK; BACKTICK; BACKTICK].
  cbn [app]. rewrite FileHistoryFacts.lstrip_head by reflexivity.
  change (BACKTICK :: BACKTICK :: BACKTICK
            :: m ++ LF :: [BACKTICK; BACKTICK; BACKTICK])
    with ([BACKTICK; BACKTICK; BACKTICK]
            ++ m ++ [LF; BACKTICK; BACKTICK] ++ [BACKTICK]).
  rewrite !app_assoc. apply FileHistoryFacts.rstrip_last. reflexivity.
Qed.

Lemma fenced_fences (lang : str) (body : list str) :
  startswith (fenced lang body) fence = true
  /\ endswith (fenced lang body) fence = true
  /\ truthy (fenced lang body) = true.
Proof.
  destruct (fenced_shape lang body) as (m & ->).
  split; [|split].
  - unfold startswith. rewrite PyFacts.strip_prefix_here. reflexivity.
  - unfold endswith, startswith. rewrite !app_assoc, rev_app_distr.
    rewrite PyFacts.strip_prefix_here. reflexivity.
  - reflexivity.
Qed.

(** X18. [_unwrap_code_fences] gives back the body of a fenced block:
    for an opening fence with a language hint, the lines of a body and
    a closing fence, a line each, it returns the lines of the body
    joined by line feeds, empty lines kept, when neither the hint nor
    a line of the body holds a line boundary. *)
Theorem unwrap_code_fences_round_trip (lang : str) (body : list str) :
  one_line lang -> Forall one_line body ->
  _unwrap_code_fences (fenced lang body) = join [LF] body.
Proof.
  intros Hlang Hbody.
  destruct (fenced_fences lang body) as (Hstart & Hend & Htruthy).
  unfold _unwrap_code_fences.
  rewrite Htruthy, fenced_strip, Hstart, Hend. cbn [negb andb].
  unfold fenced at 1 2. rewrite splitlines_join.
  - cbn [List.length]. rewrite length_app. cbn [List.length].
    replace (2 <=? S (List.length body + 1)) with true
      by (symmetry; apply Nat.leb_le; lia).
    unfold inner. cbn [tl]. rewrite removelast_last. reflexivity.
  - discriminate.
  - constructor; [apply one_line_app; [apply one_line_fence|exact Hlang]|].
    apply Forall_app. split; [exact Hbody|].
    constructor; [apply one_line_fence|constructor].
  - change ((fence ++ lang) :: body ++ [fence])
      with (((fence ++ lang) :: body) ++ [fence]).
    rewrite last_last. discriminate.
Qed.

Lemma unwrap_code_fences_round_trip_witness :
  _unwrap_code_fences
    (fenced (py "html") [py "<h3>Summary</h3>"; []; py "<p>ok</p>"])
  = join [LF] [py "<h3>Summary</h3>"; []; py "<p>ok</p>"].
Proof.
  apply (unwrap_code_fences_round_trip (py "html")
           [py "<h3>Summary</h3>"; []; py "<p>ok</p>"]).
  - intros c Hc. vm_compute in Hc.
    repeat (destruct Hc as [<-|Hc]; [reflexivity|]). destruct Hc.
  - repeat constructor; intros c Hc; vm_compute in Hc;
      repeat (destruct Hc as [<-|Hc]; [reflexivity|]); destruct Hc.
Defined.

End FencesFacts.
